(** * Decoder configuration records of go-webdl/media-codec

    A shallow embedding of the three record codecs of the repository
    (package [avc], package [hevc], package [dovi]) together with the
    parts of Go's [io] and [encoding/binary] packages they are written
    against, and the properties of the codecs checked against it.

    Conventions of the embedding.
    - A Go unsigned integer of width [w] is a [Z]; every operation that
      can leave the range is followed by the reduction modulo [2^w]
      ([u8], [u16], [u32], [u64]).
    - A wire byte, and an element of a [[]byte], is a [Byte.byte].
    - A Go slice is a list; the nil slice and the empty slice are both
      [[]].
    - A method with a pointer receiver that reads from an [io.Reader] is
      a computation over the pair (receiver, reader): the receiver is
      mutated in place and keeps what was stored in it when the method
      returns early with an error.
    - An [io.Reader] is a finite sequence of bytes still to be read, so
      the errors of a read are those of a source that ends; an
      [io.Writer] is a buffer with a bound on what it takes, so the
      error of a write is that of a sink that is full. *)

From Stdlib Require Import ZArith NArith List Bool Lia.
From Stdlib Require Import Init.Byte Strings.Byte.
Import ListNotations.
Local Open Scope Z_scope.

(** ** Machine integers and bytes *)

Definition u8 (z : Z) : Z := z mod 2 ^ 8.
Definition u16 (z : Z) : Z := z mod 2 ^ 16.
Definition u32 (z : Z) : Z := z mod 2 ^ 32.
Definition u64 (z : Z) : Z := z mod 2 ^ 64.

(** [uint8 -> Z] and the conversion [byte(v)] of an unsigned value. *)
Definition b2z (b : byte) : Z := Z.of_N (Byte.to_N b).

Definition z2b (z : Z) : byte :=
  match Byte.of_N (Z.to_N (u8 z)) with
  | Some b => b
  | None => x00
  end.

(** [len(s)] as an integer. *)
Definition len {A : Type} (s : list A) : Z := Z.of_nat (length s).

(** [make([]T, n)]: [n] zero values. *)
Definition make {A : Type} (zero : A) (n : Z) : list A := repeat zero (Z.to_nat n).

(** [tmp[i]] on a byte array that is known to be long enough. *)
Definition at_ (tmp : list byte) (i : nat) : Z := b2z (nth i tmp x00).

Notation "t @ i" := (at_ t i) (at level 9, i at level 9, format "t @ i").

(** [s[i] = f(s[i])].  Go panics when [i] is out of range; every use
    below indexes a slice that was just made with the loop bound as its
    length, so that case does not arise and the list is left as it is. *)
Fixpoint upd {A : Type} (i : nat) (f : A -> A) (s : list A) : list A :=
  match s, i with
  | [], _ => []
  | x :: s', O => f x :: s'
  | x :: s', S i' => x :: upd i' f s'
  end.

(** ** Errors and the state-and-error monad *)

(** [io.EOF], [io.ErrUnexpectedEOF] and the error of a sink that takes
    fewer bytes than it was given ([io.ErrShortWrite]). *)
Inductive error : Type :=
| EOF
| ErrUnexpectedEOF
| ErrShortWrite.

Inductive result (A : Type) : Type :=
| Ok (a : A)
| Err (e : error).

Arguments Ok {A} a.
Arguments Err {A} e.

(** A computation over a state [St] that either yields a value or stops
    with an error; the state reached so far is kept in both cases, as
    with Go's [if err != nil { return }]. *)
Definition M (St A : Type) : Type := St -> result A * St.

Definition ret {St A : Type} (a : A) : M St A := fun s => (Ok a, s).

Definition bind {St A B : Type} (m : M St A) (k : A -> M St B) : M St B :=
  fun s =>
    match m s with
    | (Ok a, s') => k a s'
    | (Err e, s') => (Err e, s')
    end.

Declare Scope go_scope.
Delimit Scope go_scope with go.
Notation "x <- m ;; k" := (bind m (fun x => k))
  (at level 61, m at next level, right associativity) : go_scope.
Notation "m ;; k" := (bind m (fun _ => k))
  (at level 61, right associativity) : go_scope.

(** [for i := lo; i < lo+n; i++ { body i }]. *)
Fixpoint for_range {St : Type} (lo : nat) (n : nat) (body : nat -> M St unit) : M St unit :=
  match n with
  | O => ret tt
  | S n' => bind (body lo) (fun _ => for_range (S lo) n' body)
  end.

(** [for _, x := range s { body x }]. *)
Fixpoint for_each {St A : Type} (s : list A) (body : A -> M St unit) : M St unit :=
  match s with
  | [] => ret tt
  | x :: s' => bind (body x) (fun _ => for_each s' body)
  end.

(** ** Package io *)

Module io.

(** A byte source: the bytes that are still to be read. *)
Definition Reader : Type := list byte.

(** A byte sink: what it has taken so far, and how many more bytes it
    will take. *)
Record Writer : Type := mkWriter { written : list byte; room : N }.

(** [w.Write(p)].  A sink with too little room takes what fits and
    reports [ErrShortWrite]. *)
Definition Write (p : list byte) : M Writer unit :=
  fun w =>
    if (N.of_nat (length p) <=? room w)%N
    then (Ok tt, mkWriter (written w ++ p) (room w - N.of_nat (length p)))
    else (Err ErrShortWrite,
          mkWriter (written w ++ firstn (N.to_nat (room w)) p) 0).

(** [io.ReadFull(r, buf)]: fills [buf] from the source.  With fewer
    bytes left than [len(buf)] the bytes that are there are copied to
    the front of [buf], the source is used up, and the error is [EOF]
    when nothing was read and [ErrUnexpectedEOF] otherwise.  An empty
    [buf] is filled without reading.  The result is the buffer after
    the call. *)
Definition ReadFull (buf : list byte) (r : Reader) : list byte * result unit * Reader :=
  let n := length buf in
  if (n <=? length r)%nat
  then (firstn n r, Ok tt, skipn n r)
  else (r ++ skipn (length r) buf,
        Err (match r with [] => EOF | _ :: _ => ErrUnexpectedEOF end),
        []).

End io.

(** ** Package encoding/binary, big-endian *)

Module binary.

(** [BigEndian.PutUint16], [PutUint32]. *)
Definition PutUint16 (v : Z) : list byte :=
  [z2b (Z.shiftr v 8); z2b v].

Definition PutUint32 (v : Z) : list byte :=
  [z2b (Z.shiftr v 24); z2b (Z.shiftr v 16); z2b (Z.shiftr v 8); z2b v].

(** [BigEndian.Uint16]. *)
Definition Uint16 (bs : list byte) : Z :=
  Z.lor (bs@1) (u16 (Z.shiftl (bs@0) 8)).

(** [binary.Write(w, BigEndian, v)] for a [uint8], [uint16], [uint32]
    value and for a byte slice or array: the value is laid out in a
    fresh buffer which is handed to [w.Write] in one call. *)
Definition Write_uint8 (v : Z) : M io.Writer unit := io.Write [z2b v].
Definition Write_uint16 (v : Z) : M io.Writer unit := io.Write (PutUint16 v).
Definition Write_uint32 (v : Z) : M io.Writer unit := io.Write (PutUint32 v).
Definition Write_bytes (p : list byte) : M io.Writer unit := io.Write p.

Section Read.
Context {B : Type}.

(** [binary.Read(r, BigEndian, data)] for [data] of [n] bytes: the
    bytes are read with [io.ReadFull] into a buffer of the call; when
    that fails [data] is not touched. *)
Definition Read (n : nat) : M (B * io.Reader) (list byte) :=
  fun s =>
    let '(b, r) := s in
    match io.ReadFull (repeat x00 n) r with
    | (bs, Ok _, r') => (Ok bs, (b, r'))
    | (_, Err e, r') => (Err e, (b, r'))
    end.

Definition Read_uint16 : M (B * io.Reader) Z :=
  bind (Read 2) (fun bs => ret (Uint16 bs)).

Definition Read_uint8 : M (B * io.Reader) Z :=
  bind (Read 1) (fun bs => ret (bs@0)).
End Read.

End binary.

Section Receiver.
Context {B : Type}.

(** An assignment to the receiver. *)
Definition assign (f : B -> B) : M (B * io.Reader) unit :=
  fun s => (Ok tt, (f (fst s), snd s)).

(** [io.ReadFull(r, buf)] for a byte slice [buf] that lives in the
    receiver: [get] reads it, [set] stores what the call left in it. *)
Definition ReadFull_into (get : B -> list byte) (set : list byte -> B -> B)
  : M (B * io.Reader) unit :=
  fun s =>
    let '(b, r) := s in
    match io.ReadFull (get b) r with
    | (buf, res, r') => (res, (set buf b, r'))
    end.
End Receiver.

Local Open Scope go_scope.

(** ** Package dovi *)

Module dovi.

Record DOVIDecoderConfigurationRecord : Type := {
  VersionMajor : Z;
  VersionMinor : Z;
  Profile : Z;
  Level : Z;
  RPUPresent : bool;
  ELPresent : bool;
  BLPresent : bool;
  BLSignalCompatibilityID : Z
}.

Definition RecordSize (b : DOVIDecoderConfigurationRecord) : Z := 24.

Definition RecordRead : M (DOVIDecoderConfigurationRecord * io.Reader) unit :=
  tmp <- binary.Read 24 ;;
  assign (fun _ => {|
    VersionMajor := tmp@0;
    VersionMinor := tmp@1;
    Profile := Z.shiftr tmp@2 1;
    Level := Z.lor (u8 (Z.shiftl (Z.land tmp@2 1) 5))
                   (Z.shiftr (Z.land tmp@3 248) 3);
    RPUPresent := 0 <? Z.land tmp@3 4;
    ELPresent := 0 <? Z.land tmp@3 2;
    BLPresent := 0 <? Z.land tmp@3 1;
    BLSignalCompatibilityID := Z.shiftr tmp@4 4
  |}).

Definition RecordWrite (b : DOVIDecoderConfigurationRecord) : M io.Writer unit :=
  let tmp2 := Z.lor (u8 (Z.shiftl (Profile b) 1)) (Z.land (Z.shiftr (Level b) 5) 1) in
  let tmp3 := Z.land (u8 (Z.shiftl (Level b) 3)) 248 in
  let tmp3 := if RPUPresent b then Z.lor tmp3 4 else tmp3 in
  let tmp3 := if ELPresent b then Z.lor tmp3 2 else tmp3 in
  let tmp3 := if BLPresent b then Z.lor tmp3 1 else tmp3 in
  let tmp4 := u8 (Z.shiftl (BLSignalCompatibilityID b) 4) in
  binary.Write_bytes
    ([z2b (VersionMajor b); z2b (VersionMinor b); z2b tmp2; z2b tmp3; z2b tmp4]
     ++ repeat x00 19).

(** The zero value of the record type. *)
Definition zero : DOVIDecoderConfigurationRecord := {|
  VersionMajor := 0; VersionMinor := 0; Profile := 0; Level := 0;
  RPUPresent := false; ELPresent := false; BLPresent := false;
  BLSignalCompatibilityID := 0
|}.

End dovi.

(** ** Reading length-prefixed NAL units into a slice of the receiver

    The loops of [avc.RecordRead] over [SequenceParameterSets],
    [PictureParameterSets] and [SequenceParameterSetExts] and the inner
    loop of [hevc.RecordRead] over [NaluArrays[i].NALUs] run the same
    three statements on a slot of a slice of the receiver: read a 16-bit
    length, make the slot's buffer of that length, fill the buffer with
    [io.ReadFull].  [get] and [set] give the slice in the receiver,
    [unit_of] and [with_unit] the byte slice in an element of it. *)

Section Entries.
Context {B T : Type}.
Variable get : B -> list T.
Variable set : list T -> B -> B.
Variable unit_of : T -> list byte.
Variable with_unit : list byte -> T -> T.
Variable zeroT : T.

Definition read_entry (i : nat) : M (B * io.Reader) unit :=
  n <- binary.Read_uint16 ;;
  assign (fun b => set (upd i (with_unit (make x00 n)) (get b)) b) ;;
  ReadFull_into (fun b => unit_of (nth i (get b) zeroT))
                (fun buf b => set (upd i (with_unit buf) (get b)) b).

Definition read_entries (count : Z) : M (B * io.Reader) unit :=
  for_range 0 (Z.to_nat count) read_entry.
End Entries.

(** Reading a field of the receiver. *)
Definition load {B A : Type} (f : B -> A) : M (B * io.Reader) A :=
  fun s => (Ok (f (fst s)), s).

(** ** Package avc *)

Module avc.

(** The three struct types [AVCSequenceParameterSet],
    [AVCPictureParameterSet] and [AVCSequenceParameterSetExt] have the
    same single field and are one record type here. *)
Record AVCParameterSet : Type := { NALUnit : list byte }.
Definition AVCSequenceParameterSet : Type := AVCParameterSet.
Definition AVCPictureParameterSet : Type := AVCParameterSet.
Definition AVCSequenceParameterSetExt : Type := AVCParameterSet.

Record AVCDecoderConfigurationRecord : Type := {
  ConfigurationVersion : Z;
  AVCProfileIndication : Z;
  ProfileCompatibility : Z;
  AVCLevelIndication : Z;
  LengthSizeMinusOne : Z;
  SequenceParameterSets : list AVCSequenceParameterSet;
  PictureParameterSets : list AVCPictureParameterSet;
  ChromaFormat : Z;
  BitDepthLumaMinus8 : Z;
  BitDepthChromaMinus8 : Z;
  SequenceParameterSetExts : list AVCSequenceParameterSetExt
}.

(** The zero values of the struct types. *)
Definition zero_set : AVCParameterSet := {| NALUnit := [] |}.

Definition zero : AVCDecoderConfigurationRecord := {|
  ConfigurationVersion := 0; AVCProfileIndication := 0;
  ProfileCompatibility := 0; AVCLevelIndication := 0;
  LengthSizeMinusOne := 0;
  SequenceParameterSets := []; PictureParameterSets := [];
  ChromaFormat := 0; BitDepthLumaMinus8 := 0; BitDepthChromaMinus8 := 0;
  SequenceParameterSetExts := []
|}.

(** [p == 100 || p == 110 || p == 122 || p == 144] *)
Definition has_ext (p : Z) : bool :=
  (p =? 100) || (p =? 110) || (p =? 122) || (p =? 144).

(** [size += 2 + uint32(len(e.NALUnit))] over a slice. *)
Definition add_sets (size : Z) (s : list AVCParameterSet) : Z :=
  fold_left (fun size e => u32 (size + u32 (2 + u32 (len (NALUnit e))))) s size.

Definition RecordSize (b : AVCDecoderConfigurationRecord) : Z :=
  let size := u32 (0 + 6) in
  let size := add_sets size (SequenceParameterSets b) in
  let size := u32 (size + 1) in
  let size := add_sets size (PictureParameterSets b) in
  if has_ext (AVCProfileIndication b)
  then
    let size := u32 (size + 4) in
    add_sets size (SequenceParameterSetExts b)
  else size.

(** Assignments to the fields that are set after the header. *)
Definition set_SequenceParameterSets (v : list AVCSequenceParameterSet)
           (b : AVCDecoderConfigurationRecord) : AVCDecoderConfigurationRecord := {|
  ConfigurationVersion := ConfigurationVersion b;
  AVCProfileIndication := AVCProfileIndication b;
  ProfileCompatibility := ProfileCompatibility b;
  AVCLevelIndication := AVCLevelIndication b;
  LengthSizeMinusOne := LengthSizeMinusOne b;
  SequenceParameterSets := v;
  PictureParameterSets := PictureParameterSets b;
  ChromaFormat := ChromaFormat b;
  BitDepthLumaMinus8 := BitDepthLumaMinus8 b;
  BitDepthChromaMinus8 := BitDepthChromaMinus8 b;
  SequenceParameterSetExts := SequenceParameterSetExts b
|}.

Definition set_PictureParameterSets (v : list AVCPictureParameterSet)
           (b : AVCDecoderConfigurationRecord) : AVCDecoderConfigurationRecord := {|
  ConfigurationVersion := ConfigurationVersion b;
  AVCProfileIndication := AVCProfileIndication b;
  ProfileCompatibility := ProfileCompatibility b;
  AVCLevelIndication := AVCLevelIndication b;
  LengthSizeMinusOne := LengthSizeMinusOne b;
  SequenceParameterSets := SequenceParameterSets b;
  PictureParameterSets := v;
  ChromaFormat := ChromaFormat b;
  BitDepthLumaMinus8 := BitDepthLumaMinus8 b;
  BitDepthChromaMinus8 := BitDepthChromaMinus8 b;
  SequenceParameterSetExts := SequenceParameterSetExts b
|}.

Definition set_SequenceParameterSetExts (v : list AVCSequenceParameterSetExt)
           (b : AVCDecoderConfigurationRecord) : AVCDecoderConfigurationRecord := {|
  ConfigurationVersion := ConfigurationVersion b;
  AVCProfileIndication := AVCProfileIndication b;
  ProfileCompatibility := ProfileCompatibility b;
  AVCLevelIndication := AVCLevelIndication b;
  LengthSizeMinusOne := LengthSizeMinusOne b;
  SequenceParameterSets := SequenceParameterSets b;
  PictureParameterSets := PictureParameterSets b;
  ChromaFormat := ChromaFormat b;
  BitDepthLumaMinus8 := BitDepthLumaMinus8 b;
  BitDepthChromaMinus8 := BitDepthChromaMinus8 b;
  SequenceParameterSetExts := v
|}.

(** [e.NALUnit = v] *)
Definition set_NALUnit (v : list byte) (e : AVCParameterSet) : AVCParameterSet :=
  {| NALUnit := v |}.

Definition RecordRead : M (AVCDecoderConfigurationRecord * io.Reader) unit :=
  tmp <- binary.Read 6 ;;
  let numOfSequenceParameterSets := Z.land tmp@5 31 in
  assign (fun b => {|
    ConfigurationVersion := tmp@0;
    AVCProfileIndication := tmp@1;
    ProfileCompatibility := tmp@2;
    AVCLevelIndication := tmp@3;
    LengthSizeMinusOne := Z.land tmp@4 3;
    SequenceParameterSets := make zero_set numOfSequenceParameterSets;
    PictureParameterSets := PictureParameterSets b;
    ChromaFormat := ChromaFormat b;
    BitDepthLumaMinus8 := BitDepthLumaMinus8 b;
    BitDepthChromaMinus8 := BitDepthChromaMinus8 b;
    SequenceParameterSetExts := SequenceParameterSetExts b
  |}) ;;
  read_entries SequenceParameterSets set_SequenceParameterSets
               NALUnit set_NALUnit zero_set numOfSequenceParameterSets ;;
  numOfPictureParameterSets <- binary.Read_uint8 ;;
  assign (set_PictureParameterSets (make zero_set numOfPictureParameterSets)) ;;
  read_entries PictureParameterSets set_PictureParameterSets
               NALUnit set_NALUnit zero_set numOfPictureParameterSets ;;
  profile <- load AVCProfileIndication ;;
  if has_ext profile
  then
    tmp <- binary.Read 4 ;;
    let numOfSequenceParameterSetExt := tmp@3 in
    assign (fun b => {|
      ConfigurationVersion := ConfigurationVersion b;
      AVCProfileIndication := AVCProfileIndication b;
      ProfileCompatibility := ProfileCompatibility b;
      AVCLevelIndication := AVCLevelIndication b;
      LengthSizeMinusOne := LengthSizeMinusOne b;
      SequenceParameterSets := SequenceParameterSets b;
      PictureParameterSets := PictureParameterSets b;
      ChromaFormat := Z.land tmp@0 3;
      BitDepthLumaMinus8 := Z.land tmp@1 7;
      BitDepthChromaMinus8 := Z.land tmp@2 7;
      SequenceParameterSetExts := make zero_set numOfSequenceParameterSetExt
    |}) ;;
    read_entries SequenceParameterSetExts set_SequenceParameterSetExts
                 NALUnit set_NALUnit zero_set numOfSequenceParameterSetExt
  else ret tt.

(** [for i := 0; i < len(s); i++ { write uint16(len(s[i].NALUnit)); w.Write(s[i].NALUnit) }] *)
Definition write_sets (s : list AVCParameterSet) : M io.Writer unit :=
  for_range 0 (length s) (fun i =>
    binary.Write_uint16 (u16 (len (NALUnit (nth i s zero_set)))) ;;
    io.Write (NALUnit (nth i s zero_set))).

Definition RecordWrite (b : AVCDecoderConfigurationRecord) : M io.Writer unit :=
  binary.Write_uint8 (ConfigurationVersion b) ;;
  binary.Write_uint8 (AVCProfileIndication b) ;;
  binary.Write_uint8 (ProfileCompatibility b) ;;
  binary.Write_uint8 (AVCLevelIndication b) ;;
  binary.Write_uint8 (Z.lor (LengthSizeMinusOne b) 252) ;;
  binary.Write_uint8 (Z.lor (u8 (len (SequenceParameterSets b))) 224) ;;
  write_sets (SequenceParameterSets b) ;;
  binary.Write_uint8 (u8 (len (PictureParameterSets b))) ;;
  write_sets (PictureParameterSets b) ;;
  if has_ext (AVCProfileIndication b)
  then
    binary.Write_uint8 (Z.lor (ChromaFormat b) 252) ;;
    binary.Write_uint8 (Z.lor (BitDepthLumaMinus8 b) 248) ;;
    binary.Write_uint8 (Z.lor (BitDepthChromaMinus8 b) 248) ;;
    binary.Write_uint8 (u8 (len (SequenceParameterSetExts b))) ;;
    write_sets (SequenceParameterSetExts b)
  else ret tt.

End avc.

(** ** Package hevc *)

(** What a Go function gives back when it can also stop with a run-time
    panic. *)
Inductive outcome (A : Type) : Type :=
| Returns (a : A)
| Panics_index_out_of_range (index : Z) (length : Z).

Arguments Returns {A} a.
Arguments Panics_index_out_of_range {A} index length.

(** [s[i]] as an expression: a run-time panic when [i] is not below
    [len(s)]. *)
Definition index {A : Type} (s : list A) (i : nat) : outcome A :=
  match nth_error s i with
  | Some x => Returns x
  | None => Panics_index_out_of_range (Z.of_nat i) (len s)
  end.

Module hevc.

(** Modelled from the spec: the declaration of [NaluType] is not among
    the sources; the spec gives a NAL array a 6-bit NAL unit type tag,
    and the code converts the tag to and from [uint8]. *)
Definition NaluType : Type := Z.

Record NaluArray : Type := {
  ArrayCompleteness : bool;
  NALUnitType : NaluType;
  NALUs : list (list byte)
}.

Record HEVCDecoderConfigurationRecord : Type := {
  ConfigurationVersion : Z;
  GeneralProfileSpace : Z;
  GeneralTierFlag : bool;
  GenertalProfileIndicator : Z;
  GeneralProfileCompatibilityFlags : Z;
  GeneralConstraintIndicatorFlags : Z;
  GeneralLevelIndicator : Z;
  MinSpatialSegmentationIndicator : Z;
  ParallelismType : Z;
  ChromaFormatIndicator : Z;
  BitDepthLumaMinus8 : Z;
  BitDepthChromaMinus8 : Z;
  AvgFrameRate : Z;
  ConstantFrameRate : Z;
  NumTemporalLayers : Z;
  TemporalIDNested : Z;
  LengthSizeMinusOne : Z;
  NaluArrays : list NaluArray
}.

(** The zero values of the struct types. *)
Definition zero_array : NaluArray :=
  {| ArrayCompleteness := false; NALUnitType := 0; NALUs := [] |}.

Definition zero : HEVCDecoderConfigurationRecord := {|
  ConfigurationVersion := 0; GeneralProfileSpace := 0;
  GeneralTierFlag := false; GenertalProfileIndicator := 0;
  GeneralProfileCompatibilityFlags := 0;
  GeneralConstraintIndicatorFlags := 0;
  GeneralLevelIndicator := 0; MinSpatialSegmentationIndicator := 0;
  ParallelismType := 0; ChromaFormatIndicator := 0;
  BitDepthLumaMinus8 := 0; BitDepthChromaMinus8 := 0;
  AvgFrameRate := 0; ConstantFrameRate := 0; NumTemporalLayers := 0;
  TemporalIDNested := 0; LengthSizeMinusOne := 0;
  NaluArrays := []
|}.

(** The body of the loop over [b.NaluArrays] in [RecordSize]: the pair
    is ([size], [naluCount]). *)
Definition size_step (acc : Z * Z) (entry : NaluArray) : Z * Z :=
  let '(size, naluCount) := acc in
  let naluCount := u32 (naluCount + u32 (len (NALUs entry))) in
  let size := fold_left (fun size nalu => u32 (size + u32 (len nalu))) (NALUs entry) size in
  (size, naluCount).

Definition RecordSize (b : HEVCDecoderConfigurationRecord) : Z :=
  let size := u32 (0 + 23) in
  let size := u32 (size + u32 (3 * u32 (len (NaluArrays b)))) in
  let '(size, naluCount) := fold_left size_step (NaluArrays b) (size, 0) in
  u32 (size + u32 (2 * naluCount)).

Definition set_NaluArrays (v : list NaluArray) (b : HEVCDecoderConfigurationRecord)
  : HEVCDecoderConfigurationRecord := {|
  ConfigurationVersion := ConfigurationVersion b;
  GeneralProfileSpace := GeneralProfileSpace b;
  GeneralTierFlag := GeneralTierFlag b;
  GenertalProfileIndicator := GenertalProfileIndicator b;
  GeneralProfileCompatibilityFlags := GeneralProfileCompatibilityFlags b;
  GeneralConstraintIndicatorFlags := GeneralConstraintIndicatorFlags b;
  GeneralLevelIndicator := GeneralLevelIndicator b;
  MinSpatialSegmentationIndicator := MinSpatialSegmentationIndicator b;
  ParallelismType := ParallelismType b;
  ChromaFormatIndicator := ChromaFormatIndicator b;
  BitDepthLumaMinus8 := BitDepthLumaMinus8 b;
  BitDepthChromaMinus8 := BitDepthChromaMinus8 b;
  AvgFrameRate := AvgFrameRate b;
  ConstantFrameRate := ConstantFrameRate b;
  NumTemporalLayers := NumTemporalLayers b;
  TemporalIDNested := TemporalIDNested b;
  LengthSizeMinusOne := LengthSizeMinusOne b;
  NaluArrays := v
|}.

(** [b.NaluArrays[i].NALUs] as a slice of the receiver. *)
Definition get_NALUs (i : nat) (b : HEVCDecoderConfigurationRecord) : list (list byte) :=
  NALUs (nth i (NaluArrays b) zero_array).

Definition set_NALUs (i : nat) (v : list (list byte)) (b : HEVCDecoderConfigurationRecord)
  : HEVCDecoderConfigurationRecord :=
  set_NaluArrays
    (upd i (fun a => {| ArrayCompleteness := ArrayCompleteness a;
                        NALUnitType := NALUnitType a;
                        NALUs := v |})
         (NaluArrays b)) b.

(** The body of the loop over the NAL arrays in [RecordRead]. *)
Definition read_array (i : nat) : M (HEVCDecoderConfigurationRecord * io.Reader) unit :=
  tmp <- binary.Read 3 ;;
  let naluCount := Z.lor (u16 (Z.shiftl (Z.land tmp@1 15) 8)) tmp@2 in
  assign (fun b =>
    set_NaluArrays
      (upd i (fun _ => {| ArrayCompleteness := 0 <? Z.shiftr tmp@0 7;
                          NALUnitType := Z.land tmp@0 63;
                          NALUs := make [] naluCount |})
           (NaluArrays b)) b) ;;
  read_entries (get_NALUs i) (set_NALUs i) (fun nalu => nalu) (fun buf _ => buf) []
               naluCount.

Definition RecordRead : M (HEVCDecoderConfigurationRecord * io.Reader) unit :=
  tmp <- binary.Read 23 ;;
  let entryCount := tmp@22 in
  assign (fun _ => {|
    ConfigurationVersion := tmp@0;
    GeneralProfileSpace := Z.shiftr tmp@1 6;
    GeneralTierFlag := 0 <? Z.land (Z.shiftr tmp@1 5) 1;
    GenertalProfileIndicator := Z.land tmp@1 31;
    GeneralProfileCompatibilityFlags :=
      Z.lor (Z.lor (Z.lor (u32 (Z.shiftl tmp@2 24)) (u32 (Z.shiftl tmp@3 16)))
                   (u32 (Z.shiftl tmp@4 8)))
            tmp@5;
    GeneralConstraintIndicatorFlags :=
      Z.lor (Z.lor (Z.lor (Z.lor (Z.lor (u64 (Z.shiftl tmp@6 40))
                                        (u64 (Z.shiftl tmp@7 32)))
                                 (u64 (Z.shiftl tmp@8 24)))
                          (u64 (Z.shiftl tmp@9 16)))
                   (u64 (Z.shiftl tmp@10 8)))
            tmp@11;
    GeneralLevelIndicator := tmp@12;
    MinSpatialSegmentationIndicator :=
      Z.lor (u16 (Z.shiftl (Z.land tmp@13 15) 8)) tmp@14;
    ParallelismType := Z.land tmp@15 3;
    ChromaFormatIndicator := Z.land tmp@16 3;
    BitDepthLumaMinus8 := Z.land tmp@17 7;
    BitDepthChromaMinus8 := Z.land tmp@18 7;
    AvgFrameRate := Z.lor (u16 (Z.shiftl tmp@19 8)) tmp@20;
    ConstantFrameRate := Z.shiftr tmp@21 6;
    NumTemporalLayers := Z.land (Z.shiftr tmp@21 3) 7;
    TemporalIDNested := Z.land (Z.shiftr tmp@21 2) 1;
    LengthSizeMinusOne := Z.land tmp@21 3;
    NaluArrays := make zero_array entryCount
  |}) ;;
  for_range 0 (Z.to_nat entryCount) read_array.

(** The body of the loop over [b.NaluArrays] in [RecordWrite]. *)
Definition write_array (entry : NaluArray) : M io.Writer unit :=
  let tmp := Z.lor 0 (Z.land (u8 (NALUnitType entry)) 63) in
  let tmp := if ArrayCompleteness entry then Z.lor tmp 128 else tmp in
  binary.Write_uint8 tmp ;;
  binary.Write_uint16 (u16 (len (NALUs entry))) ;;
  for_each (NALUs entry) (fun nalu =>
    binary.Write_uint16 (u16 (len nalu)) ;;
    binary.Write_bytes nalu).

Definition RecordWrite (b : HEVCDecoderConfigurationRecord) : M io.Writer unit :=
  binary.Write_uint8 (ConfigurationVersion b) ;;
  let tmp := Z.lor (u8 (Z.shiftl (GeneralProfileSpace b) 6))
                   (Z.land (GenertalProfileIndicator b) 31) in
  let tmp := if GeneralTierFlag b then Z.lor tmp 16 else tmp in
  binary.Write_uint8 tmp ;;
  binary.Write_uint32 (GeneralProfileCompatibilityFlags b) ;;
  binary.Write_uint16 (u16 (Z.shiftr (GeneralConstraintIndicatorFlags b) 32)) ;;
  binary.Write_uint32 (u32 (GeneralConstraintIndicatorFlags b)) ;;
  binary.Write_uint8 (GeneralLevelIndicator b) ;;
  binary.Write_uint16 (Z.lor (MinSpatialSegmentationIndicator b) (Z.shiftl 15 12)) ;;
  binary.Write_uint8 (Z.lor (ParallelismType b) 63) ;;
  binary.Write_uint8 (Z.lor (ChromaFormatIndicator b) 63) ;;
  binary.Write_uint8 (Z.lor (BitDepthLumaMinus8 b) 31) ;;
  binary.Write_uint8 (Z.lor (BitDepthChromaMinus8 b) 31) ;;
  binary.Write_uint16 (AvgFrameRate b) ;;
  binary.Write_uint8
    (Z.lor (Z.lor (Z.lor (u8 (Z.shiftl (ConstantFrameRate b) 6))
                         (u8 (Z.shiftl (Z.land (NumTemporalLayers b) 7) 3)))
                  (u8 (Z.shiftl (Z.land (TemporalIDNested b) 1) 2)))
           (Z.land (LengthSizeMinusOne b) 3)) ;;
  binary.Write_uint8 (u8 (len (NaluArrays b))) ;;
  for_each (NaluArrays b) write_array.

(** *** The record builder *)

(** Modelled from the spec: the parameter-set parser
    [ParseSPSNALUnit], the type of what it returns and the constants
    [NALU_VPS], [NALU_SPS], [NALU_PPS] are not among the sources.  The
    parsed SPS carries the profile_tier_level fields and the chroma
    format and bit depth fields that the builder copies; the parser,
    its error type and the three constants are parameters of the
    builder. *)
Record ProfileTierLevel : Type := {
  PTL_GeneralProfileSpace : Z;
  PTL_GeneralTierFlag : bool;
  PTL_GeneralProfileIndicator : Z;
  PTL_GeneralProfileCompatibilityFlags : Z;
  PTL_GeneralConstraintIndicatorFlags : Z;
  PTL_GeneralLevelIndicator : Z
}.

Record SPS : Type := {
  SPS_ProfileTierLevel : ProfileTierLevel;
  SPS_ChromaFormatIndicator : Z;
  SPS_BitDepthLumaMinus8 : Z;
  SPS_BitDepthChromaMinus8 : Z
}.

Section Builder.
Variable parse_error : Type.
Variable ParseSPSNALUnit : list byte -> SPS * option parse_error.
Variables NALU_VPS NALU_SPS NALU_PPS : NaluType.

Definition CreateHEVCDecoderConfigurationRecord
           (vpsNalus spsNalus ppsNalus : list (list byte))
           (vpsComplete spsComplete ppsComplete : bool)
  : outcome (HEVCDecoderConfigurationRecord * option parse_error) :=
  match index spsNalus 0 with
  | Panics_index_out_of_range i n => Panics_index_out_of_range i n
  | Returns first =>
    let '(sps, err) := ParseSPSNALUnit first in
    match err with
    | Some e => Returns (zero, Some e)
    | None =>
      let naluArrays := [] in
      let naluArrays := naluArrays ++ [Build_NaluArray vpsComplete NALU_VPS vpsNalus] in
      let naluArrays := naluArrays ++ [Build_NaluArray spsComplete NALU_SPS spsNalus] in
      let naluArrays := naluArrays ++ [Build_NaluArray ppsComplete NALU_PPS ppsNalus] in
      let ptf := SPS_ProfileTierLevel sps in
      Returns ({|
        ConfigurationVersion := 1;
        GeneralProfileSpace := PTL_GeneralProfileSpace ptf;
        GeneralTierFlag := PTL_GeneralTierFlag ptf;
        GenertalProfileIndicator := PTL_GeneralProfileIndicator ptf;
        GeneralProfileCompatibilityFlags := PTL_GeneralProfileCompatibilityFlags ptf;
        GeneralConstraintIndicatorFlags := PTL_GeneralConstraintIndicatorFlags ptf;
        GeneralLevelIndicator := PTL_GeneralLevelIndicator ptf;
        MinSpatialSegmentationIndicator := 0;
        ParallelismType := 0;
        ChromaFormatIndicator := SPS_ChromaFormatIndicator sps;
        BitDepthLumaMinus8 := SPS_BitDepthLumaMinus8 sps;
        BitDepthChromaMinus8 := SPS_BitDepthChromaMinus8 sps;
        AvgFrameRate := 0;
        ConstantFrameRate := 0;
        NumTemporalLayers := 0;
        TemporalIDNested := 0;
        LengthSizeMinusOne := 3;
        NaluArrays := naluArrays
      |}, None)
    end
  end.
End Builder.

End hevc.

(** * Notions used to state the properties *)

(** ** What a computation reads and writes *)

(** The two errors with which [io.ReadFull] reports a source that ends
    before the requested bytes: the spec's [Truncated]. *)
Definition truncated (e : error) : Prop := e = EOF \/ e = ErrUnexpectedEOF.

(** [emits m p]: on every sink, [m] behaves as one [Write] of [p]. *)
Definition emits (m : M io.Writer unit) (p : list byte) : Prop :=
  forall w, m w = io.Write p w.

(** [reads m b c a b']: started on receiver [b], [m] reads exactly the
    bytes [c] from the front of the source, succeeds with [a] and leaves
    the receiver as [b']. *)
Definition reads {B A : Type} (m : M (B * io.Reader) A)
           (b : B) (c : list byte) (a : A) (b' : B) : Prop :=
  forall rest, m (b, c ++ rest) = (Ok a, (b', rest)).

(** [consumes m]: a run of [m] that succeeds has read a front part [c]
    of the source, does the same on every source that starts with [c],
    and fails with a truncation error, the source used up, on every
    source that stops inside [c]; a run that fails has failed with a
    truncation error and used up the source. *)
Definition consumes {B A : Type} (m : M (B * io.Reader) A) : Prop :=
  forall b r,
    match m (b, r) with
    | (Ok a, (b', r')) =>
        exists c, r = c ++ r' /\
          (forall t, m (b, c ++ t) = (Ok a, (b', t))) /\
          (forall p q, c = p ++ q -> q <> [] ->
             exists e b'', m (b, p) = (Err e, (b'', [])) /\ truncated e)
    | (Err e, (_, r')) => truncated e /\ r' = []
    end.

(** [hoare P m Q]: from a receiver in [P], [m] leaves a receiver in [Q],
    whether it succeeds or not. *)
Definition hoare {B A : Type} (P : B -> Prop) (m : M (B * io.Reader) A)
           (Q : B -> Prop) : Prop :=
  forall b r, P b -> Q (fst (snd (m (b, r)))).

(** ** Wire formats *)

(** A 16-bit length followed by the bytes. *)
Definition wire_unit (u : list byte) : list byte :=
  binary.PutUint16 (u16 (len u)) ++ u.

Definition avc_wire_sets (s : list avc.AVCParameterSet) : list byte :=
  concat (map (fun e => wire_unit (avc.NALUnit e)) s).

Definition avc_wire_base (b : avc.AVCDecoderConfigurationRecord) : list byte :=
  [z2b (avc.ConfigurationVersion b); z2b (avc.AVCProfileIndication b);
   z2b (avc.ProfileCompatibility b); z2b (avc.AVCLevelIndication b);
   z2b (Z.lor (avc.LengthSizeMinusOne b) 252);
   z2b (Z.lor (u8 (len (avc.SequenceParameterSets b))) 224)]
  ++ avc_wire_sets (avc.SequenceParameterSets b)
  ++ [z2b (u8 (len (avc.PictureParameterSets b)))]
  ++ avc_wire_sets (avc.PictureParameterSets b).

Definition avc_wire_ext (b : avc.AVCDecoderConfigurationRecord) : list byte :=
  [z2b (Z.lor (avc.ChromaFormat b) 252);
   z2b (Z.lor (avc.BitDepthLumaMinus8 b) 248);
   z2b (Z.lor (avc.BitDepthChromaMinus8 b) 248);
   z2b (u8 (len (avc.SequenceParameterSetExts b)))]
  ++ avc_wire_sets (avc.SequenceParameterSetExts b).

Definition avc_wire (b : avc.AVCDecoderConfigurationRecord) : list byte :=
  avc_wire_base b
  ++ (if avc.has_ext (avc.AVCProfileIndication b) then avc_wire_ext b else []).

Definition hevc_wire_header (b : hevc.HEVCDecoderConfigurationRecord) : list byte :=
  [z2b (hevc.ConfigurationVersion b);
   z2b (let tmp := Z.lor (u8 (Z.shiftl (hevc.GeneralProfileSpace b) 6))
                         (Z.land (hevc.GenertalProfileIndicator b) 31) in
        if hevc.GeneralTierFlag b then Z.lor tmp 16 else tmp)]
  ++ binary.PutUint32 (hevc.GeneralProfileCompatibilityFlags b)
  ++ binary.PutUint16 (u16 (Z.shiftr (hevc.GeneralConstraintIndicatorFlags b) 32))
  ++ binary.PutUint32 (u32 (hevc.GeneralConstraintIndicatorFlags b))
  ++ [z2b (hevc.GeneralLevelIndicator b)]
  ++ binary.PutUint16 (Z.lor (hevc.MinSpatialSegmentationIndicator b) (Z.shiftl 15 12))
  ++ [z2b (Z.lor (hevc.ParallelismType b) 63);
      z2b (Z.lor (hevc.ChromaFormatIndicator b) 63);
      z2b (Z.lor (hevc.BitDepthLumaMinus8 b) 31);
      z2b (Z.lor (hevc.BitDepthChromaMinus8 b) 31)]
  ++ binary.PutUint16 (hevc.AvgFrameRate b)
  ++ [z2b (Z.lor (Z.lor (Z.lor (u8 (Z.shiftl (hevc.ConstantFrameRate b) 6))
                               (u8 (Z.shiftl (Z.land (hevc.NumTemporalLayers b) 7) 3)))
                        (u8 (Z.shiftl (Z.land (hevc.TemporalIDNested b) 1) 2)))
                 (Z.land (hevc.LengthSizeMinusOne b) 3));
      z2b (u8 (len (hevc.NaluArrays b)))].

Definition hevc_wire_array (entry : hevc.NaluArray) : list byte :=
  [z2b (let tmp := Z.lor 0 (Z.land (u8 (hevc.NALUnitType entry)) 63) in
        if hevc.ArrayCompleteness entry then Z.lor tmp 128 else tmp)]
  ++ binary.PutUint16 (u16 (len (hevc.NALUs entry)))
  ++ concat (map wire_unit (hevc.NALUs entry)).

Definition hevc_wire_arrays (s : list hevc.NaluArray) : list byte :=
  concat (map hevc_wire_array s).

Definition hevc_wire (b : hevc.HEVCDecoderConfigurationRecord) : list byte :=
  hevc_wire_header b ++ hevc_wire_arrays (hevc.NaluArrays b).

Definition dovi_wire (b : dovi.DOVIDecoderConfigurationRecord) : list byte :=
  [z2b (dovi.VersionMajor b); z2b (dovi.VersionMinor b);
   z2b (Z.lor (u8 (Z.shiftl (dovi.Profile b) 1))
              (Z.land (Z.shiftr (dovi.Level b) 5) 1));
   z2b (let tmp3 := Z.land (u8 (Z.shiftl (dovi.Level b) 3)) 248 in
        let tmp3 := if dovi.RPUPresent b then Z.lor tmp3 4 else tmp3 in
        let tmp3 := if dovi.ELPresent b then Z.lor tmp3 2 else tmp3 in
        if dovi.BLPresent b then Z.lor tmp3 1 else tmp3);
   z2b (u8 (Z.shiftl (dovi.BLSignalCompatibilityID b) 4))]
  ++ repeat x00 19.

(** ** Lengths, without wrap-around *)

(** The sum of the lengths of the byte slices of a slice. *)
Definition payload_len (units : list (list byte)) : Z :=
  fold_right (fun u acc => len u + acc) 0 units.

(** The number of bytes of [len(units)] length-prefixed units. *)
Definition units_len (units : list (list byte)) : Z :=
  2 * len units + payload_len units.

(** ** Checking a property of small integers by running through them *)

(** [all_below n P]: [P] holds of [0], ..., [n-1]. *)
Fixpoint all_below (n : nat) (P : Z -> bool) : bool :=
  match n with
  | O => true
  | S n' => P (Z.of_nat n') && all_below n' P
  end.

(** ** Records within the declared widths of their fields *)

(** Every NAL unit of the slice fits a 16-bit length. *)
Definition avc_units_ok (s : list avc.AVCParameterSet) : Prop :=
  Forall (fun e => len (avc.NALUnit e) < 65536) s.

(** An AVC record whose fields fit the widths they have on the wire: the
    four header bytes, the 2-bit length size, a 5-bit SPS count, an
    8-bit PPS count, 16-bit NAL unit lengths and, for the profiles that
    carry the extension section, the 2-bit chroma format, the 3-bit bit
    depths and an 8-bit SPS-extension count. *)
Definition avc_in_range (b : avc.AVCDecoderConfigurationRecord) : Prop :=
  0 <= avc.ConfigurationVersion b < 256 /\
  0 <= avc.AVCProfileIndication b < 256 /\
  0 <= avc.ProfileCompatibility b < 256 /\
  0 <= avc.AVCLevelIndication b < 256 /\
  0 <= avc.LengthSizeMinusOne b < 4 /\
  len (avc.SequenceParameterSets b) < 32 /\
  avc_units_ok (avc.SequenceParameterSets b) /\
  len (avc.PictureParameterSets b) < 256 /\
  avc_units_ok (avc.PictureParameterSets b) /\
  (avc.has_ext (avc.AVCProfileIndication b) = true ->
   0 <= avc.ChromaFormat b < 4 /\
   0 <= avc.BitDepthLumaMinus8 b < 8 /\
   0 <= avc.BitDepthChromaMinus8 b < 8 /\
   len (avc.SequenceParameterSetExts b) < 256 /\
   avc_units_ok (avc.SequenceParameterSetExts b)).

(** What decoding the encoding of [b] into the receiver [b0] gives: [b],
    with the four fields of the extension section left as they were in
    [b0] when the profile does not carry the section. *)
Definition avc_decoded_into (b0 b : avc.AVCDecoderConfigurationRecord)
  : avc.AVCDecoderConfigurationRecord :=
  if avc.has_ext (avc.AVCProfileIndication b) then b
  else {|
    avc.ConfigurationVersion := avc.ConfigurationVersion b;
    avc.AVCProfileIndication := avc.AVCProfileIndication b;
    avc.ProfileCompatibility := avc.ProfileCompatibility b;
    avc.AVCLevelIndication := avc.AVCLevelIndication b;
    avc.LengthSizeMinusOne := avc.LengthSizeMinusOne b;
    avc.SequenceParameterSets := avc.SequenceParameterSets b;
    avc.PictureParameterSets := avc.PictureParameterSets b;
    avc.ChromaFormat := avc.ChromaFormat b0;
    avc.BitDepthLumaMinus8 := avc.BitDepthLumaMinus8 b0;
    avc.BitDepthChromaMinus8 := avc.BitDepthChromaMinus8 b0;
    avc.SequenceParameterSetExts := avc.SequenceParameterSetExts b0
  |}.

(** ** Decoded records *)

(** The fields of an HEVC record that are narrower on the wire than in
    the struct are within their wire widths, and no NAL array has more
    NAL units than the 12-bit count allows. *)
Definition hevc_widths (b : hevc.HEVCDecoderConfigurationRecord) : Prop :=
  0 <= hevc.GeneralProfileSpace b < 4 /\
  0 <= hevc.GenertalProfileIndicator b < 32 /\
  0 <= hevc.GeneralConstraintIndicatorFlags b < 2 ^ 48 /\
  0 <= hevc.MinSpatialSegmentationIndicator b < 2 ^ 12 /\
  0 <= hevc.ParallelismType b < 4 /\
  0 <= hevc.ChromaFormatIndicator b < 4 /\
  0 <= hevc.BitDepthLumaMinus8 b < 8 /\
  0 <= hevc.BitDepthChromaMinus8 b < 8 /\
  0 <= hevc.LengthSizeMinusOne b < 4 /\
  Forall (fun a => len (hevc.NALUs a) <= 4095) (hevc.NaluArrays b).

(** The same for an AVC record. *)
Definition avc_widths (b : avc.AVCDecoderConfigurationRecord) : Prop :=
  0 <= avc.LengthSizeMinusOne b < 4 /\
  len (avc.SequenceParameterSets b) <= 31 /\
  0 <= avc.ChromaFormat b < 4 /\
  0 <= avc.BitDepthLumaMinus8 b < 8 /\
  0 <= avc.BitDepthChromaMinus8 b < 8.

(** A NAL array whose fields fit the widths they have on the wire: a
    6-bit type tag, a 12-bit NAL unit count, 16-bit NAL unit lengths. *)
Definition hevc_array_ok (a : hevc.NaluArray) : Prop :=
  0 <= hevc.NALUnitType a < 64 /\
  len (hevc.NALUs a) < 4096 /\
  Forall (fun u => len u < 65536) (hevc.NALUs a).

(** An HEVC record whose fields fit the widths they have on the wire. *)
Definition hevc_in_range (b : hevc.HEVCDecoderConfigurationRecord) : Prop :=
  0 <= hevc.ConfigurationVersion b < 256 /\
  0 <= hevc.GeneralProfileSpace b < 4 /\
  0 <= hevc.GenertalProfileIndicator b < 32 /\
  0 <= hevc.GeneralProfileCompatibilityFlags b < 2 ^ 32 /\
  0 <= hevc.GeneralConstraintIndicatorFlags b < 2 ^ 48 /\
  0 <= hevc.GeneralLevelIndicator b < 256 /\
  0 <= hevc.MinSpatialSegmentationIndicator b < 4096 /\
  0 <= hevc.ParallelismType b < 4 /\
  0 <= hevc.ChromaFormatIndicator b < 4 /\
  0 <= hevc.BitDepthLumaMinus8 b < 8 /\
  0 <= hevc.BitDepthChromaMinus8 b < 8 /\
  0 <= hevc.AvgFrameRate b < 65536 /\
  0 <= hevc.ConstantFrameRate b < 4 /\
  0 <= hevc.NumTemporalLayers b < 8 /\
  0 <= hevc.TemporalIDNested b < 2 /\
  0 <= hevc.LengthSizeMinusOne b < 4 /\
  len (hevc.NaluArrays b) < 256 /\
  Forall hevc_array_ok (hevc.NaluArrays b).

(** What decoding the encoding of an in-range HEVC record [b] gives: the
    tier flag is lost into bit 4 of the profile indicator, and the
    parallelism type, the chroma format and the two bit depths come back
    as all ones. *)
Definition hevc_decoded (b : hevc.HEVCDecoderConfigurationRecord)
  : hevc.HEVCDecoderConfigurationRecord := {|
  hevc.ConfigurationVersion := hevc.ConfigurationVersion b;
  hevc.GeneralProfileSpace := hevc.GeneralProfileSpace b;
  hevc.GeneralTierFlag := false;
  hevc.GenertalProfileIndicator :=
    if hevc.GeneralTierFlag b then Z.lor (hevc.GenertalProfileIndicator b) 16
    else hevc.GenertalProfileIndicator b;
  hevc.GeneralProfileCompatibilityFlags := hevc.GeneralProfileCompatibilityFlags b;
  hevc.GeneralConstraintIndicatorFlags := hevc.GeneralConstraintIndicatorFlags b;
  hevc.GeneralLevelIndicator := hevc.GeneralLevelIndicator b;
  hevc.MinSpatialSegmentationIndicator := hevc.MinSpatialSegmentationIndicator b;
  hevc.ParallelismType := 3;
  hevc.ChromaFormatIndicator := 3;
  hevc.BitDepthLumaMinus8 := 7;
  hevc.BitDepthChromaMinus8 := 7;
  hevc.AvgFrameRate := hevc.AvgFrameRate b;
  hevc.ConstantFrameRate := hevc.ConstantFrameRate b;
  hevc.NumTemporalLayers := hevc.NumTemporalLayers b;
  hevc.TemporalIDNested := hevc.TemporalIDNested b;
  hevc.LengthSizeMinusOne := hevc.LengthSizeMinusOne b;
  hevc.NaluArrays := hevc.NaluArrays b
|}.

(** A Dolby Vision record whose fields fit the widths they have on the
    wire: two version bytes, a 7-bit profile, a 6-bit level and a 4-bit
    compatibility id. *)
Definition dovi_in_range (b : dovi.DOVIDecoderConfigurationRecord) : Prop :=
  0 <= dovi.VersionMajor b < 256 /\
  0 <= dovi.VersionMinor b < 256 /\
  0 <= dovi.Profile b < 128 /\
  0 <= dovi.Level b < 64 /\
  0 <= dovi.BLSignalCompatibilityID b < 16.

(** Bytes 2 and 3 of the Dolby Vision record as [RecordWrite] builds
    them. *)
Definition dovi_byte2 (profile level : Z) : Z :=
  u8 (Z.lor (u8 (Z.shiftl profile 1)) (Z.land (Z.shiftr level 5) 1)).

Definition dovi_byte3 (level : Z) (rpu el bl : bool) : Z :=
  u8 (let tmp3 := Z.land (u8 (Z.shiftl level 3)) 248 in
      let tmp3 := if rpu then Z.lor tmp3 4 else tmp3 in
      let tmp3 := if el then Z.lor tmp3 2 else tmp3 in
      if bl then Z.lor tmp3 1 else tmp3).

(** The check that bytes 2 and 3 give back profile, level and flags. *)
Definition dovi_bytes_check (profile level : Z) : bool :=
  forallb (fun rpu => forallb (fun el => forallb (fun bl =>
    let t2 := dovi_byte2 profile level in
    let t3 := dovi_byte3 level rpu el bl in
    (Z.shiftr t2 1 =? profile)
    && (Z.lor (u8 (Z.shiftl (Z.land t2 1) 5)) (Z.shiftr (Z.land t3 248) 3) =? level)
    && Bool.eqb (0 <? Z.land t3 4) rpu
    && Bool.eqb (0 <? Z.land t3 2) el
    && Bool.eqb (0 <? Z.land t3 1) bl)
    [true; false]) [true; false]) [true; false].

(** ** Records and sources used as examples *)

(** A sink with room for [n] bytes that has taken nothing yet. *)
Definition sink (n : N) : io.Writer := io.mkWriter [] n.

(** An HEVC record with every field within its width: main tier set,
    profile 1, level 93, four-byte NAL lengths, no NAL arrays. *)
Definition hevc_high_tier : hevc.HEVCDecoderConfigurationRecord := {|
  hevc.ConfigurationVersion := 1;
  hevc.GeneralProfileSpace := 0;
  hevc.GeneralTierFlag := true;
  hevc.GenertalProfileIndicator := 1;
  hevc.GeneralProfileCompatibilityFlags := 0;
  hevc.GeneralConstraintIndicatorFlags := 0;
  hevc.GeneralLevelIndicator := 93;
  hevc.MinSpatialSegmentationIndicator := 0;
  hevc.ParallelismType := 0;
  hevc.ChromaFormatIndicator := 1;
  hevc.BitDepthLumaMinus8 := 2;
  hevc.BitDepthChromaMinus8 := 2;
  hevc.AvgFrameRate := 0;
  hevc.ConstantFrameRate := 0;
  hevc.NumTemporalLayers := 0;
  hevc.TemporalIDNested := 0;
  hevc.LengthSizeMinusOne := 3;
  hevc.NaluArrays := []
|}.

(** The record of the spec's scenario A, for given type tags and NAL
    unit payloads. *)
Definition hevc_scenario_A (vps_type sps_type pps_type : hevc.NaluType)
           (vps sps pps : list byte) : hevc.HEVCDecoderConfigurationRecord := {|
  hevc.ConfigurationVersion := 1;
  hevc.GeneralProfileSpace := 0;
  hevc.GeneralTierFlag := false;
  hevc.GenertalProfileIndicator := 1;
  hevc.GeneralProfileCompatibilityFlags := 0x60000000;
  hevc.GeneralConstraintIndicatorFlags := 0xB00050F00000;
  hevc.GeneralLevelIndicator := 93;
  hevc.MinSpatialSegmentationIndicator := 0;
  hevc.ParallelismType := 0;
  hevc.ChromaFormatIndicator := 0;
  hevc.BitDepthLumaMinus8 := 0;
  hevc.BitDepthChromaMinus8 := 0;
  hevc.AvgFrameRate := 0;
  hevc.ConstantFrameRate := 0;
  hevc.NumTemporalLayers := 0;
  hevc.TemporalIDNested := 0;
  hevc.LengthSizeMinusOne := 3;
  hevc.NaluArrays :=
    [ {| hevc.ArrayCompleteness := true; hevc.NALUnitType := vps_type; hevc.NALUs := [vps] |};
      {| hevc.ArrayCompleteness := true; hevc.NALUnitType := sps_type; hevc.NALUs := [sps] |};
      {| hevc.ArrayCompleteness := true; hevc.NALUnitType := pps_type; hevc.NALUs := [pps] |} ]
|}.

(** An HEVC record with one NAL array that holds the single NAL unit
    [nalu]. *)
Definition hevc_one_nalu (nalu : list byte) : hevc.HEVCDecoderConfigurationRecord :=
  hevc.set_NaluArrays
    [ {| hevc.ArrayCompleteness := true; hevc.NALUnitType := 33; hevc.NALUs := [nalu] |} ]
    hevc_high_tier.

(** An HEVC record with every field within its width whose encoding is
    longer than [2^32] bytes: 17 NAL arrays of 4095 NAL units of 65535
    bytes. *)
Definition hevc_huge : hevc.HEVCDecoderConfigurationRecord :=
  hevc.set_NaluArrays
    (repeat {| hevc.ArrayCompleteness := true;
               hevc.NALUnitType := 32;
               hevc.NALUs := repeat (repeat x00 (Z.to_nat 65535)) (Z.to_nat 4095) |}
            17)
    hevc.zero.

(** An AVC record with [n] empty sequence parameter sets. *)
Definition avc_many_sps (n : nat) : avc.AVCDecoderConfigurationRecord :=
  avc.set_SequenceParameterSets (repeat avc.zero_set n) avc.zero.

(** An AVC baseline-profile record (profile 66) whose extension fields
    are nevertheless set. *)
Definition avc_baseline : avc.AVCDecoderConfigurationRecord := {|
  avc.ConfigurationVersion := 1;
  avc.AVCProfileIndication := 66;
  avc.ProfileCompatibility := 192;
  avc.AVCLevelIndication := 30;
  avc.LengthSizeMinusOne := 3;
  avc.SequenceParameterSets := [ {| avc.NALUnit := [x67; x42; xc0; x1e] |} ];
  avc.PictureParameterSets := [ {| avc.NALUnit := [x68; xce] |} ];
  avc.ChromaFormat := 1;
  avc.BitDepthLumaMinus8 := 2;
  avc.BitDepthChromaMinus8 := 2;
  avc.SequenceParameterSetExts := [ {| avc.NALUnit := [x6d] |} ]
|}.

(** An AVC high-profile record (profile 100) without SPS extensions. *)
Definition avc_high : avc.AVCDecoderConfigurationRecord := {|
  avc.ConfigurationVersion := 1;
  avc.AVCProfileIndication := 100;
  avc.ProfileCompatibility := 0;
  avc.AVCLevelIndication := 31;
  avc.LengthSizeMinusOne := 3;
  avc.SequenceParameterSets := [ {| avc.NALUnit := [x67; x64; x00; x1f] |} ];
  avc.PictureParameterSets := [ {| avc.NALUnit := [x68; xee] |} ];
  avc.ChromaFormat := 1;
  avc.BitDepthLumaMinus8 := 0;
  avc.BitDepthChromaMinus8 := 0;
  avc.SequenceParameterSetExts := []
|}.

(** An AVC source that announces one SPS of four bytes and ends after
    the first of them, and the receiver that decoding it leaves. *)
Definition avc_cut_source : list byte :=
  [x01; x42; x00; x1e; xff; xe1; x00; x04; xaa].

Definition avc_cut_receiver : avc.AVCDecoderConfigurationRecord := {|
  avc.ConfigurationVersion := 1;
  avc.AVCProfileIndication := 66;
  avc.ProfileCompatibility := 0;
  avc.AVCLevelIndication := 30;
  avc.LengthSizeMinusOne := 3;
  avc.SequenceParameterSets := [ {| avc.NALUnit := [xaa; x00; x00; x00] |} ];
  avc.PictureParameterSets := [];
  avc.ChromaFormat := 0;
  avc.BitDepthLumaMinus8 := 0;
  avc.BitDepthChromaMinus8 := 0;
  avc.SequenceParameterSetExts := []
|}.

(** The record of the spec's scenario B. *)
Definition dovi_scenario_B : dovi.DOVIDecoderConfigurationRecord := {|
  dovi.VersionMajor := 1;
  dovi.VersionMinor := 0;
  dovi.Profile := 5;
  dovi.Level := 3;
  dovi.RPUPresent := true;
  dovi.ELPresent := false;
  dovi.BLPresent := true;
  dovi.BLSignalCompatibilityID := 2
|}.

(** ** What a failed decode leaves in the receiver *)

(** The receiver holds the fields of the fixed AVC header decoded from
    the first six bytes of [r], and a slice for the announced number of
    sequence parameter sets. *)
Definition avc_header_kept (r : list byte) (b : avc.AVCDecoderConfigurationRecord) : Prop :=
  avc.ConfigurationVersion b = r@0 /\
  avc.AVCProfileIndication b = r@1 /\
  avc.ProfileCompatibility b = r@2 /\
  avc.AVCLevelIndication b = r@3 /\
  avc.LengthSizeMinusOne b = Z.land r@4 3 /\
  len (avc.SequenceParameterSets b) = Z.land r@5 31.

(** The receiver holds the version, level and length-size fields of the
    fixed HEVC header decoded from the first 23 bytes of [r], and a
    slice for the announced number of NAL arrays. *)
Definition hevc_header_kept (r : list byte) (b : hevc.HEVCDecoderConfigurationRecord) : Prop :=
  hevc.ConfigurationVersion b = r@0 /\
  hevc.GeneralLevelIndicator b = r@12 /\
  hevc.LengthSizeMinusOne b = Z.land r@21 3 /\
  len (hevc.NaluArrays b) = r@22.

(** The first 30 bytes of the encoding of a scenario A record: the fixed
    header, the head of the first NAL array and two of the five bytes of
    its NAL unit. *)
Definition hevc_cut_source : list byte :=
  firstn 30 (hevc_wire (hevc_scenario_A 32 33 34 (repeat x40 5) (repeat x42 20) (repeat x44 10))).

(** ** Counts over the NAL arrays of an HEVC record *)

(** The number of NAL units in all arrays, and the number of bytes in
    all NAL units. *)
Definition hevc_nalu_total (s : list hevc.NaluArray) : Z :=
  fold_right (fun e acc => len (hevc.NALUs e) + acc) 0 s.

Definition hevc_payload_total (s : list hevc.NaluArray) : Z :=
  fold_right (fun e acc => payload_len (hevc.NALUs e) + acc) 0 s.

(** ** Dolby Vision records as decoding gives them back *)

(** A Dolby Vision record whose fields are values of their Go type
    [uint8]. *)
Definition dovi_bytes (b : dovi.DOVIDecoderConfigurationRecord) : Prop :=
  0 <= dovi.VersionMajor b < 256 /\
  0 <= dovi.VersionMinor b < 256 /\
  0 <= dovi.Profile b < 256 /\
  0 <= dovi.Level b < 256 /\
  0 <= dovi.BLSignalCompatibilityID b < 256.

(** The record with the profile, the level and the compatibility id
    reduced to the 7, 6 and 4 bits they have on the wire. *)
Definition dovi_decoded (b : dovi.DOVIDecoderConfigurationRecord)
  : dovi.DOVIDecoderConfigurationRecord := {|
  dovi.VersionMajor := dovi.VersionMajor b;
  dovi.VersionMinor := dovi.VersionMinor b;
  dovi.Profile := dovi.Profile b mod 128;
  dovi.Level := dovi.Level b mod 64;
  dovi.RPUPresent := dovi.RPUPresent b;
  dovi.ELPresent := dovi.ELPresent b;
  dovi.BLPresent := dovi.BLPresent b;
  dovi.BLSignalCompatibilityID := dovi.BLSignalCompatibilityID b mod 16
|}.

(** ** Inputs of the record builder *)

(** A parsed SPS whose fields fit the widths they have in the record. *)
Definition sps_in_range (sps : hevc.SPS) : Prop :=
  0 <= hevc.PTL_GeneralProfileSpace (hevc.SPS_ProfileTierLevel sps) < 4 /\
  0 <= hevc.PTL_GeneralProfileIndicator (hevc.SPS_ProfileTierLevel sps) < 32 /\
  0 <= hevc.PTL_GeneralProfileCompatibilityFlags (hevc.SPS_ProfileTierLevel sps) < 2 ^ 32 /\
  0 <= hevc.PTL_GeneralConstraintIndicatorFlags (hevc.SPS_ProfileTierLevel sps) < 2 ^ 48 /\
  0 <= hevc.PTL_GeneralLevelIndicator (hevc.SPS_ProfileTierLevel sps) < 256 /\
  0 <= hevc.SPS_ChromaFormatIndicator sps < 4 /\
  0 <= hevc.SPS_BitDepthLumaMinus8 sps < 8 /\
  0 <= hevc.SPS_BitDepthChromaMinus8 sps < 8.

(** NAL units that fit one NAL array: fewer than 4096 of them, each
    shorter than 65536 bytes. *)
Definition units_in_range (units : list (list byte)) : Prop :=
  len units < 4096 /\ Forall (fun u => len u < 65536) units.

(** A parsed SPS and a parser used as examples: the parser rejects the
    empty NAL unit and returns [example_sps] for every other one. *)
Definition example_sps : hevc.SPS := {|
  hevc.SPS_ProfileTierLevel := {|
    hevc.PTL_GeneralProfileSpace := 0;
    hevc.PTL_GeneralTierFlag := false;
    hevc.PTL_GeneralProfileIndicator := 1;
    hevc.PTL_GeneralProfileCompatibilityFlags := 0x60000000;
    hevc.PTL_GeneralConstraintIndicatorFlags := 0xB00050F00000;
    hevc.PTL_GeneralLevelIndicator := 93
  |};
  hevc.SPS_ChromaFormatIndicator := 1;
  hevc.SPS_BitDepthLumaMinus8 := 0;
  hevc.SPS_BitDepthChromaMinus8 := 0
|}.

Definition example_parser (nal : list byte) : hevc.SPS * option unit :=
  (example_sps, match nal with [] => Some tt | _ :: _ => None end).

(** * Properties *)

(** ** Bytes *)

Lemma b2z_range (b : byte) : 0 <= b2z b < 256.
Proof.
  unfold b2z. pose proof (Byte.to_N_bounded b). lia.
Qed.

Lemma z2b_b2z (b : byte) : z2b (b2z b) = b.
Proof.
  unfold z2b, u8, b2z.
  rewrite Z.mod_small by (pose proof (Byte.to_N_bounded b); change (2 ^ 8) with 256; lia).
  rewrite N2Z.id, Byte.of_to_N. reflexivity.
Qed.

Lemma b2z_z2b (z : Z) : b2z (z2b z) = u8 z.
Proof.
  unfold z2b, b2z.
  assert (H : 0 <= u8 z < 256) by (unfold u8; apply Z.mod_pos_bound; reflexivity).
  destruct (Byte.of_N (Z.to_N (u8 z))) as [b|] eqn:E.
  - apply Byte.to_of_N in E. rewrite E. lia.
  - apply Byte.of_N_None_iff in E. lia.
Qed.

Lemma u8_small (z : Z) : 0 <= z < 256 -> u8 z = z.
Proof. intros H. unfold u8. apply Z.mod_small. change (2 ^ 8) with 256. lia. Qed.

Lemma u16_small (z : Z) : 0 <= z < 65536 -> u16 z = z.
Proof. intros H. unfold u16. apply Z.mod_small. change (2 ^ 16) with 65536. lia. Qed.

Lemma b2z_z2b_small (z : Z) : 0 <= z < 256 -> b2z (z2b z) = z.
Proof. intros H. rewrite b2z_z2b. apply u8_small, H. Qed.

(** ** Lists *)

Lemma app_eq_app_cases {A : Type} (l1 l2 p q : list A) :
  l1 ++ l2 = p ++ q ->
  (exists l, l <> [] /\ l1 = p ++ l /\ q = l ++ l2) \/
  (exists l, p = l1 ++ l /\ l2 = l ++ q).
Proof.
  revert p. induction l1 as [|x l1 IH]; intros p H.
  - right. exists p. split; [reflexivity | exact H].
  - destruct p as [|y p].
    + left. exists (x :: l1). repeat split; [discriminate | symmetry; exact H].
    + simpl in H. injection H as -> H. destruct (IH _ H) as [(l & Hl & -> & ->) | (l & -> & ->)].
      * left. exists l. repeat split; assumption.
      * right. exists l. split; reflexivity.
Qed.

Lemma upd_app {A : Type} (f : A -> A) (l1 : list A) (x : A) (l2 : list A) :
  upd (length l1) f (l1 ++ x :: l2) = l1 ++ f x :: l2.
Proof. induction l1 as [|y l1 IH]; simpl; [reflexivity | now rewrite IH]. Qed.

Lemma upd_length {A : Type} (f : A -> A) (i : nat) (l : list A) :
  length (upd i f l) = length l.
Proof.
  revert i. induction l as [|x l IH]; intros [|i]; simpl; try reflexivity.
  now rewrite IH.
Qed.

Lemma len_app {A : Type} (l1 l2 : list A) : len (l1 ++ l2) = len l1 + len l2.
Proof. unfold len. rewrite length_app. lia. Qed.

Lemma len_nonneg {A : Type} (l : list A) : 0 <= len l.
Proof. unfold len. lia. Qed.

(** ** Writing: a sequence of writes is one write of the concatenation *)

Lemma Write_nil (w : io.Writer) : io.Write [] w = (Ok tt, w).
Proof.
  unfold io.Write. destruct w as [o n]. cbn [length io.room io.written N.of_nat].
  destruct (N.leb_spec 0 n) as [_|H]; [ | lia].
  rewrite app_nil_r, N.sub_0_r. reflexivity.
Qed.

Lemma emits_Write (p : list byte) : emits (io.Write p) p.
Proof. intros w. reflexivity. Qed.

Lemma emits_ret : emits (ret tt) [].
Proof. intros w. rewrite Write_nil. reflexivity. Qed.

Lemma emits_bind {m k : M io.Writer unit} {p q : list byte} :
  emits m p -> emits k q -> emits (bind m (fun _ => k)) (p ++ q).
Proof.
  intros Hm Hk w. unfold bind. rewrite Hm. unfold io.Write at 1.
  destruct (N.leb_spec (N.of_nat (length p)) (io.room w)) as [Hp|Hp].
  - rewrite Hk. unfold io.Write. cbn [io.room io.written].
    rewrite length_app.
    destruct (N.leb_spec (N.of_nat (length q)) (io.room w - N.of_nat (length p))) as [Hq|Hq];
      destruct (N.leb_spec (N.of_nat (length p + length q)) (io.room w)) as [Hpq|Hpq];
      try lia.
    + f_equal. f_equal; [now rewrite app_assoc | lia].
    + f_equal. f_equal. rewrite <- app_assoc. f_equal.
      rewrite firstn_app, (@firstn_all2 _ _ p) by lia. f_equal. f_equal. lia.
  - unfold io.Write. rewrite length_app.
    destruct (N.leb_spec (N.of_nat (length p + length q)) (io.room w)) as [Hpq|Hpq];
      try lia.
    f_equal. f_equal. f_equal.
    rewrite firstn_app.
    replace (N.to_nat (io.room w) - length p)%nat with O by lia.
    simpl. now rewrite app_nil_r.
Qed.

Lemma emits_for_each {A : Type} (body : A -> M io.Writer unit) (f : A -> list byte)
      (s : list A) :
  (forall x, emits (body x) (f x)) ->
  emits (for_each s body) (concat (map f s)).
Proof.
  intros H. induction s as [|x s IH]; simpl.
  - apply emits_ret.
  - apply emits_bind; [apply H | exact IH].
Qed.

Lemma emits_for_range_nth {A : Type} (body : A -> M io.Writer unit) (f : A -> list byte)
      (d : A) (done s : list A) :
  (forall x, emits (body x) (f x)) ->
  emits (for_range (length done) (length s) (fun i => body (nth i (done ++ s) d)))
        (concat (map f s)).
Proof.
  intros H. revert done. induction s as [|x s IH]; intros done; simpl.
  - apply emits_ret.
  - apply emits_bind.
    + rewrite nth_middle. apply H.
    + specialize (IH (done ++ [x])). rewrite length_app in IH. simpl in IH.
      rewrite <- app_assoc in IH. simpl in IH.
      replace (S (length done)) with (length done + 1)%nat by lia. exact IH.
Qed.

Lemma emits_success (m : M io.Writer unit) (p : list byte) (w w' : io.Writer) :
  emits m p -> m w = (Ok tt, w') ->
  io.written w' = io.written w ++ p /\
  (N.of_nat (length p) <= io.room w)%N /\
  io.room w' = (io.room w - N.of_nat (length p))%N.
Proof.
  intros Hm E. rewrite Hm in E. unfold io.Write in E.
  destruct (N.leb_spec (N.of_nat (length p)) (io.room w)) as [Hp|Hp].
  - injection E as <-. cbn. repeat split. exact Hp.
  - discriminate.
Qed.

Lemma emits_enough_room (m : M io.Writer unit) (p : list byte) (w : io.Writer) :
  emits m p -> (N.of_nat (length p) <= io.room w)%N ->
  m w = (Ok tt, io.mkWriter (io.written w ++ p) (io.room w - N.of_nat (length p))).
Proof.
  intros Hm Hp. rewrite Hm. unfold io.Write.
  destruct (N.leb_spec (N.of_nat (length p)) (io.room w)); [reflexivity | lia].
Qed.

Lemma emits_failure (m : M io.Writer unit) (p : list byte) (w w' : io.Writer) (e : error) :
  emits m p -> m w = (Err e, w') ->
  e = ErrShortWrite /\ (io.room w < N.of_nat (length p))%N.
Proof.
  intros Hm E. rewrite Hm in E. unfold io.Write in E.
  destruct (N.leb_spec (N.of_nat (length p)) (io.room w)) as [Hp|Hp].
  - discriminate.
  - injection E as <- _. split; [reflexivity | exact Hp].
Qed.

(** The encoders as one write of the wire format. *)

Lemma avc_write_sets_emits (s : list avc.AVCParameterSet) :
  emits (avc.write_sets s) (avc_wire_sets s).
Proof.
  unfold avc.write_sets, avc_wire_sets.
  apply (emits_for_range_nth
           (fun e => bind (binary.Write_uint16 (u16 (len (avc.NALUnit e))))
                          (fun _ => io.Write (avc.NALUnit e)))
           (fun e => wire_unit (avc.NALUnit e)) avc.zero_set [] s).
  intros x. apply emits_bind; apply emits_Write.
Qed.

Lemma avc_RecordWrite_emits (b : avc.AVCDecoderConfigurationRecord) :
  emits (avc.RecordWrite b) (avc_wire b).
Proof.
  unfold avc.RecordWrite, avc_wire, avc_wire_base, avc_wire_ext.
  change [z2b (avc.ConfigurationVersion b); z2b (avc.AVCProfileIndication b);
          z2b (avc.ProfileCompatibility b); z2b (avc.AVCLevelIndication b);
          z2b (Z.lor (avc.LengthSizeMinusOne b) 252);
          z2b (Z.lor (u8 (len (avc.SequenceParameterSets b))) 224)]
    with ([z2b (avc.ConfigurationVersion b)] ++ [z2b (avc.AVCProfileIndication b)]
          ++ [z2b (avc.ProfileCompatibility b)] ++ [z2b (avc.AVCLevelIndication b)]
          ++ [z2b (Z.lor (avc.LengthSizeMinusOne b) 252)]
          ++ [z2b (Z.lor (u8 (len (avc.SequenceParameterSets b))) 224)]).
  repeat rewrite <- app_assoc.
  repeat (apply emits_bind; [first [apply emits_Write | apply avc_write_sets_emits] | ]).
  destruct (avc.has_ext (avc.AVCProfileIndication b)).
  - change [z2b (Z.lor (avc.ChromaFormat b) 252);
            z2b (Z.lor (avc.BitDepthLumaMinus8 b) 248);
            z2b (Z.lor (avc.BitDepthChromaMinus8 b) 248);
            z2b (u8 (len (avc.SequenceParameterSetExts b)))]
      with ([z2b (Z.lor (avc.ChromaFormat b) 252)]
            ++ [z2b (Z.lor (avc.BitDepthLumaMinus8 b) 248)]
            ++ [z2b (Z.lor (avc.BitDepthChromaMinus8 b) 248)]
            ++ [z2b (u8 (len (avc.SequenceParameterSetExts b)))]).
    repeat rewrite <- app_assoc.
    repeat (apply emits_bind; [apply emits_Write | ]).
    apply avc_write_sets_emits.
  - apply emits_ret.
Qed.

Lemma hevc_write_array_emits (entry : hevc.NaluArray) :
  emits (hevc.write_array entry) (hevc_wire_array entry).
Proof.
  unfold hevc.write_array, hevc_wire_array.
  repeat (apply emits_bind; [apply emits_Write | ]).
  apply emits_for_each. intros x. apply emits_bind; apply emits_Write.
Qed.

Lemma hevc_RecordWrite_emits (b : hevc.HEVCDecoderConfigurationRecord) :
  emits (hevc.RecordWrite b) (hevc_wire b).
Proof.
  unfold hevc.RecordWrite, hevc_wire, hevc_wire_header.
  unfold binary.Write_uint8, binary.Write_uint16, binary.Write_uint32.
  unfold binary.PutUint32, binary.PutUint16.
  cbv zeta. cbn [app].
  apply (emits_bind (p := [_])); [apply emits_Write | ].
  apply (emits_bind (p := [_])); [apply emits_Write | ].
  apply (emits_bind (p := [_; _; _; _])); [apply emits_Write | ].
  apply (emits_bind (p := [_; _])); [apply emits_Write | ].
  apply (emits_bind (p := [_; _; _; _])); [apply emits_Write | ].
  apply (emits_bind (p := [_])); [apply emits_Write | ].
  apply (emits_bind (p := [_; _])); [apply emits_Write | ].
  apply (emits_bind (p := [_])); [apply emits_Write | ].
  apply (emits_bind (p := [_])); [apply emits_Write | ].
  apply (emits_bind (p := [_])); [apply emits_Write | ].
  apply (emits_bind (p := [_])); [apply emits_Write | ].
  apply (emits_bind (p := [_; _])); [apply emits_Write | ].
  apply (emits_bind (p := [_])); [apply emits_Write | ].
  apply (emits_bind (p := [_])); [apply emits_Write | ].
  apply emits_for_each. apply hevc_write_array_emits.
Qed.

Lemma dovi_RecordWrite_emits (b : dovi.DOVIDecoderConfigurationRecord) :
  emits (dovi.RecordWrite b) (dovi_wire b).
Proof. intros w. reflexivity. Qed.

(** ** Sizes *)

Lemma u32_add_l (a b : Z) : u32 (u32 a + b) = u32 (a + b).
Proof. unfold u32. apply Zplus_mod_idemp_l. Qed.

Lemma u32_add_r (a b : Z) : u32 (a + u32 b) = u32 (a + b).
Proof. unfold u32. apply Zplus_mod_idemp_r. Qed.

Lemma u32_mul_r (a b : Z) : u32 (a * u32 b) = u32 (a * b).
Proof. unfold u32. apply Zmult_mod_idemp_r. Qed.

Lemma u32_u32 (a : Z) : u32 (u32 a) = u32 a.
Proof. unfold u32. apply Zmod_mod. Qed.

Lemma u32_small (z : Z) : 0 <= z < 4294967296 -> u32 z = z.
Proof. intros H. unfold u32. apply Z.mod_small. change (2 ^ 32) with 4294967296. lia. Qed.

Lemma len_cons {A : Type} (x : A) (l : list A) : len (x :: l) = 1 + len l.
Proof. unfold len. cbn [length]. lia. Qed.

Lemma len_nil (A : Type) : len (@nil A) = 0.
Proof. reflexivity. Qed.

Lemma len_wire_unit (u : list byte) : len (wire_unit u) = 2 + len u.
Proof.
  unfold wire_unit, binary.PutUint16. rewrite len_app, !len_cons, len_nil. lia.
Qed.

Lemma payload_len_cons (u : list byte) (units : list (list byte)) :
  payload_len (u :: units) = len u + payload_len units.
Proof. reflexivity. Qed.

Lemma len_wire_units (units : list (list byte)) :
  len (concat (map wire_unit units)) = units_len units.
Proof.
  unfold units_len. induction units as [|u units IH]; cbn [map concat].
  - reflexivity.
  - rewrite len_app, len_wire_unit, IH, len_cons, payload_len_cons. lia.
Qed.

Lemma len_avc_wire_sets (s : list avc.AVCParameterSet) :
  len (avc_wire_sets s) = units_len (map avc.NALUnit s).
Proof.
  unfold avc_wire_sets. rewrite <- len_wire_units, map_map. reflexivity.
Qed.

Lemma avc_add_sets_exact (s : list avc.AVCParameterSet) (acc : Z) :
  avc.add_sets (u32 acc) s = u32 (acc + len (avc_wire_sets s)).
Proof.
  unfold avc.add_sets, avc_wire_sets. revert acc.
  induction s as [|e s IH]; intros acc; cbn [fold_left map concat].
  - rewrite len_nil. f_equal. lia.
  - rewrite u32_add_l, u32_add_r, Z.add_assoc, u32_add_r, IH, len_app, len_wire_unit.
    f_equal. lia.
Qed.

Lemma avc_RecordSize_exact (b : avc.AVCDecoderConfigurationRecord) :
  avc.RecordSize b = u32 (len (avc_wire b)).
Proof.
  unfold avc.RecordSize, avc_wire, avc_wire_base, avc_wire_ext.
  rewrite (avc_add_sets_exact (avc.SequenceParameterSets b)), u32_add_l,
    (avc_add_sets_exact (avc.PictureParameterSets b)).
  destruct (avc.has_ext (avc.AVCProfileIndication b)).
  - rewrite u32_add_l, avc_add_sets_exact. f_equal.
    rewrite !len_app, !len_cons, !len_nil. lia.
  - f_equal. rewrite !len_app, !len_cons, !len_nil. lia.
Qed.

Lemma hevc_size_nalus (units : list (list byte)) (acc : Z) :
  fold_left (fun size nalu => u32 (size + u32 (len nalu))) units (u32 acc)
  = u32 (acc + payload_len units).
Proof.
  revert acc. induction units as [|u units IH]; intros acc; cbn [fold_left].
  - f_equal. change (payload_len []) with 0. lia.
  - rewrite u32_add_l, u32_add_r, IH, payload_len_cons. f_equal. lia.
Qed.

Lemma len_hevc_wire_array (entry : hevc.NaluArray) :
  len (hevc_wire_array entry) = 3 + units_len (hevc.NALUs entry).
Proof.
  unfold hevc_wire_array, binary.PutUint16.
  rewrite !len_app, len_wire_units, !len_cons, !len_nil. lia.
Qed.

Lemma hevc_size_arrays (s : list hevc.NaluArray) (size count : Z) :
  fold_left hevc.size_step s (u32 size, u32 count)
  = (u32 (size + fold_right (fun e acc => payload_len (hevc.NALUs e) + acc) 0 s),
     u32 (count + fold_right (fun e acc => len (hevc.NALUs e) + acc) 0 s)).
Proof.
  revert size count. induction s as [|e s IH]; intros size count;
    cbn [fold_left fold_right hevc.size_step].
  - f_equal; f_equal; lia.
  - rewrite u32_add_l, u32_add_r, hevc_size_nalus, IH. f_equal; f_equal; lia.
Qed.

Lemma len_hevc_wire_arrays (s : list hevc.NaluArray) :
  len (hevc_wire_arrays s)
  = 3 * len s
    + fold_right (fun e acc => payload_len (hevc.NALUs e) + acc) 0 s
    + 2 * fold_right (fun e acc => len (hevc.NALUs e) + acc) 0 s.
Proof.
  unfold hevc_wire_arrays. induction s as [|e s IH]; cbn [map concat fold_right].
  - reflexivity.
  - rewrite len_app, len_hevc_wire_array, IH, len_cons. unfold units_len. lia.
Qed.

Lemma len_hevc_wire_header (b : hevc.HEVCDecoderConfigurationRecord) :
  len (hevc_wire_header b) = 23.
Proof. reflexivity. Qed.

Lemma hevc_RecordSize_exact (b : hevc.HEVCDecoderConfigurationRecord) :
  hevc.RecordSize b = u32 (len (hevc_wire b)).
Proof.
  unfold hevc.RecordSize, hevc_wire.
  change (fold_left hevc.size_step (hevc.NaluArrays b)
            (u32 (u32 (0 + 23) + u32 (3 * u32 (len (hevc.NaluArrays b)))), 0))
    with (fold_left hevc.size_step (hevc.NaluArrays b)
            (u32 (u32 (0 + 23) + u32 (3 * u32 (len (hevc.NaluArrays b)))), u32 0)).
  rewrite hevc_size_arrays.
  rewrite len_app, len_hevc_wire_header, len_hevc_wire_arrays.
  unfold u32. change (2 ^ 32) with 4294967296.
  Z.div_mod_to_equations. lia.
Qed.

Lemma dovi_RecordSize_exact (b : dovi.DOVIDecoderConfigurationRecord) :
  dovi.RecordSize b = len (dovi_wire b).
Proof. reflexivity. Qed.

(** ** Reading *)

Lemma ReadFull_enough (buf : list byte) (r : io.Reader) :
  (length buf <= length r)%nat ->
  io.ReadFull buf r = (firstn (length buf) r, Ok tt, skipn (length buf) r).
Proof.
  intros H. unfold io.ReadFull.
  destruct (Nat.leb_spec (length buf) (length r)); [reflexivity | lia].
Qed.

Lemma ReadFull_exact (buf c : list byte) (rest : io.Reader) :
  length c = length buf ->
  io.ReadFull buf (c ++ rest) = (c, Ok tt, rest).
Proof.
  intros H. rewrite ReadFull_enough by (rewrite length_app; lia).
  rewrite <- H, firstn_app, firstn_all, Nat.sub_diag, skipn_app, skipn_all, Nat.sub_diag.
  cbn [firstn skipn app]. now rewrite app_nil_r.
Qed.

Lemma ReadFull_short (buf : list byte) (r : io.Reader) :
  (length r < length buf)%nat ->
  exists e, truncated e /\
            io.ReadFull buf r = (r ++ skipn (length r) buf, Err e, []).
Proof.
  intros H. unfold io.ReadFull.
  destruct (Nat.leb_spec (length buf) (length r)); [lia | ].
  destruct r; eexists; (split; [ | reflexivity]); [left | right]; reflexivity.
Qed.

Section ReaderLemmas.
Context {B : Type}.
Implicit Types (b : B) (r c : list byte).

(** *** Exact reads *)

Lemma reads_ret {A : Type} (a : A) b : reads (ret a) b [] a b.
Proof. intros rest. reflexivity. Qed.

Lemma reads_bind {A A' : Type} (m : M (B * io.Reader) A) (k : A -> M (B * io.Reader) A')
      b c1 a b1 c2 a2 b2 :
  reads m b c1 a b1 -> reads (k a) b1 c2 a2 b2 ->
  reads (bind m k) b (c1 ++ c2) a2 b2.
Proof.
  intros Hm Hk rest. unfold bind. rewrite <- app_assoc, Hm. apply Hk.
Qed.

Lemma reads_assign (f : B -> B) b : reads (assign f) b [] tt (f b).
Proof. intros rest. reflexivity. Qed.

Lemma reads_load {A : Type} (f : B -> A) b : reads (load f) b [] (f b) b.
Proof. intros rest. reflexivity. Qed.

Lemma reads_Read (n : nat) b c :
  length c = n -> reads (binary.Read n) b c c b.
Proof.
  intros H rest. unfold binary.Read.
  rewrite ReadFull_exact by (now rewrite repeat_length). reflexivity.
Qed.

Lemma reads_ReadFull_into (get : B -> list byte) (set : list byte -> B -> B) b c :
  length c = length (get b) ->
  reads (ReadFull_into get set) b c tt (set c b).
Proof.
  intros H rest. unfold ReadFull_into. rewrite ReadFull_exact by exact H. reflexivity.
Qed.

(** *** Truncation *)

Lemma consumes_ret {A : Type} (a : A) : consumes (B := B) (ret a).
Proof.
  intros b r. cbn. exists []. repeat split.
  intros p q H Hq. symmetry in H. apply app_eq_nil in H. tauto.
Qed.

Lemma consumes_assign (f : B -> B) : consumes (assign f).
Proof.
  intros b r. cbn. exists []. repeat split.
  intros p q H Hq. symmetry in H. apply app_eq_nil in H. tauto.
Qed.

Lemma consumes_load {A : Type} (f : B -> A) : consumes (load f).
Proof.
  intros b r. cbn. exists []. repeat split.
  intros p q H Hq. symmetry in H. apply app_eq_nil in H. tauto.
Qed.

Lemma consumes_bind {A A' : Type} (m : M (B * io.Reader) A)
      (k : A -> M (B * io.Reader) A') :
  consumes m -> (forall a, consumes (k a)) -> consumes (bind m k).
Proof.
  intros Hm Hk b r. unfold bind. specialize (Hm b r).
  destruct (m (b, r)) as [[a|e] [b1 r1]].
  - destruct Hm as (c1 & -> & Hf1 & Ht1).
    pose proof (Hk a b1 r1) as Hk1.
    destruct (k a (b1, r1)) as [[a2|e2] [b2 r2]].
    + destruct Hk1 as (c2 & -> & Hf2 & Ht2).
      exists (c1 ++ c2). split; [now rewrite app_assoc | ]. split.
      * intros t. rewrite <- app_assoc, Hf1. apply Hf2.
      * intros p q H Hq.
        destruct (app_eq_app_cases _ _ _ _ H) as [(l & Hl & -> & ->) | (l & -> & ->)].
        -- destruct (Ht1 p l eq_refl Hl) as (e & b'' & E & He).
           exists e, b''. rewrite E. split; [reflexivity | exact He].
        -- rewrite Hf1. exact (Ht2 l q eq_refl Hq).
    + exact Hk1.
  - exact Hm.
Qed.

Lemma consumes_Read (n : nat) : consumes (B := B) (binary.Read n).
Proof.
  intros b r. unfold binary.Read.
  destruct (Nat.le_gt_cases n (length r)) as [H|H].
  - rewrite ReadFull_enough by (now rewrite repeat_length).
    rewrite repeat_length.
    exists (firstn n r). split; [now rewrite firstn_skipn | ]. split.
    + intros t. rewrite ReadFull_exact; [reflexivity | ].
      rewrite repeat_length, length_firstn. lia.
    + intros p q Hc Hq.
      assert (Hp : (length p < n)%nat).
      { apply (f_equal (@length byte)) in Hc.
        rewrite length_firstn, length_app in Hc.
        destruct q; [congruence | cbn in Hc; lia]. }
      destruct (ReadFull_short (repeat x00 n) p) as (e & He & E).
      { now rewrite repeat_length. }
      rewrite E. exists e, b. split; [reflexivity | exact He].
  - destruct (ReadFull_short (repeat x00 n) r) as (e & He & E).
    { now rewrite repeat_length. }
    rewrite E. split; [exact He | reflexivity].
Qed.

Lemma consumes_ReadFull_into (get : B -> list byte) (set : list byte -> B -> B) :
  consumes (ReadFull_into get set).
Proof.
  intros b r. unfold ReadFull_into.
  destruct (Nat.le_gt_cases (length (get b)) (length r)) as [H|H].
  - rewrite ReadFull_enough by exact H.
    exists (firstn (length (get b)) r). split; [now rewrite firstn_skipn | ]. split.
    + intros t. rewrite ReadFull_exact; [reflexivity | ].
      rewrite length_firstn. lia.
    + intros p q Hc Hq.
      assert (Hp : (length p < length (get b))%nat).
      { apply (f_equal (@length byte)) in Hc.
        rewrite length_firstn, length_app in Hc.
        destruct q; [congruence | cbn in Hc; lia]. }
      destruct (ReadFull_short (get b) p Hp) as (e & He & E).
      rewrite E. exists e. eexists. split; [reflexivity | exact He].
  - destruct (ReadFull_short (get b) r H) as (e & He & E).
    rewrite E. split; [exact He | reflexivity].
Qed.

Lemma consumes_for_range (body : nat -> M (B * io.Reader) unit) (n lo : nat) :
  (forall i, consumes (body i)) -> consumes (for_range lo n body).
Proof.
  intros H. revert lo. induction n as [|n IH]; intros lo; cbn [for_range].
  - apply consumes_ret.
  - apply consumes_bind; [apply H | intros _; apply IH].
Qed.

Lemma consumes_Read_uint16 : consumes (B := B) binary.Read_uint16.
Proof.
  apply consumes_bind; [apply consumes_Read | intros a; apply consumes_ret].
Qed.

Lemma consumes_Read_uint8 : consumes (B := B) binary.Read_uint8.
Proof.
  apply consumes_bind; [apply consumes_Read | intros a; apply consumes_ret].
Qed.

(** *** Invariants of the receiver *)

Lemma hoare_ret {A : Type} (a : A) (P : B -> Prop) : hoare P (ret a) P.
Proof. intros b r H. exact H. Qed.

Lemma hoare_bind {A A' : Type} (m : M (B * io.Reader) A)
      (k : A -> M (B * io.Reader) A') (P Q R : B -> Prop) :
  hoare P m Q -> (forall a, hoare Q (k a) R) -> (forall b, Q b -> R b) ->
  hoare P (bind m k) R.
Proof.
  intros Hm Hk HQR b r HP. unfold bind. specialize (Hm b r HP).
  destruct (m (b, r)) as [[a|e] [b1 r1]]; cbn in Hm.
  - apply Hk, Hm.
  - cbn. apply HQR, Hm.
Qed.

Lemma hoare_assign (f : B -> B) (P Q : B -> Prop) :
  (forall b, P b -> Q (f b)) -> hoare P (assign f) Q.
Proof. intros H b r HP. cbn. apply H, HP. Qed.

Lemma hoare_load {A : Type} (f : B -> A) (P : B -> Prop) : hoare P (load f) P.
Proof. intros b r HP. exact HP. Qed.

Lemma hoare_Read (n : nat) (P : B -> Prop) : hoare P (binary.Read n) P.
Proof.
  intros b r HP. unfold binary.Read.
  destruct (io.ReadFull (repeat x00 n) r) as [[bs [u|e]] r']; exact HP.
Qed.

Lemma hoare_ReadFull_into (get : B -> list byte) (set : list byte -> B -> B)
      (P Q : B -> Prop) :
  (forall buf b, P b -> Q (set buf b)) -> hoare P (ReadFull_into get set) Q.
Proof.
  intros H b r HP. unfold ReadFull_into.
  destruct (io.ReadFull (get b) r) as [[buf res] r']. cbn. apply H, HP.
Qed.

Lemma hoare_for_range (body : nat -> M (B * io.Reader) unit) (P : B -> Prop)
      (n lo : nat) :
  (forall i, hoare P (body i) P) -> hoare P (for_range lo n body) P.
Proof.
  intros H. revert lo. induction n as [|n IH]; intros lo; cbn [for_range].
  - apply hoare_ret.
  - eapply hoare_bind; [apply H | intros _; apply IH | auto].
Qed.

Lemma hoare_weaken {A : Type} (m : M (B * io.Reader) A) (P P' Q Q' : B -> Prop) :
  hoare P m Q -> (forall b, P' b -> P b) -> (forall b, Q b -> Q' b) ->
  hoare P' m Q'.
Proof. intros H HP HQ b r Hb. apply HQ, H, HP, Hb. Qed.

End ReaderLemmas.

(** *** The decoders stop with a truncation error on a source that ends early *)

Ltac consumes_steps :=
  repeat first
    [ apply consumes_Read_uint16
    | apply consumes_Read_uint8
    | apply consumes_Read
    | apply consumes_assign
    | apply consumes_load
    | apply consumes_ReadFull_into
    | apply consumes_ret
    | apply consumes_for_range; intros ?
    | apply consumes_bind; [ | intros ? ] ].

Lemma consumes_read_entry {B T : Type} (get : B -> list T) (set : list T -> B -> B)
      (unit_of : T -> list byte) (with_unit : list byte -> T -> T) (zeroT : T) (i : nat) :
  consumes (read_entry get set unit_of with_unit zeroT i).
Proof. unfold read_entry. consumes_steps. Qed.

Lemma consumes_read_entries {B T : Type} (get : B -> list T) (set : list T -> B -> B)
      (unit_of : T -> list byte) (with_unit : list byte -> T -> T) (zeroT : T) (count : Z) :
  consumes (read_entries get set unit_of with_unit zeroT count).
Proof.
  unfold read_entries. apply consumes_for_range. intros i. apply consumes_read_entry.
Qed.

Lemma avc_RecordRead_consumes : consumes avc.RecordRead.
Proof.
  unfold avc.RecordRead.
  repeat first
    [ apply consumes_read_entries
    | apply consumes_Read_uint8
    | apply consumes_Read
    | apply consumes_assign
    | apply consumes_load
    | apply consumes_bind; [ | intros ? ] ].
  destruct (avc.has_ext _).
  - repeat first
      [ apply consumes_read_entries
      | apply consumes_Read
      | apply consumes_assign
      | apply consumes_bind; [ | intros ? ] ].
  - apply consumes_ret.
Qed.

Lemma hevc_read_array_consumes (i : nat) : consumes (hevc.read_array i).
Proof.
  unfold hevc.read_array.
  repeat first
    [ apply consumes_read_entries
    | apply consumes_Read
    | apply consumes_assign
    | apply consumes_bind; [ | intros ? ] ].
Qed.

Lemma hevc_RecordRead_consumes : consumes hevc.RecordRead.
Proof.
  unfold hevc.RecordRead.
  apply consumes_bind; [apply consumes_Read | intros tmp].
  apply consumes_bind; [apply consumes_assign | intros _].
  apply consumes_for_range. apply hevc_read_array_consumes.
Qed.

Lemma consumes_cut {B : Type} (m : M (B * io.Reader) unit) :
  consumes m ->
  forall b r b' r', m (b, r) = (Ok tt, (b', r')) ->
  forall p q, r = p ++ q -> (length r' < length q)%nat ->
  exists e b'', m (b, p) = (Err e, (b'', [])) /\ truncated e.
Proof.
  intros Hm b r b' r' E p q Hr Hlen.
  specialize (Hm b r). rewrite E in Hm. destruct Hm as (c & Hc & _ & Ht).
  rewrite Hr in Hc.
  destruct (app_eq_app_cases _ _ _ _ Hc) as [(l & Hl & _ & Hq) | (l & Hp & Hq)].
  - apply (f_equal (@length byte)) in Hq. rewrite length_app in Hq. lia.
  - destruct l as [|x l].
    + cbn in Hq. subst q. lia.
    + apply (Ht p (x :: l)); [exact Hp | discriminate].
Qed.

(** ** Bit fields *)

Lemma all_below_spec (n : nat) (P : Z -> bool) :
  all_below n P = true -> forall z, 0 <= z < Z.of_nat n -> P z = true.
Proof.
  induction n as [|n IH]; intros H z Hz.
  - cbn in Hz. lia.
  - cbn [all_below] in H. apply andb_true_iff in H. destruct H as [H1 H2].
    destruct (Z.eq_dec z (Z.of_nat n)) as [->|Hne]; [exact H1 | ].
    apply IH; [exact H2 | lia].
Qed.

Lemma land_low_high (lo hi n : Z) :
  0 <= n -> 0 <= lo < 2 ^ n -> Z.land lo (Z.shiftl hi n) = 0.
Proof.
  intros Hn Hlo. apply Z.bits_inj'. intros m Hm.
  rewrite Z.land_spec, Z.bits_0.
  destruct (Z.lt_ge_cases m n) as [H|H].
  - rewrite (Z.shiftl_spec_low hi n m H). apply andb_false_r.
  - rewrite <- (Z.mod_small lo (2 ^ n)) by lia.
    rewrite Z.mod_pow2_bits_high by lia. reflexivity.
Qed.

Lemma lor_low_high (lo hi n : Z) :
  0 <= n -> 0 <= lo < 2 ^ n -> Z.lor lo (Z.shiftl hi n) = lo + hi * 2 ^ n.
Proof.
  intros Hn Hlo.
  rewrite <- Z.lxor_lor by (apply land_low_high; assumption).
  rewrite <- Z.add_nocarry_lxor by (apply land_low_high; assumption).
  now rewrite Z.shiftl_mul_pow2.
Qed.

Lemma at_range (t : list byte) (i : nat) : 0 <= t@i < 256.
Proof. apply b2z_range. Qed.

Lemma lor_range (n a b : Z) :
  0 <= n -> 0 <= a < 2 ^ n -> 0 <= b < 2 ^ n -> 0 <= Z.lor a b < 2 ^ n.
Proof.
  intros Hn Ha Hb. split.
  - apply Z.lor_nonneg. lia.
  - destruct (Z.eq_dec n 0) as [->|Hn0].
    { change (2 ^ 0) with 1 in *. replace a with 0 by lia. replace b with 0 by lia.
      reflexivity. }
    destruct (Z.eq_dec (Z.lor a b) 0) as [E|E]; [lia | ].
    apply Z.log2_lt_pow2; [pose proof (proj2 (Z.lor_nonneg a b)); lia | ].
    rewrite Z.log2_lor by lia.
    apply Z.max_lub_lt.
    + destruct (Z.eq_dec a 0) as [->|]; [cbn; lia | apply Z.log2_lt_pow2; lia].
    + destruct (Z.eq_dec b 0) as [->|]; [cbn; lia | apply Z.log2_lt_pow2; lia].
Qed.

Lemma byte_fact (P : Z -> bool) (x : Z) :
  all_below 256 P = true -> 0 <= x < 256 -> P x = true.
Proof. intros H Hx. apply (all_below_spec 256 P H). exact Hx. Qed.

Lemma shiftr6_range (x : Z) : 0 <= x < 256 -> 0 <= Z.shiftr x 6 < 4.
Proof.
  intros H.
  pose proof (byte_fact (fun x => (0 <=? Z.shiftr x 6) && (Z.shiftr x 6 <? 4)) x eq_refl H) as F.
  cbv beta in F. apply andb_true_iff in F. lia.
Qed.

Lemma lor_byte_range (x m : Z) : 0 <= x < 256 -> 0 <= m < 256 -> 0 <= Z.lor x m < 256.
Proof. intros Hx Hm. apply (lor_range 8); [lia | exact Hx | exact Hm]. Qed.

Lemma at_0 (x : byte) (l : list byte) : (x :: l)@0 = b2z x.
Proof. reflexivity. Qed.

Lemma at_S (x : byte) (l : list byte) (i : nat) : (x :: l)@(S i) = l@i.
Proof. reflexivity. Qed.

Lemma Uint16_PutUint16 (v : Z) :
  0 <= v < 65536 -> binary.Uint16 (binary.PutUint16 v) = v.
Proof.
  intros Hv. unfold binary.Uint16, binary.PutUint16.
  rewrite at_S, !at_0, !b2z_z2b.
  rewrite Z.shiftr_div_pow2 by lia. change (2 ^ 8) with 256.
  assert (Hq : 0 <= v / 256 < 256) by (split; [apply Z.div_pos | apply Z.div_lt_upper_bound]; lia).
  rewrite (u8_small (v / 256)) by exact Hq.
  rewrite u16_small by (rewrite Z.shiftl_mul_pow2 by lia; change (2 ^ 8) with 256; lia).
  rewrite lor_low_high; [ | lia | unfold u8; apply Z.mod_pos_bound; reflexivity].
  unfold u8. change (2 ^ 8) with 256.
  pose proof (Z.div_mod v 256). lia.
Qed.

Lemma reads_Read_uint16 {B : Type} (b : B) (v : Z) :
  0 <= v < 65536 -> reads binary.Read_uint16 b (binary.PutUint16 v) v b.
Proof.
  intros Hv. unfold binary.Read_uint16.
  rewrite <- (app_nil_r (binary.PutUint16 v)).
  eapply reads_bind; [apply reads_Read; reflexivity | ].
  rewrite Uint16_PutUint16 by exact Hv. apply reads_ret.
Qed.

Lemma reads_Read_uint8 {B : Type} (b : B) (v : Z) :
  0 <= v < 256 -> reads binary.Read_uint8 b [z2b v] v b.
Proof.
  intros Hv. unfold binary.Read_uint8.
  change [z2b v] with ([z2b v] ++ []).
  eapply reads_bind; [apply reads_Read; reflexivity | ].
  rewrite at_0, b2z_z2b_small by exact Hv. apply reads_ret.
Qed.

(** ** Reading back length-prefixed NAL units *)

Section EntriesRoundTrip.
Context {B T : Type}.
Variable get : B -> list T.
Variable set : list T -> B -> B.
Variable unit_of : T -> list byte.
Variable with_unit : list byte -> T -> T.
Variable zeroT : T.
(** [Inv] holds of the receivers in which the slice exists. *)
Variable Inv : B -> Prop.
Hypothesis Inv_set : forall v b, Inv b -> Inv (set v b).
Hypothesis get_set : forall v b, Inv b -> get (set v b) = v.
Hypothesis set_set : forall v v' b, set v (set v' b) = set v b.
Hypothesis set_get : forall b, set (get b) b = b.
Hypothesis unit_with : forall v t, unit_of (with_unit v t) = v.
Hypothesis with_unit_of : forall t t', with_unit (unit_of t) t' = t.

Lemma reads_read_entry (b : B) (done todo : list T) (t0 t : T) :
  Inv b ->
  get b = done ++ t0 :: todo ->
  len (unit_of t) < 65536 ->
  reads (read_entry get set unit_of with_unit zeroT (length done)) b
        (wire_unit (unit_of t)) tt (set (done ++ t :: todo) b).
Proof.
  intros HI Hget Hlen. unfold read_entry, wire_unit.
  assert (Hu : u16 (len (unit_of t)) = len (unit_of t)).
  { apply u16_small. pose proof (len_nonneg (unit_of t)). lia. }
  rewrite Hu.
  eapply reads_bind.
  { apply reads_Read_uint16. pose proof (len_nonneg (unit_of t)). lia. }
  change (unit_of t) with ([] ++ unit_of t) at 2.
  eapply reads_bind; [apply reads_assign | ].
  rewrite Hget, upd_app.
  set (b1 := set (done ++ with_unit (make x00 (len (unit_of t))) t0 :: todo) b).
  assert (Hb1 : set (upd (length done) (with_unit (unit_of t)) (get b1)) b1
                = set (done ++ t :: todo) b).
  { unfold b1. rewrite get_set, set_set, upd_app by exact HI.
    f_equal. f_equal. f_equal. apply with_unit_of. }
  rewrite <- Hb1.
  apply (reads_ReadFull_into
           (fun b => unit_of (nth (length done) (get b) zeroT))
           (fun buf b' => set (upd (length done) (with_unit buf) (get b')) b')
           b1 (unit_of t)).
  unfold b1. rewrite get_set, nth_middle, unit_with by exact HI. unfold make, len.
  now rewrite repeat_length, Nat2Z.id.
Qed.

Lemma reads_for_range_entries (ts : list T) :
  Forall (fun t => len (unit_of t) < 65536) ts ->
  forall (b : B) (done todo tail : list T),
  Inv b ->
  get b = done ++ todo ++ tail ->
  length todo = length ts ->
  reads (for_range (length done) (length ts)
                   (read_entry get set unit_of with_unit zeroT))
        b (concat (map (fun t => wire_unit (unit_of t)) ts)) tt
        (set (done ++ ts ++ tail) b).
Proof.
  induction 1 as [|t ts Ht Hts IH]; intros b done todo tail HI Hget Hlen.
  - destruct todo; [ | discriminate]. cbn [for_range map concat app] in *.
    rewrite <- Hget, set_get. apply reads_ret.
  - destruct todo as [|t0 todo]; [discriminate | ].
    cbn [for_range map concat length].
    eapply reads_bind.
    + apply (reads_read_entry b done (todo ++ tail) t0 t); [exact HI | exact Hget | exact Ht].
    + specialize (IH (set (done ++ t :: todo ++ tail) b) (done ++ [t]) todo tail).
      rewrite length_app in IH. cbn [length] in IH.
      replace (length done + 1)%nat with (S (length done)) in IH by lia.
      rewrite set_set in IH.
      replace ((done ++ [t]) ++ ts ++ tail) with (done ++ (t :: ts) ++ tail) in IH
        by (now rewrite <- app_assoc).
      apply IH.
      * apply Inv_set, HI.
      * rewrite get_set, <- app_assoc by exact HI. reflexivity.
      * cbn in Hlen. lia.
Qed.

Lemma reads_read_entries (ts : list T) (b : B) :
  Inv b ->
  Forall (fun t => len (unit_of t) < 65536) ts ->
  get b = make zeroT (len ts) ->
  reads (read_entries get set unit_of with_unit zeroT (len ts))
        b (concat (map (fun t => wire_unit (unit_of t)) ts)) tt (set ts b).
Proof.
  intros HI Hts Hget. unfold read_entries, len. rewrite Nat2Z.id.
  pose proof (reads_for_range_entries ts Hts b [] (make zeroT (len ts)) [] HI) as H.
  cbn [length app] in H. rewrite !app_nil_r in H.
  apply H; [exact Hget | ].
  unfold make, len. now rewrite repeat_length, Nat2Z.id.
Qed.

End EntriesRoundTrip.

(** ** AVC: decoding what was encoded *)

Lemma reads_bind_nil {B A A' : Type} (m : M (B * io.Reader) A)
      (k : A -> M (B * io.Reader) A') (b : B) (a : A) (b1 : B)
      (c : list byte) (a2 : A') (b2 : B) :
  reads m b [] a b1 -> reads (k a) b1 c a2 b2 -> reads (bind m k) b c a2 b2.
Proof. intros Hm Hk. exact (reads_bind m k b [] a b1 c a2 b2 Hm Hk). Qed.

Lemma reads_final {B A : Type} (m : M (B * io.Reader) A) (b : B) (c : list byte)
      (a : A) (b2 b2' : B) :
  reads m b c a b2 -> b2 = b2' -> reads m b c a b2'.
Proof. intros H <-. exact H. Qed.

Lemma land_lor_252 (x : Z) : 0 <= x < 4 -> Z.land (Z.lor x 252) 3 = x.
Proof.
  intros H. apply Z.eqb_eq.
  apply (all_below_spec 4 (fun x => Z.land (Z.lor x 252) 3 =? x)); [reflexivity | exact H].
Qed.

Lemma land_lor_248 (x : Z) : 0 <= x < 8 -> Z.land (Z.lor x 248) 7 = x.
Proof.
  intros H. apply Z.eqb_eq.
  apply (all_below_spec 8 (fun x => Z.land (Z.lor x 248) 7 =? x)); [reflexivity | exact H].
Qed.

Lemma land_lor_224 (x : Z) : 0 <= x < 32 -> Z.land (Z.lor x 224) 31 = x.
Proof.
  intros H. apply Z.eqb_eq.
  apply (all_below_spec 32 (fun x => Z.land (Z.lor x 224) 31 =? x)); [reflexivity | exact H].
Qed.


Lemma avc_set_NALUnit_of (t t' : avc.AVCParameterSet) :
  avc.set_NALUnit (avc.NALUnit t) t' = t.
Proof. destruct t. reflexivity. Qed.

Lemma avc_set_get_SPS (b : avc.AVCDecoderConfigurationRecord) :
  avc.set_SequenceParameterSets (avc.SequenceParameterSets b) b = b.
Proof. destruct b. reflexivity. Qed.

Lemma avc_set_get_PPS (b : avc.AVCDecoderConfigurationRecord) :
  avc.set_PictureParameterSets (avc.PictureParameterSets b) b = b.
Proof. destruct b. reflexivity. Qed.

Lemma avc_set_get_Exts (b : avc.AVCDecoderConfigurationRecord) :
  avc.set_SequenceParameterSetExts (avc.SequenceParameterSetExts b) b = b.
Proof. destruct b. reflexivity. Qed.

Lemma avc_reads_SPS (ts : list avc.AVCParameterSet) (b : avc.AVCDecoderConfigurationRecord) :
  avc_units_ok ts ->
  avc.SequenceParameterSets b = make avc.zero_set (len ts) ->
  reads (read_entries avc.SequenceParameterSets avc.set_SequenceParameterSets
                      avc.NALUnit avc.set_NALUnit avc.zero_set (len ts))
        b (avc_wire_sets ts) tt (avc.set_SequenceParameterSets ts b).
Proof.
  intros Hts Hget.
  apply (reads_read_entries avc.SequenceParameterSets avc.set_SequenceParameterSets
           avc.NALUnit avc.set_NALUnit avc.zero_set (fun _ => True));
    auto using avc_set_NALUnit_of, avc_set_get_SPS.
Qed.

Lemma avc_reads_PPS (ts : list avc.AVCParameterSet) (b : avc.AVCDecoderConfigurationRecord) :
  avc_units_ok ts ->
  avc.PictureParameterSets b = make avc.zero_set (len ts) ->
  reads (read_entries avc.PictureParameterSets avc.set_PictureParameterSets
                      avc.NALUnit avc.set_NALUnit avc.zero_set (len ts))
        b (avc_wire_sets ts) tt (avc.set_PictureParameterSets ts b).
Proof.
  intros Hts Hget.
  apply (reads_read_entries avc.PictureParameterSets avc.set_PictureParameterSets
           avc.NALUnit avc.set_NALUnit avc.zero_set (fun _ => True));
    auto using avc_set_NALUnit_of, avc_set_get_PPS.
Qed.

Lemma avc_reads_Exts (ts : list avc.AVCParameterSet) (b : avc.AVCDecoderConfigurationRecord) :
  avc_units_ok ts ->
  avc.SequenceParameterSetExts b = make avc.zero_set (len ts) ->
  reads (read_entries avc.SequenceParameterSetExts avc.set_SequenceParameterSetExts
                      avc.NALUnit avc.set_NALUnit avc.zero_set (len ts))
        b (avc_wire_sets ts) tt (avc.set_SequenceParameterSetExts ts b).
Proof.
  intros Hts Hget.
  apply (reads_read_entries avc.SequenceParameterSetExts avc.set_SequenceParameterSetExts
           avc.NALUnit avc.set_NALUnit avc.zero_set (fun _ => True));
    auto using avc_set_NALUnit_of, avc_set_get_Exts.
Qed.

Lemma avc_reads_wire (b0 b : avc.AVCDecoderConfigurationRecord) :
  avc_in_range b ->
  reads avc.RecordRead b0 (avc_wire b) tt (avc_decoded_into b0 b).
Proof.
  intros (Hv & Hp & Hc & Hl & Hls & Hns & Hus & Hnp & Hup & Hext).
  pose proof (len_nonneg (avc.SequenceParameterSets b)) as Hns0.
  pose proof (len_nonneg (avc.PictureParameterSets b)) as Hnp0.
  unfold avc.RecordRead, avc_wire, avc_wire_base.
  rewrite <- !app_assoc.
  eapply reads_bind; [apply reads_Read; reflexivity | ].
  cbv zeta.
  eapply reads_bind_nil; [apply reads_assign | ].
  rewrite ?at_S, ?at_0.
  rewrite !b2z_z2b_small by (try apply lor_byte_range; try rewrite u8_small; lia).
  rewrite (u8_small (len (avc.SequenceParameterSets b))) by lia.
  rewrite land_lor_252 by lia. rewrite land_lor_224 by lia.
  eapply reads_bind.
  { apply avc_reads_SPS; [exact Hus | reflexivity]. }
  eapply reads_bind.
  { apply reads_Read_uint8. rewrite u8_small; lia. }
  rewrite (u8_small (len (avc.PictureParameterSets b))) by lia.
  eapply reads_bind_nil; [apply reads_assign | ].
  eapply reads_bind.
  { apply avc_reads_PPS; [exact Hup | reflexivity]. }
  eapply reads_bind_nil; [apply reads_load | ].
  cbn [avc.AVCProfileIndication avc.set_PictureParameterSets avc.set_SequenceParameterSets].
  unfold avc_decoded_into.
  destruct (avc.has_ext (avc.AVCProfileIndication b)) eqn:E.
  - destruct (Hext eq_refl) as (Hcf & Hbl & Hbc & Hne & Hue).
    pose proof (len_nonneg (avc.SequenceParameterSetExts b)) as Hne0.
    unfold avc_wire_ext.
    eapply reads_bind; [apply reads_Read; reflexivity | ].
    cbv zeta.
    eapply reads_bind_nil; [apply reads_assign | ].
    rewrite ?at_S, ?at_0.
    rewrite !b2z_z2b_small by (try apply lor_byte_range; try rewrite u8_small; lia).
    rewrite (u8_small (len (avc.SequenceParameterSetExts b))) by lia.
    rewrite land_lor_252 by lia. rewrite !land_lor_248 by lia.
    eapply reads_final.
    + apply avc_reads_Exts; [exact Hue | reflexivity].
    + destruct b. reflexivity.
  - eapply reads_final; [apply reads_ret | reflexivity].
Qed.

(** ** Widths of decoded fields *)

Lemma byte_bounded (f : Z -> Z) (lo hi x : Z) :
  all_below 256 (fun x => (lo <=? f x) && (f x <? hi)) = true ->
  0 <= x < 256 -> lo <= f x < hi.
Proof.
  intros H Hx.
  pose proof (byte_fact (fun x => (lo <=? f x) && (f x <? hi)) x H Hx) as F.
  cbv beta in F. apply andb_true_iff in F. lia.
Qed.

Ltac byte_bound f lo hi :=
  apply (byte_bounded f lo hi); [vm_compute; reflexivity | apply at_range].

Lemma len_make {A : Type} (z : A) (n : Z) : 0 <= n -> len (make z n) = n.
Proof. intros H. unfold len, make. rewrite repeat_length. lia. Qed.

Lemma len_upd {A : Type} (i : nat) (f : A -> A) (l : list A) : len (upd i f l) = len l.
Proof. unfold len. now rewrite upd_length. Qed.

Lemma Forall_repeat {A : Type} (P : A -> Prop) (x : A) (n : nat) :
  P x -> Forall P (repeat x n).
Proof. intros H. induction n; cbn; constructor; assumption. Qed.

Lemma Forall_upd {A : Type} (P : A -> Prop) (i : nat) (f : A -> A) (l : list A) :
  Forall P l -> (forall x, P x -> P (f x)) -> Forall P (upd i f l).
Proof.
  intros Hl Hf. revert i. induction Hl as [|x l Hx Hl IH]; intros [|i]; cbn;
    constructor; auto.
Qed.

Lemma Forall_nth_default {A : Type} (P : A -> Prop) (l : list A) (d : A) (i : nat) :
  Forall P l -> P d -> P (nth i l d).
Proof.
  intros Hl Hd. revert i. induction Hl as [|x l Hx Hl IH]; intros [|i]; cbn; auto.
Qed.

Lemma hoare_Read_uint16 {B : Type} (P : B -> Prop) : hoare P binary.Read_uint16 P.
Proof.
  unfold binary.Read_uint16.
  eapply hoare_bind; [apply hoare_Read | intros a; apply hoare_ret | auto].
Qed.

Lemma hoare_Read_uint8 {B : Type} (P : B -> Prop) : hoare P binary.Read_uint8 P.
Proof.
  unfold binary.Read_uint8.
  eapply hoare_bind; [apply hoare_Read | intros a; apply hoare_ret | auto].
Qed.

Lemma hoare_read_entries {B T : Type} (get : B -> list T) (set : list T -> B -> B)
      (unit_of : T -> list byte) (with_unit : list byte -> T -> T) (zeroT : T)
      (count : Z) (P : B -> Prop) :
  (forall b j f, P b -> P (set (upd j f (get b)) b)) ->
  hoare P (read_entries get set unit_of with_unit zeroT count) P.
Proof.
  intros H. unfold read_entries. apply hoare_for_range. intros i. unfold read_entry.
  eapply hoare_bind; [apply hoare_Read_uint16 | | auto].
  intros n. eapply hoare_bind; [apply hoare_assign; intros b Hb; apply H, Hb | | auto].
  intros _. apply hoare_ReadFull_into. intros buf b Hb. apply H, Hb.
Qed.

Lemma avc_RecordRead_widths : hoare avc_widths avc.RecordRead avc_widths.
Proof.
  unfold avc.RecordRead.
  eapply hoare_bind; [apply hoare_Read | | auto]. intros tmp. cbv zeta.
  eapply hoare_bind; [ | | intros b Hb; exact Hb].
  { apply (hoare_assign _ avc_widths avc_widths).
    intros b (H1 & H2 & H3 & H4 & H5). unfold avc_widths. cbn.
    assert (Hn : 0 <= Z.land tmp@5 31 < 32) by byte_bound (fun x => Z.land x 31) 0 32.
    rewrite len_make by lia.
    repeat split; try lia; byte_bound (fun x => Z.land x 3) 0 4. }
  intros _.
  eapply hoare_bind; [ | | intros b Hb; exact Hb].
  { apply hoare_read_entries. intros b j f (H1 & H2 & H3 & H4 & H5).
    unfold avc_widths. cbn. rewrite len_upd. repeat split; lia. }
  intros _.
  eapply hoare_bind; [apply hoare_Read_uint8 | | auto]. intros n.
  eapply hoare_bind; [ | | intros b Hb; exact Hb].
  { apply (hoare_assign _ avc_widths avc_widths). intros b Hb. exact Hb. }
  intros _.
  eapply hoare_bind; [ | | intros b Hb; exact Hb].
  { apply hoare_read_entries. intros b j f Hb. exact Hb. }
  intros _.
  eapply hoare_bind; [apply hoare_load | | auto]. intros profile.
  destruct (avc.has_ext profile).
  - eapply hoare_bind; [apply hoare_Read | | auto]. intros tmp4. cbv zeta.
    eapply hoare_bind; [ | | intros b Hb; exact Hb].
    { apply (hoare_assign _ avc_widths avc_widths).
      intros b (H1 & H2 & H3 & H4 & H5). unfold avc_widths. cbn.
      repeat split; try lia;
        first [ byte_bound (fun x => Z.land x 3) 0 4 | byte_bound (fun x => Z.land x 7) 0 8 ]. }
    intros _. apply hoare_read_entries. intros b j f Hb. exact Hb.
  - apply hoare_ret.
Qed.

Ltac hevc_fields :=
  cbn [hevc.ConfigurationVersion hevc.GeneralProfileSpace hevc.GeneralTierFlag
       hevc.GenertalProfileIndicator hevc.GeneralProfileCompatibilityFlags
       hevc.GeneralConstraintIndicatorFlags hevc.GeneralLevelIndicator
       hevc.MinSpatialSegmentationIndicator hevc.ParallelismType
       hevc.ChromaFormatIndicator hevc.BitDepthLumaMinus8 hevc.BitDepthChromaMinus8
       hevc.AvgFrameRate hevc.ConstantFrameRate hevc.NumTemporalLayers
       hevc.TemporalIDNested hevc.LengthSizeMinusOne hevc.NaluArrays
       hevc.NALUs hevc.ArrayCompleteness hevc.NALUnitType
       hevc.set_NaluArrays hevc.set_NALUs hevc.get_NALUs].

Lemma hevc_count12_range (t : list byte) :
  0 <= Z.lor (u16 (Z.shiftl (Z.land t@1 15) 8)) t@2 < 2 ^ 12.
Proof.
  assert (H1 : 0 <= u16 (Z.shiftl (Z.land t@1 15) 8) < 2 ^ 12)
    by byte_bound (fun x => u16 (Z.shiftl (Z.land x 15) 8)) 0 (2 ^ 12).
  pose proof (at_range t 2) as H2.
  apply lor_range; [lia | exact H1 | ].
  change (2 ^ 12) with 4096. lia.
Qed.

Lemma hevc_set_NALUs_widths (i : nat) (v : list (list byte))
      (b : hevc.HEVCDecoderConfigurationRecord) :
  hevc_widths b -> len v <= 4095 -> hevc_widths (hevc.set_NALUs i v b).
Proof.
  intros (H1 & H2 & H3 & H4 & H5 & H6 & H7 & H8 & H9 & H10) Hv.
  unfold hevc_widths. hevc_fields. repeat split; try lia.
  apply Forall_upd; [exact H10 | ]. intros a _. hevc_fields. exact Hv.
Qed.

Lemma hevc_get_NALUs_widths (i : nat) (b : hevc.HEVCDecoderConfigurationRecord) :
  hevc_widths b -> len (hevc.get_NALUs i b) <= 4095.
Proof.
  intros (_ & _ & _ & _ & _ & _ & _ & _ & _ & H10). unfold hevc.get_NALUs.
  apply (Forall_nth_default (fun a => len (hevc.NALUs a) <= 4095)); [exact H10 | ].
  unfold hevc.zero_array. hevc_fields. rewrite len_nil. lia.
Qed.

Lemma hevc_read_array_widths (i : nat) :
  hoare hevc_widths (hevc.read_array i) hevc_widths.
Proof.
  unfold hevc.read_array.
  eapply hoare_bind; [apply hoare_Read | | auto]. intros tmp. cbv zeta.
  eapply hoare_bind; [ | | intros b Hb; exact Hb].
  { apply (hoare_assign _ hevc_widths hevc_widths).
    intros b (H1 & H2 & H3 & H4 & H5 & H6 & H7 & H8 & H9 & H10).
    unfold hevc_widths. hevc_fields. repeat split; try lia.
    apply Forall_upd; [exact H10 | ]. intros a _. hevc_fields.
    pose proof (hevc_count12_range tmp) as Hc. change (2 ^ 12) with 4096 in Hc.
    rewrite len_make; lia. }
  intros _. apply hoare_read_entries. intros b j f Hb.
  apply hevc_set_NALUs_widths; [exact Hb | ].
  rewrite len_upd. apply hevc_get_NALUs_widths, Hb.
Qed.

Lemma hevc_flags48_range (t : list byte) :
  0 <= Z.lor (Z.lor (Z.lor (Z.lor (Z.lor (u64 (Z.shiftl t@6 40))
                                         (u64 (Z.shiftl t@7 32)))
                                  (u64 (Z.shiftl t@8 24)))
                           (u64 (Z.shiftl t@9 16)))
                    (u64 (Z.shiftl t@10 8)))
             t@11 < 2 ^ 48.
Proof.
  assert (H : forall i k, 0 <= k <= 40 -> 0 <= u64 (Z.shiftl t@i k) < 2 ^ 48).
  { intros i k Hk. pose proof (at_range t i) as Hi.
    rewrite Z.shiftl_mul_pow2 by lia.
    assert (Hp : 0 < 2 ^ k <= 2 ^ 40).
    { split; [apply Z.pow_pos_nonneg; lia | apply Z.pow_le_mono_r; lia]. }
    unfold u64. rewrite Z.mod_small.
    - change (2 ^ 40) with 1099511627776 in Hp. change (2 ^ 48) with 281474976710656. nia.
    - change (2 ^ 40) with 1099511627776 in Hp. change (2 ^ 64) with 18446744073709551616. nia. }
  repeat (apply lor_range; [lia | | ]); try (apply H; lia).
  pose proof (at_range t 11). change (2 ^ 48) with 281474976710656. lia.
Qed.

Lemma hevc_RecordRead_widths : hoare hevc_widths hevc.RecordRead hevc_widths.
Proof.
  unfold hevc.RecordRead.
  eapply hoare_bind; [apply hoare_Read | | auto]. intros tmp. cbv zeta.
  eapply hoare_bind; [ | | intros b Hb; exact Hb].
  { apply (hoare_assign _ hevc_widths hevc_widths). intros b _.
    unfold hevc_widths. hevc_fields.
    split; [byte_bound (fun x => Z.shiftr x 6) 0 4 | ].
    split; [byte_bound (fun x => Z.land x 31) 0 32 | ].
    split; [apply hevc_flags48_range | ].
    split.
    { assert (H1 : 0 <= u16 (Z.shiftl (Z.land tmp@13 15) 8) < 2 ^ 12)
        by byte_bound (fun x => u16 (Z.shiftl (Z.land x 15) 8)) 0 (2 ^ 12).
      pose proof (at_range tmp 14) as H2.
      apply lor_range; [lia | exact H1 | ]. change (2 ^ 12) with 4096. lia. }
    split; [byte_bound (fun x => Z.land x 3) 0 4 | ].
    split; [byte_bound (fun x => Z.land x 3) 0 4 | ].
    split; [byte_bound (fun x => Z.land x 7) 0 8 | ].
    split; [byte_bound (fun x => Z.land x 7) 0 8 | ].
    split; [byte_bound (fun x => Z.land x 3) 0 4 | ].
    apply Forall_repeat. hevc_fields. unfold hevc.zero_array. hevc_fields.
    rewrite len_nil. lia. }
  intros _. apply hoare_for_range. apply hevc_read_array_widths.
Qed.

(** ** Big-endian fields wider than a byte *)

Lemma lor_mul_add (x lo n P : Z) :
  0 <= n -> P = 2 ^ n -> 0 <= lo < P -> Z.lor (x * P) lo = x * P + lo.
Proof.
  intros Hn -> Hlo. rewrite Z.lor_comm, <- Z.shiftl_mul_pow2 by exact Hn.
  rewrite lor_low_high by assumption. rewrite Z.shiftl_mul_pow2 by exact Hn. lia.
Qed.

Lemma shl_byte_u32 (x k : Z) :
  0 <= x < 256 -> 0 <= k <= 24 -> u32 (Z.shiftl x k) = x * 2 ^ k.
Proof.
  intros Hx Hk. rewrite Z.shiftl_mul_pow2 by lia. apply u32_small.
  assert (Hp : 0 < 2 ^ k <= 2 ^ 24).
  { split; [apply Z.pow_pos_nonneg; lia | apply Z.pow_le_mono_r; lia]. }
  change (2 ^ 24) with 16777216 in Hp. nia.
Qed.

Lemma shl_byte_u64 (x k : Z) :
  0 <= x < 256 -> 0 <= k <= 40 -> u64 (Z.shiftl x k) = x * 2 ^ k.
Proof.
  intros Hx Hk. rewrite Z.shiftl_mul_pow2 by lia. unfold u64. apply Z.mod_small.
  assert (Hp : 0 < 2 ^ k <= 2 ^ 40).
  { split; [apply Z.pow_pos_nonneg; lia | apply Z.pow_le_mono_r; lia]. }
  change (2 ^ 40) with 1099511627776 in Hp. change (2 ^ 64) with 18446744073709551616. nia.
Qed.

Lemma u8_range (z : Z) : 0 <= u8 z < 256.
Proof. unfold u8. apply Z.mod_pos_bound. reflexivity. Qed.

Lemma be32_decode (v : Z) :
  0 <= v < 2 ^ 32 ->
  Z.lor (Z.lor (Z.lor (u32 (Z.shiftl (u8 (Z.shiftr v 24)) 24))
                      (u32 (Z.shiftl (u8 (Z.shiftr v 16)) 16)))
               (u32 (Z.shiftl (u8 (Z.shiftr v 8)) 8)))
        (u8 v) = v.
Proof.
  intros Hv. change (2 ^ 32) with 4294967296 in Hv.
  pose proof (u8_range (Z.shiftr v 24)) as H3.
  pose proof (u8_range (Z.shiftr v 16)) as H2.
  pose proof (u8_range (Z.shiftr v 8)) as H1.
  pose proof (u8_range v) as H0.
  rewrite !shl_byte_u32 by lia.
  assert (E : v = u8 (Z.shiftr v 24) * 16777216 + u8 (Z.shiftr v 16) * 65536
                  + u8 (Z.shiftr v 8) * 256 + u8 v).
  { unfold u8. rewrite !Z.shiftr_div_pow2 by lia.
    change (2 ^ 24) with 16777216. change (2 ^ 16) with 65536. change (2 ^ 8) with 256.
    Z.div_mod_to_equations. lia. }
  revert E.
  generalize (u8 (Z.shiftr v 24)) (u8 (Z.shiftr v 16)) (u8 (Z.shiftr v 8)) (u8 v) H3 H2 H1 H0.
  clear. intros b3 b2 b1 b0 H3 H2 H1 H0 E.
  change (2 ^ 24) with 16777216. change (2 ^ 16) with 65536. change (2 ^ 8) with 256.
  rewrite (lor_mul_add b3 (b2 * 65536) 24 16777216) by (try reflexivity; lia).
  replace (b3 * 16777216 + b2 * 65536) with ((b3 * 256 + b2) * 65536) by lia.
  rewrite (lor_mul_add (b3 * 256 + b2) (b1 * 256) 16 65536) by (try reflexivity; lia).
  replace ((b3 * 256 + b2) * 65536 + b1 * 256) with (((b3 * 256 + b2) * 256 + b1) * 256) by lia.
  rewrite (lor_mul_add _ b0 8 256) by (try reflexivity; lia).
  lia.
Qed.

Lemma be48_decode (v : Z) :
  0 <= v < 2 ^ 48 ->
  Z.lor (Z.lor (Z.lor (Z.lor (Z.lor
    (u64 (Z.shiftl (u8 (Z.shiftr (u16 (Z.shiftr v 32)) 8)) 40))
    (u64 (Z.shiftl (u8 (u16 (Z.shiftr v 32))) 32)))
    (u64 (Z.shiftl (u8 (Z.shiftr (u32 v) 24)) 24)))
    (u64 (Z.shiftl (u8 (Z.shiftr (u32 v) 16)) 16)))
    (u64 (Z.shiftl (u8 (Z.shiftr (u32 v) 8)) 8)))
    (u8 (u32 v)) = v.
Proof.
  intros Hv. change (2 ^ 48) with 281474976710656 in Hv.
  pose proof (u8_range (Z.shiftr (u16 (Z.shiftr v 32)) 8)) as H5.
  pose proof (u8_range (u16 (Z.shiftr v 32))) as H4.
  pose proof (u8_range (Z.shiftr (u32 v) 24)) as H3.
  pose proof (u8_range (Z.shiftr (u32 v) 16)) as H2.
  pose proof (u8_range (Z.shiftr (u32 v) 8)) as H1.
  pose proof (u8_range (u32 v)) as H0.
  rewrite !shl_byte_u64 by lia.
  assert (E : v = u8 (Z.shiftr (u16 (Z.shiftr v 32)) 8) * 1099511627776
                  + u8 (u16 (Z.shiftr v 32)) * 4294967296
                  + u8 (Z.shiftr (u32 v) 24) * 16777216
                  + u8 (Z.shiftr (u32 v) 16) * 65536
                  + u8 (Z.shiftr (u32 v) 8) * 256 + u8 (u32 v)).
  { unfold u8, u16, u32. rewrite !Z.shiftr_div_pow2 by lia.
    change (2 ^ 32) with 4294967296.
    change (2 ^ 24) with 16777216. change (2 ^ 16) with 65536. change (2 ^ 8) with 256.
    Z.div_mod_to_equations. lia. }
  revert E.
  generalize (u8 (Z.shiftr (u16 (Z.shiftr v 32)) 8)) (u8 (u16 (Z.shiftr v 32)))
             (u8 (Z.shiftr (u32 v) 24)) (u8 (Z.shiftr (u32 v) 16))
             (u8 (Z.shiftr (u32 v) 8)) (u8 (u32 v)) H5 H4 H3 H2 H1 H0.
  clear. intros b5 b4 b3 b2 b1 b0 H5 H4 H3 H2 H1 H0 E.
  change (2 ^ 40) with 1099511627776. change (2 ^ 32) with 4294967296.
  change (2 ^ 24) with 16777216. change (2 ^ 16) with 65536. change (2 ^ 8) with 256.
  rewrite (lor_mul_add b5 (b4 * 4294967296) 40 1099511627776) by (try reflexivity; lia).
  replace (b5 * 1099511627776 + b4 * 4294967296)
    with ((b5 * 256 + b4) * 4294967296) by lia.
  rewrite (lor_mul_add _ (b3 * 16777216) 32 4294967296) by (try reflexivity; lia).
  replace ((b5 * 256 + b4) * 4294967296 + b3 * 16777216)
    with (((b5 * 256 + b4) * 256 + b3) * 16777216) by lia.
  rewrite (lor_mul_add _ (b2 * 65536) 24 16777216) by (try reflexivity; lia).
  replace (((b5 * 256 + b4) * 256 + b3) * 16777216 + b2 * 65536)
    with ((((b5 * 256 + b4) * 256 + b3) * 256 + b2) * 65536) by lia.
  rewrite (lor_mul_add _ (b1 * 256) 16 65536) by (try reflexivity; lia).
  replace ((((b5 * 256 + b4) * 256 + b3) * 256 + b2) * 65536 + b1 * 256)
    with (((((b5 * 256 + b4) * 256 + b3) * 256 + b2) * 256 + b1) * 256) by lia.
  rewrite (lor_mul_add _ b0 8 256) by (try reflexivity; lia).
  lia.
Qed.

(** ** HEVC: the packed bytes *)

Lemma all_below_2 (n1 n2 : nat) (P : Z -> Z -> bool) :
  all_below n1 (fun x => all_below n2 (P x)) = true ->
  forall x y, 0 <= x < Z.of_nat n1 -> 0 <= y < Z.of_nat n2 -> P x y = true.
Proof.
  intros H x y Hx Hy.
  pose proof (all_below_spec n1 _ H x Hx) as H1. cbv beta in H1.
  exact (all_below_spec n2 _ H1 y Hy).
Qed.

(** The byte that packs profile space, tier flag and profile indicator,
    as [RecordWrite] builds it and [RecordRead] takes it apart. *)
Lemma hevc_profile_byte (space p : Z) (tier : bool) :
  0 <= space < 4 -> 0 <= p < 32 ->
  let tmp := Z.lor (u8 (Z.shiftl space 6)) (Z.land p 31) in
  let x := u8 (if tier then Z.lor tmp 16 else tmp) in
  Z.shiftr x 6 = space /\
  (0 <? Z.land (Z.shiftr x 5) 1) = false /\
  Z.land x 31 = (if tier then Z.lor p 16 else p).
Proof.
  intros Hs Hp. cbv zeta.
  pose proof (all_below_2 4 32
    (fun space p =>
       let tmp := Z.lor (u8 (Z.shiftl space 6)) (Z.land p 31) in
       let x1 := u8 (Z.lor tmp 16) in
       let x0 := u8 tmp in
       (Z.shiftr x1 6 =? space) && negb (0 <? Z.land (Z.shiftr x1 5) 1)
       && (Z.land x1 31 =? Z.lor p 16)
       && (Z.shiftr x0 6 =? space) && negb (0 <? Z.land (Z.shiftr x0 5) 1)
       && (Z.land x0 31 =? p)) eq_refl space p Hs Hp) as F.
  cbv zeta in F.
  repeat (apply andb_true_iff in F; destruct F as [F ?]).
  destruct tier; repeat split;
    repeat match goal with
           | H : (_ =? _) = true |- _ => apply Z.eqb_eq in H
           | H : negb _ = true |- _ => apply negb_true_iff in H
           end; assumption.
Qed.

(** The 12-bit field with its four reserved bits. *)
Lemma hevc_min_spatial (v : Z) :
  0 <= v < 4096 ->
  let w := Z.lor v (Z.shiftl 15 12) in
  Z.lor (u16 (Z.shiftl (Z.land (u8 (Z.shiftr w 8)) 15) 8)) (u8 w) = v.
Proof.
  intros Hv. cbv zeta. apply Z.eqb_eq.
  apply (all_below_spec 4096
           (fun v => let w := Z.lor v (Z.shiftl 15 12) in
                     Z.lor (u16 (Z.shiftl (Z.land (u8 (Z.shiftr w 8)) 15) 8)) (u8 w) =? v));
    [vm_compute; reflexivity | exact Hv].
Qed.

(** The 12-bit NAL unit count of an array, written as a 16-bit value. *)
Lemma hevc_nalu_count (v : Z) :
  0 <= v < 4096 ->
  Z.lor (u16 (Z.shiftl (Z.land (u8 (Z.shiftr v 8)) 15) 8)) (u8 v) = v.
Proof.
  intros Hv. apply Z.eqb_eq.
  apply (all_below_spec 4096
           (fun v => Z.lor (u16 (Z.shiftl (Z.land (u8 (Z.shiftr v 8)) 15) 8)) (u8 v) =? v));
    [vm_compute; reflexivity | exact Hv].
Qed.

(** The fields that [RecordWrite] ORs with a mask that covers them. *)
Lemma hevc_masked_2 (x : Z) : 0 <= x < 4 -> Z.land (u8 (Z.lor x 63)) 3 = 3.
Proof.
  intros H. apply Z.eqb_eq.
  apply (all_below_spec 4 (fun x => Z.land (u8 (Z.lor x 63)) 3 =? 3)); [reflexivity | exact H].
Qed.

Lemma hevc_masked_3 (x : Z) : 0 <= x < 8 -> Z.land (u8 (Z.lor x 31)) 7 = 7.
Proof.
  intros H. apply Z.eqb_eq.
  apply (all_below_spec 8 (fun x => Z.land (u8 (Z.lor x 31)) 7 =? 7)); [reflexivity | exact H].
Qed.

Lemma be16_decode (v : Z) :
  0 <= v < 65536 ->
  Z.lor (u16 (Z.shiftl (u8 (Z.shiftr v 8)) 8)) (u8 v) = v.
Proof.
  intros Hv. pose proof (Uint16_PutUint16 v Hv) as H.
  unfold binary.Uint16, binary.PutUint16 in H.
  rewrite at_S, !at_0, !b2z_z2b in H. rewrite Z.lor_comm. exact H.
Qed.

(** The byte that packs the frame-rate, temporal-layer and length-size
    fields. *)
Lemma hevc_rate_byte (cfr ntl tin lsm : Z) :
  0 <= cfr < 4 -> 0 <= ntl < 8 -> 0 <= tin < 2 -> 0 <= lsm < 4 ->
  let x := u8 (Z.lor (Z.lor (Z.lor (u8 (Z.shiftl cfr 6))
                                   (u8 (Z.shiftl (Z.land ntl 7) 3)))
                            (u8 (Z.shiftl (Z.land tin 1) 2)))
                     (Z.land lsm 3)) in
  Z.shiftr x 6 = cfr /\
  Z.land (Z.shiftr x 3) 7 = ntl /\
  Z.land (Z.shiftr x 2) 1 = tin /\
  Z.land x 3 = lsm.
Proof.
  intros Hc Hn Ht Hl. cbv zeta.
  pose proof (all_below_2 4 8
    (fun cfr ntl => all_below 2 (fun tin => all_below 4 (fun lsm =>
       let x := u8 (Z.lor (Z.lor (Z.lor (u8 (Z.shiftl cfr 6))
                                        (u8 (Z.shiftl (Z.land ntl 7) 3)))
                                 (u8 (Z.shiftl (Z.land tin 1) 2)))
                          (Z.land lsm 3)) in
       (Z.shiftr x 6 =? cfr) && (Z.land (Z.shiftr x 3) 7 =? ntl)
       && (Z.land (Z.shiftr x 2) 1 =? tin) && (Z.land x 3 =? lsm))))
    eq_refl cfr ntl Hc Hn) as F.
  cbv beta in F.
  pose proof (all_below_2 2 4 _ F tin lsm Ht Hl) as G. cbv beta zeta in G.
  repeat (apply andb_true_iff in G; destruct G as [G ?]).
  repeat split; apply Z.eqb_eq; assumption.
Qed.

(** The byte that packs the completeness flag and the type of an array. *)
Lemma hevc_array_byte (ty : Z) (complete : bool) :
  0 <= ty < 64 ->
  let tmp := Z.lor 0 (Z.land (u8 ty) 63) in
  let x := u8 (if complete then Z.lor tmp 128 else tmp) in
  (0 <? Z.shiftr x 7) = complete /\ Z.land x 63 = ty.
Proof.
  intros Ht. cbv zeta.
  pose proof (all_below_spec 64
    (fun ty =>
       let tmp := Z.lor 0 (Z.land (u8 ty) 63) in
       let x1 := u8 (Z.lor tmp 128) in
       let x0 := u8 tmp in
       (0 <? Z.shiftr x1 7) && (Z.land x1 63 =? ty)
       && negb (0 <? Z.shiftr x0 7) && (Z.land x0 63 =? ty)) eq_refl ty Ht) as F.
  cbv zeta in F.
  repeat (apply andb_true_iff in F; destruct F as [F ?]).
  destruct complete; split;
    repeat match goal with
           | H : (_ =? _) = true |- _ => apply Z.eqb_eq in H
           | H : negb _ = true |- _ => apply negb_true_iff in H
           end; assumption.
Qed.

(** ** HEVC: decoding what was encoded *)

Lemma nth_upd_same {A : Type} (i : nat) (f : A -> A) (l : list A) (d : A) :
  (i < length l)%nat -> nth i (upd i f l) d = f (nth i l d).
Proof.
  revert i. induction l as [|x l IH]; intros [|i] H; cbn in *; try lia.
  - reflexivity.
  - apply IH. lia.
Qed.

Lemma upd_upd {A : Type} (i : nat) (f g : A -> A) (l : list A) :
  upd i f (upd i g l) = upd i (fun x => f (g x)) l.
Proof.
  revert i. induction l as [|x l IH]; intros [|i]; cbn; try reflexivity.
  now rewrite IH.
Qed.

Lemma upd_id {A : Type} (i : nat) (f : A -> A) (l : list A) (d : A) :
  f (nth i l d) = nth i l d -> upd i f l = l.
Proof.
  revert i. induction l as [|x l IH]; intros [|i] H; cbn in *; try reflexivity.
  - now rewrite H.
  - now rewrite IH.
Qed.

Lemma hevc_set_get_NaluArrays (b : hevc.HEVCDecoderConfigurationRecord) :
  hevc.set_NaluArrays (hevc.NaluArrays b) b = b.
Proof. destruct b. reflexivity. Qed.

Lemma hevc_get_set_NALUs (i : nat) (v : list (list byte))
      (b : hevc.HEVCDecoderConfigurationRecord) :
  (i < length (hevc.NaluArrays b))%nat ->
  hevc.get_NALUs i (hevc.set_NALUs i v b) = v.
Proof.
  intros H. unfold hevc.get_NALUs, hevc.set_NALUs. hevc_fields.
  rewrite nth_upd_same by exact H. reflexivity.
Qed.

Lemma hevc_set_set_NALUs (i : nat) (v v' : list (list byte))
      (b : hevc.HEVCDecoderConfigurationRecord) :
  hevc.set_NALUs i v (hevc.set_NALUs i v' b) = hevc.set_NALUs i v b.
Proof.
  unfold hevc.set_NALUs. hevc_fields. rewrite upd_upd. reflexivity.
Qed.

Lemma hevc_set_get_NALUs (i : nat) (b : hevc.HEVCDecoderConfigurationRecord) :
  hevc.set_NALUs i (hevc.get_NALUs i b) b = b.
Proof.
  unfold hevc.set_NALUs, hevc.get_NALUs.
  rewrite (upd_id i _ (hevc.NaluArrays b) hevc.zero_array).
  - apply hevc_set_get_NaluArrays.
  - destruct (nth i (hevc.NaluArrays b) hevc.zero_array). reflexivity.
Qed.

Lemma hevc_reads_NALUs (i : nat) (ts : list (list byte))
      (b : hevc.HEVCDecoderConfigurationRecord) :
  (i < length (hevc.NaluArrays b))%nat ->
  Forall (fun u => len u < 65536) ts ->
  hevc.get_NALUs i b = make [] (len ts) ->
  reads (read_entries (hevc.get_NALUs i) (hevc.set_NALUs i)
                      (fun nalu => nalu) (fun buf _ => buf) [] (len ts))
        b (concat (map wire_unit ts)) tt (hevc.set_NALUs i ts b).
Proof.
  intros Hi Hts Hget.
  apply (reads_read_entries (hevc.get_NALUs i) (hevc.set_NALUs i)
           (fun nalu => nalu) (fun buf _ => buf) []
           (fun b => (i < length (hevc.NaluArrays b))%nat));
    auto using hevc_set_set_NALUs, hevc_set_get_NALUs.
  - intros v b' Hb'. unfold hevc.set_NALUs. hevc_fields. now rewrite upd_length.
  - intros v b' Hb'. apply hevc_get_set_NALUs, Hb'.
Qed.

Lemma hevc_reads_array (b : hevc.HEVCDecoderConfigurationRecord)
      (done todo : list hevc.NaluArray) (t0 a : hevc.NaluArray) :
  hevc.NaluArrays b = done ++ t0 :: todo ->
  hevc_array_ok a ->
  reads (hevc.read_array (length done)) b (hevc_wire_array a) tt
        (hevc.set_NaluArrays (done ++ a :: todo) b).
Proof.
  intros Hget (Hty & Hn & Hus).
  pose proof (len_nonneg (hevc.NALUs a)) as Hn0.
  unfold hevc.read_array, hevc_wire_array, binary.PutUint16.
  cbv zeta. cbn [app].
  match goal with
  | |- reads _ _ (?x :: ?y :: ?z :: ?l) _ _ => change (x :: y :: z :: l) with ([x; y; z] ++ l)
  end.
  eapply reads_bind; [apply reads_Read; reflexivity | ].
  eapply reads_bind_nil; [apply reads_assign | ].
  rewrite ?at_S, ?at_0, !b2z_z2b.
  rewrite (u16_small (len (hevc.NALUs a))) by lia.
  rewrite hevc_nalu_count by lia.
  destruct (hevc_array_byte (hevc.NALUnitType a) (hevc.ArrayCompleteness a) Hty) as [Hc Ht].
  cbv zeta in Hc, Ht. rewrite Hc, Ht.
  rewrite Hget, upd_app.
  eapply reads_final.
  - apply hevc_reads_NALUs.
    + hevc_fields. rewrite length_app. cbn [length]. lia.
    + exact Hus.
    + unfold hevc.get_NALUs. hevc_fields. rewrite nth_middle. reflexivity.
  - unfold hevc.set_NALUs. hevc_fields. rewrite upd_app. hevc_fields.
    destruct a. reflexivity.
Qed.

Lemma hevc_reads_arrays (ts : list hevc.NaluArray) :
  Forall hevc_array_ok ts ->
  forall (b : hevc.HEVCDecoderConfigurationRecord) (done todo tail : list hevc.NaluArray),
  hevc.NaluArrays b = done ++ todo ++ tail ->
  length todo = length ts ->
  reads (for_range (length done) (length ts) hevc.read_array)
        b (hevc_wire_arrays ts) tt
        (hevc.set_NaluArrays (done ++ ts ++ tail) b).
Proof.
  unfold hevc_wire_arrays.
  induction 1 as [|t ts Ht Hts IH]; intros b done todo tail Hget Hlen.
  - destruct todo; [ | discriminate]. cbn [for_range map concat app] in *.
    rewrite <- Hget, hevc_set_get_NaluArrays. apply reads_ret.
  - destruct todo as [|t0 todo]; [discriminate | ].
    cbn [for_range map concat length].
    eapply reads_bind.
    + apply (hevc_reads_array b done (todo ++ tail) t0 t); [exact Hget | exact Ht].
    + specialize (IH (hevc.set_NaluArrays (done ++ t :: todo ++ tail) b)
                     (done ++ [t]) todo tail).
      rewrite length_app in IH. cbn [length] in IH.
      replace (length done + 1)%nat with (S (length done)) in IH by lia.
      replace ((done ++ [t]) ++ ts ++ tail) with (done ++ (t :: ts) ++ tail) in IH
        by (now rewrite <- app_assoc).
      apply IH.
      * hevc_fields. rewrite <- app_assoc. reflexivity.
      * cbn in Hlen. lia.
Qed.

Lemma hevc_reads_wire (b0 b : hevc.HEVCDecoderConfigurationRecord) :
  hevc_in_range b ->
  reads hevc.RecordRead b0 (hevc_wire b) tt (hevc_decoded b).
Proof.
  intros (Hv & Hsp & Hpi & Hcf & Hci & Hli & Hms & Hpt & Hch & Hbl & Hbc & Hfr
          & Hcr & Hnt & Htn & Hls & Hna & Hok).
  pose proof (len_nonneg (hevc.NaluArrays b)) as Hna0.
  unfold hevc.RecordRead, hevc_wire.
  eapply reads_bind; [apply reads_Read; reflexivity | ].
  cbv zeta.
  eapply reads_bind_nil; [apply reads_assign | ].
  unfold hevc_wire_header, binary.PutUint32, binary.PutUint16. cbn [app].
  rewrite ?at_S, ?at_0, !b2z_z2b.
  destruct (hevc_profile_byte (hevc.GeneralProfileSpace b) (hevc.GenertalProfileIndicator b)
                              (hevc.GeneralTierFlag b) Hsp Hpi) as (E1 & E2 & E3).
  cbv zeta in E1, E2, E3. rewrite E1, E2, E3.
  rewrite (be32_decode (hevc.GeneralProfileCompatibilityFlags b) Hcf).
  rewrite (be48_decode (hevc.GeneralConstraintIndicatorFlags b) Hci).
  pose proof (hevc_min_spatial (hevc.MinSpatialSegmentationIndicator b) Hms) as E4.
  cbv zeta in E4. rewrite E4.
  rewrite (hevc_masked_2 (hevc.ParallelismType b) Hpt).
  rewrite (hevc_masked_2 (hevc.ChromaFormatIndicator b) Hch).
  rewrite (hevc_masked_3 (hevc.BitDepthLumaMinus8 b) Hbl).
  rewrite (hevc_masked_3 (hevc.BitDepthChromaMinus8 b) Hbc).
  rewrite (be16_decode (hevc.AvgFrameRate b) Hfr).
  destruct (hevc_rate_byte (hevc.ConstantFrameRate b) (hevc.NumTemporalLayers b)
                           (hevc.TemporalIDNested b) (hevc.LengthSizeMinusOne b)
                           Hcr Hnt Htn Hls) as (E5 & E6 & E7 & E8).
  cbv zeta in E5, E6, E7, E8. rewrite E5, E6, E7, E8.
  rewrite !(u8_small (hevc.ConfigurationVersion b)) by lia.
  rewrite !(u8_small (hevc.GeneralLevelIndicator b)) by lia.
  rewrite !(u8_small (len (hevc.NaluArrays b))) by lia.
  replace (Z.to_nat (len (hevc.NaluArrays b))) with (length (hevc.NaluArrays b))
    by (unfold len; now rewrite Nat2Z.id).
  eapply reads_final.
  - apply (hevc_reads_arrays (hevc.NaluArrays b) Hok _ []
             (make hevc.zero_array (len (hevc.NaluArrays b))) []).
    + hevc_fields. cbn [app]. now rewrite app_nil_r.
    + unfold make, len. now rewrite repeat_length, Nat2Z.id.
  - cbn [app]. rewrite app_nil_r. reflexivity.
Qed.

(** ** Dolby Vision: decoding what was encoded *)

Lemma dovi_bytes_checked :
  all_below 128 (fun profile => all_below 64 (dovi_bytes_check profile)) = true.
Proof. vm_compute. reflexivity. Qed.

Lemma dovi_bytes_decode (profile level : Z) (rpu el bl : bool) :
  0 <= profile < 128 -> 0 <= level < 64 ->
  let t2 := dovi_byte2 profile level in
  let t3 := dovi_byte3 level rpu el bl in
  Z.shiftr t2 1 = profile /\
  Z.lor (u8 (Z.shiftl (Z.land t2 1) 5)) (Z.shiftr (Z.land t3 248) 3) = level /\
  (0 <? Z.land t3 4) = rpu /\
  (0 <? Z.land t3 2) = el /\
  (0 <? Z.land t3 1) = bl.
Proof.
  intros Hp Hl. cbv zeta.
  pose proof (all_below_2 128 64 dovi_bytes_check dovi_bytes_checked profile level Hp Hl) as F.
  unfold dovi_bytes_check in F.
  rewrite forallb_forall in F. specialize (F rpu).
  rewrite forallb_forall in F.
  assert (Hin : forall x : bool, In x [true; false]) by (intros []; cbn; auto).
  specialize (F (Hin rpu) el (Hin el)).
  rewrite forallb_forall in F. specialize (F bl (Hin bl)). cbv zeta in F.
  repeat (apply andb_true_iff in F; destruct F as [F ?]).
  repeat split;
    first [ apply Z.eqb_eq; assumption | apply Bool.eqb_prop; assumption ].
Qed.

Lemma dovi_id_decode (x : Z) : 0 <= x < 16 -> Z.shiftr (u8 (u8 (Z.shiftl x 4))) 4 = x.
Proof.
  intros H. apply Z.eqb_eq.
  apply (all_below_spec 16 (fun x => Z.shiftr (u8 (u8 (Z.shiftl x 4))) 4 =? x));
    [reflexivity | exact H].
Qed.

Lemma dovi_reads_wire (b0 b : dovi.DOVIDecoderConfigurationRecord) :
  dovi_in_range b ->
  reads dovi.RecordRead b0 (dovi_wire b) tt b.
Proof.
  intros (Hma & Hmi & Hp & Hl & Hid).
  unfold dovi.RecordRead.
  rewrite <- (app_nil_r (dovi_wire b)).
  eapply reads_bind; [apply reads_Read; reflexivity | ].
  eapply reads_final; [apply reads_assign | ].
  unfold dovi_wire. cbn [app]. rewrite ?at_S, ?at_0, !b2z_z2b.
  destruct (dovi_bytes_decode (dovi.Profile b) (dovi.Level b) (dovi.RPUPresent b)
                              (dovi.ELPresent b) (dovi.BLPresent b) Hp Hl)
    as (E1 & E2 & E3 & E4 & E5).
  cbv zeta in E1, E2, E3, E4, E5. unfold dovi_byte2, dovi_byte3 in E1, E2, E3, E4, E5.
  rewrite E1, E2, E3, E4, E5.
  rewrite dovi_id_decode by exact Hid.
  rewrite !u8_small by lia.
  destruct b. reflexivity.
Qed.

(** * The claims *)

(** ** The record builder *)

(** Claim C5.  The spec asks the HEVC record builder to fail with a
    dedicated [MissingParameterSet] error when it is given no SPS.  The
    builder indexes [spsNalus[0]] before anything else: with an empty SPS
    sequence it stops with the run-time panic "index out of range [0]
    with length 0", whatever the parser, the other parameter sets and the
    completeness flags are; it returns no error value. *)
Theorem C5_builder_empty_sps_panics :
  forall (parse_error : Type)
         (ParseSPSNALUnit : list byte -> hevc.SPS * option parse_error)
         (NALU_VPS NALU_SPS NALU_PPS : hevc.NaluType)
         (vpsNalus ppsNalus : list (list byte))
         (vpsComplete spsComplete ppsComplete : bool),
    hevc.CreateHEVCDecoderConfigurationRecord
      parse_error ParseSPSNALUnit NALU_VPS NALU_SPS NALU_PPS
      vpsNalus [] ppsNalus vpsComplete spsComplete ppsComplete
    = Panics_index_out_of_range 0 0.
Proof. reflexivity. Qed.

(** ** Dolby Vision *)

(** Claim C9.  For the Dolby Vision record of scenario B, [RecordSize]
    is 24; [RecordWrite] writes the 24 bytes 01 00 0A 1D 20 followed by
    19 zero bytes; and [RecordRead] gives back the seven fields from
    every source whose first four bytes are 01 00 0A 1D, whose fifth
    byte has 2 as its high nibble and whose next 19 bytes are
    arbitrary. *)
Theorem C9_dovi_scenario_B :
  dovi.RecordSize dovi_scenario_B = 24 /\
  (forall w, (24 <= io.room w)%N ->
     dovi.RecordWrite dovi_scenario_B w
     = (Ok tt, io.mkWriter (io.written w ++ [x01; x00; x0a; x1d; x20] ++ repeat x00 19)
                           (io.room w - 24))) /\
  (forall b0 b4 pad rest,
     Z.shiftr (b2z b4) 4 = 2 -> length pad = 19%nat ->
     dovi.RecordRead (b0, [x01; x00; x0a; x1d; b4] ++ pad ++ rest)
     = (Ok tt, (dovi_scenario_B, rest))).
Proof.
  split; [reflexivity | ]. split.
  - intros w Hw.
    rewrite (emits_enough_room _ _ w (dovi_RecordWrite_emits dovi_scenario_B)).
    + reflexivity.
    + exact Hw.
  - intros b0 b4 pad rest Hb4 Hpad.
    rewrite app_assoc.
    apply (reads_final dovi.RecordRead b0 ([x01; x00; x0a; x1d; b4] ++ pad) tt
             {| dovi.VersionMajor := 1; dovi.VersionMinor := 0; dovi.Profile := 5;
                dovi.Level := 3; dovi.RPUPresent := true; dovi.ELPresent := false;
                dovi.BLPresent := true;
                dovi.BLSignalCompatibilityID := Z.shiftr (b2z b4) 4 |}).
    + unfold dovi.RecordRead.
      rewrite <- (app_nil_r ([x01; x00; x0a; x1d; b4] ++ pad)).
      eapply reads_bind.
      * apply reads_Read. rewrite length_app, Hpad. reflexivity.
      * eapply reads_final; [apply reads_assign | reflexivity].
    + rewrite Hb4. reflexivity.
Qed.

Lemma C9_dovi_scenario_B_witness :
  (24 <= io.room (sink 24))%N /\
  dovi.RecordWrite dovi_scenario_B (sink 24)
  = (Ok tt, io.mkWriter ([x01; x00; x0a; x1d; x20] ++ repeat x00 19) 0) /\
  Z.shiftr (b2z x2f) 4 = 2 /\ length (repeat xff 19) = 19%nat /\
  dovi.RecordRead (dovi.zero, [x01; x00; x0a; x1d; x2f] ++ repeat xff 19 ++ [])
  = (Ok tt, (dovi_scenario_B, [])).
Proof.
  split; [vm_compute; discriminate | ].
  split; [apply (proj1 (proj2 C9_dovi_scenario_B) (sink 24)); vm_compute; discriminate | ].
  split; [reflexivity | ].
  split; [reflexivity | ].
  apply (proj2 (proj2 C9_dovi_scenario_B) dovi.zero x2f (repeat xff 19) []); reflexivity.
Defined.

(** ** HEVC: reserved bits and the round trip *)

Lemma hevc_in_range_high_tier : hevc_in_range hevc_high_tier.
Proof.
  unfold hevc_in_range, hevc_high_tier. hevc_fields.
  repeat split; try lia; try reflexivity. constructor.
Qed.

(** Claim C1.  The spec asks that decoding the encoding of a record with
    in-range fields gives the record back.  For AVC and Dolby Vision it
    does ([avc_reads_wire], [dovi_reads_wire]).  For HEVC it does not:
    the in-range record [hevc_high_tier] is encoded without error into
    23 bytes, and decoding these 23 bytes succeeds with a different
    record, in which the tier flag is false, the profile indicator is 17
    instead of 1, the parallelism type and the chroma format are 3
    instead of 0 and 1, and both bit depths are 7 instead of 2. *)
Theorem C1_hevc_round_trip_differs :
  hevc_in_range hevc_high_tier /\
  exists out decoded,
    hevc.RecordWrite hevc_high_tier (sink 23) = (Ok tt, io.mkWriter out 0) /\
    hevc.RecordRead (hevc.zero, out) = (Ok tt, (decoded, [])) /\
    decoded <> hevc_high_tier /\
    hevc.GeneralTierFlag decoded = false /\
    hevc.GenertalProfileIndicator decoded = 17 /\
    hevc.ParallelismType decoded = 3 /\
    hevc.ChromaFormatIndicator decoded = 3 /\
    hevc.BitDepthLumaMinus8 decoded = 7 /\
    hevc.BitDepthChromaMinus8 decoded = 7.
Proof.
  split; [apply hevc_in_range_high_tier | ].
  exists (hevc_wire hevc_high_tier), (hevc_decoded hevc_high_tier).
  split; [vm_compute; reflexivity | ].
  split.
  - pose proof (hevc_reads_wire hevc.zero hevc_high_tier hevc_in_range_high_tier []) as H.
    rewrite app_nil_r in H. exact H.
  - split; [ | repeat split].
    intros H. apply (f_equal hevc.ParallelismType) in H. discriminate H.
Qed.

Lemma u8_lor_63 (x : Z) : 0 <= x < 4 -> u8 (Z.lor x 63) = 63.
Proof.
  intros H. apply Z.eqb_eq.
  apply (all_below_spec 4 (fun x => u8 (Z.lor x 63) =? 63)); [reflexivity | exact H].
Qed.

Lemma u8_lor_31 (x : Z) : 0 <= x < 8 -> u8 (Z.lor x 31) = 31.
Proof.
  intros H. apply Z.eqb_eq.
  apply (all_below_spec 8 (fun x => u8 (Z.lor x 31) =? 31)); [reflexivity | exact H].
Qed.

Lemma hevc_min_spatial_reserved (v : Z) :
  0 <= v < 4096 -> Z.shiftr (u8 (Z.shiftr (Z.lor v (Z.shiftl 15 12)) 8)) 4 = 15.
Proof.
  intros H. apply Z.eqb_eq.
  apply (all_below_spec 4096
           (fun v => Z.shiftr (u8 (Z.shiftr (Z.lor v (Z.shiftl 15 12)) 8)) 4 =? 15));
    [vm_compute; reflexivity | exact H].
Qed.

(** Claim C2.  The spec asks that HEVC encode writes all ones into every
    reserved bit region and leaves the adjacent field bits equal to the
    field.  This holds of the four reserved bits next to
    min-spatial-segmentation (the high nibble of byte 13 is 15 and bytes
    13 and 14 carry the field).  It fails for the other four regions:
    for every record whose parallelism type, chroma format and bit
    depths are within their widths, byte 15 and byte 16 are 0x3F and
    byte 17 and byte 18 are 0x1F whatever the fields are, so the
    reserved high bits (six in bytes 15 and 16, five in bytes 17 and 18)
    are written as 001111 and 00011 and the field bits as all ones. *)
Theorem C2_hevc_reserved_bits :
  forall b w w',
    0 <= hevc.MinSpatialSegmentationIndicator b < 4096 ->
    0 <= hevc.ParallelismType b < 4 ->
    0 <= hevc.ChromaFormatIndicator b < 4 ->
    0 <= hevc.BitDepthLumaMinus8 b < 8 ->
    0 <= hevc.BitDepthChromaMinus8 b < 8 ->
    hevc.RecordWrite b w = (Ok tt, w') ->
    exists out,
      io.written w' = io.written w ++ out /\
      Z.shiftr out@13 4 = 15 /\
      Z.lor (u16 (Z.shiftl (Z.land out@13 15) 8)) out@14
        = hevc.MinSpatialSegmentationIndicator b /\
      out@15 = 63 /\ out@16 = 63 /\ out@17 = 31 /\ out@18 = 31 /\
      Z.shiftr out@15 2 <> 63 /\ Z.shiftr out@16 2 <> 63 /\
      Z.shiftr out@17 3 <> 31 /\ Z.shiftr out@18 3 <> 31.
Proof.
  intros b w w' Hms Hpt Hcf Hbl Hbc E.
  destruct (emits_success _ _ w w' (hevc_RecordWrite_emits b) E) as (Hw & _ & _).
  exists (hevc_wire b). split; [exact Hw | ].
  unfold hevc_wire, hevc_wire_header, binary.PutUint32, binary.PutUint16. cbn [app].
  rewrite ?at_S, ?at_0, !b2z_z2b.
  rewrite (u8_lor_63 _ Hpt), (u8_lor_63 _ Hcf), (u8_lor_31 _ Hbl), (u8_lor_31 _ Hbc).
  split; [apply hevc_min_spatial_reserved, Hms | ].
  split; [apply (hevc_min_spatial _ Hms) | ].
  repeat split; discriminate.
Qed.

Lemma C2_hevc_reserved_bits_witness :
  exists out,
    io.written (io.mkWriter (hevc_wire hevc_high_tier) 0) = io.written (sink 23) ++ out /\
    Z.shiftr out@13 4 = 15 /\
    Z.lor (u16 (Z.shiftl (Z.land out@13 15) 8)) out@14
      = hevc.MinSpatialSegmentationIndicator hevc_high_tier /\
    out@15 = 63 /\ out@16 = 63 /\ out@17 = 31 /\ out@18 = 31 /\
    Z.shiftr out@15 2 <> 63 /\ Z.shiftr out@16 2 <> 63 /\
    Z.shiftr out@17 3 <> 31 /\ Z.shiftr out@18 3 <> 31.
Proof.
  apply (C2_hevc_reserved_bits hevc_high_tier (sink 23)
           (io.mkWriter (hevc_wire hevc_high_tier) 0));
    solve [ cbn; lia | vm_compute; reflexivity ].
Defined.

Lemma hevc_in_range_scenario_A (tv ts tp : Z) (vps sps pps : list byte) :
  0 <= tv < 64 -> 0 <= ts < 64 -> 0 <= tp < 64 ->
  length vps = 5%nat -> length sps = 20%nat -> length pps = 10%nat ->
  hevc_in_range (hevc_scenario_A tv ts tp vps sps pps).
Proof.
  intros Hv Hs Hp Lv Ls Lp.
  unfold hevc_in_range, hevc_scenario_A. hevc_fields.
  repeat split; try lia; try reflexivity.
  repeat constructor; hevc_fields; try lia; unfold len; rewrite ?Lv, ?Ls, ?Lp; lia.
Qed.

Lemma len_hevc_wire_scenario_A (tv ts tp : Z) (vps sps pps : list byte) :
  length vps = 5%nat -> length sps = 20%nat -> length pps = 10%nat ->
  len (hevc_wire (hevc_scenario_A tv ts tp vps sps pps)) = 73.
Proof.
  intros Lv Ls Lp.
  unfold hevc_wire. rewrite len_app, len_hevc_wire_header, len_hevc_wire_arrays.
  unfold hevc_scenario_A. hevc_fields. cbn [fold_right]. hevc_fields.
  rewrite !payload_len_cons. change (payload_len []) with 0.
  rewrite !len_cons, !len_nil. unfold len. rewrite Lv, Ls, Lp. reflexivity.
Qed.

(** Claim C8.  For the HEVC record of scenario A, whatever the three
    6-bit type tags and the payloads of 5, 20 and 10 bytes are,
    [RecordSize] is 73 and [RecordWrite] writes 73 bytes.  Decoding these
    73 bytes succeeds but does not give every field back: the decoded
    record has parallelism type 3, chroma format 3 and both bit depths 7
    where the record has 0. *)
Theorem C8_hevc_scenario_A :
  forall (tv ts tp : Z) (vps sps pps : list byte),
    0 <= tv < 64 -> 0 <= ts < 64 -> 0 <= tp < 64 ->
    length vps = 5%nat -> length sps = 20%nat -> length pps = 10%nat ->
    let r := hevc_scenario_A tv ts tp vps sps pps in
    hevc.RecordSize r = 73 /\
    exists out decoded,
      length out = 73%nat /\
      hevc.RecordWrite r (sink 73) = (Ok tt, io.mkWriter out 0) /\
      hevc.RecordRead (hevc.zero, out) = (Ok tt, (decoded, [])) /\
      decoded <> r /\
      hevc.ParallelismType decoded = 3 /\ hevc.ParallelismType r = 0 /\
      hevc.ChromaFormatIndicator decoded = 3 /\ hevc.ChromaFormatIndicator r = 0 /\
      hevc.BitDepthLumaMinus8 decoded = 7 /\ hevc.BitDepthLumaMinus8 r = 0 /\
      hevc.BitDepthChromaMinus8 decoded = 7 /\ hevc.BitDepthChromaMinus8 r = 0 /\
      hevc.NaluArrays decoded = hevc.NaluArrays r.
Proof.
  intros tv ts tp vps sps pps Hv Hs Hp Lv Ls Lp r.
  pose proof (len_hevc_wire_scenario_A tv ts tp vps sps pps Lv Ls Lp) as Hlen.
  fold r in Hlen.
  split.
  - rewrite hevc_RecordSize_exact, Hlen. reflexivity.
  - exists (hevc_wire r), (hevc_decoded r).
    assert (Hl : length (hevc_wire r) = 73%nat) by (unfold len in Hlen; lia).
    split; [exact Hl | ]. split.
    + rewrite (emits_enough_room _ _ (sink 73) (hevc_RecordWrite_emits r)).
      * cbn [sink io.written io.room app]. rewrite Hl. reflexivity.
      * cbn [sink io.room]. rewrite Hl. reflexivity.
    + split.
      * pose proof (hevc_reads_wire hevc.zero r
                      (hevc_in_range_scenario_A tv ts tp vps sps pps Hv Hs Hp Lv Ls Lp) [])
          as H.
        rewrite app_nil_r in H. exact H.
      * split; [ | repeat split].
        intros H. apply (f_equal hevc.ParallelismType) in H. discriminate H.
Qed.

Lemma C8_hevc_scenario_A_witness :
  let r := hevc_scenario_A 32 33 34 (repeat x40 5) (repeat x42 20) (repeat x44 10) in
  hevc.RecordSize r = 73 /\
  exists out decoded,
    length out = 73%nat /\
    hevc.RecordWrite r (sink 73) = (Ok tt, io.mkWriter out 0) /\
    hevc.RecordRead (hevc.zero, out) = (Ok tt, (decoded, [])) /\
    decoded <> r /\
    hevc.ParallelismType decoded = 3 /\ hevc.ParallelismType r = 0 /\
    hevc.ChromaFormatIndicator decoded = 3 /\ hevc.ChromaFormatIndicator r = 0 /\
    hevc.BitDepthLumaMinus8 decoded = 7 /\ hevc.BitDepthLumaMinus8 r = 0 /\
    hevc.BitDepthChromaMinus8 decoded = 7 /\ hevc.BitDepthChromaMinus8 r = 0 /\
    hevc.NaluArrays decoded = hevc.NaluArrays r.
Proof.
  apply (C8_hevc_scenario_A 32 33 34 (repeat x40 5) (repeat x42 20) (repeat x44 10));
    solve [ lia | reflexivity ].
Defined.

(** ** Sizes and written lengths *)

Lemma fold_right_repeat_sum {A : Type} (f : A -> Z) (a : A) (n : nat) :
  fold_right (fun e acc => f e + acc) 0 (repeat a n) = Z.of_nat n * f a.
Proof.
  induction n as [|n IH].
  - reflexivity.
  - cbn [repeat fold_right]. rewrite IH. lia.
Qed.

Lemma payload_len_repeat (u : list byte) (n : nat) :
  payload_len (repeat u n) = Z.of_nat n * len u.
Proof. unfold payload_len. apply (fold_right_repeat_sum (fun u => len u)). Qed.

Lemma len_repeat {A : Type} (x : A) (n : nat) : len (repeat x n) = Z.of_nat n.
Proof. unfold len. now rewrite repeat_length. Qed.

Lemma len_hevc_wire_huge : len (hevc_wire hevc_huge) = 4562358329.
Proof.
  unfold hevc_wire. rewrite len_app, len_hevc_wire_header, len_hevc_wire_arrays.
  unfold hevc_huge. cbn [hevc.NaluArrays hevc.set_NaluArrays].
  rewrite (fold_right_repeat_sum (fun e => payload_len (hevc.NALUs e))).
  rewrite (fold_right_repeat_sum (fun e => len (hevc.NALUs e))).
  cbn [hevc.NALUs].
  rewrite payload_len_repeat, !len_repeat, !Z2Nat.id by lia.
  reflexivity.
Qed.

Lemma hevc_in_range_huge : hevc_in_range hevc_huge.
Proof.
  unfold hevc_in_range, hevc_huge. hevc_fields. unfold hevc.zero. hevc_fields.
  rewrite len_repeat.
  repeat split; try lia; try reflexivity.
  apply Forall_repeat. unfold hevc_array_ok. hevc_fields.
  rewrite len_repeat, Z2Nat.id by lia.
  repeat split; try lia.
  apply Forall_repeat. rewrite len_repeat, Z2Nat.id by lia. lia.
Qed.

Lemma written_with_room (m : M io.Writer unit) (p : list byte) (w w' : io.Writer) :
  emits m p -> m w = (Ok tt, w') ->
  exists out, io.written w' = io.written w ++ out /\ out = p.
Proof.
  intros Hm E. destruct (emits_success m p w w' Hm E) as (H & _ & _).
  exists p. split; [exact H | reflexivity].
Qed.

(** Claim C3, as the code has it.  The spec says that [RecordSize]
    always equals the number of bytes [RecordWrite] writes.
    [RecordSize] is a [uint32]: for each of the three record kinds, when
    [RecordWrite] succeeds, [RecordSize] is the number of bytes written
    reduced modulo [2^32], and it is that number itself when fewer than
    [2^32] bytes are written, which is always so for Dolby Vision (24
    bytes). *)
Theorem C3_size_is_written_length_mod_2_32 :
  (forall r w w',
     avc.RecordWrite r w = (Ok tt, w') ->
     exists out, io.written w' = io.written w ++ out /\
                 avc.RecordSize r = len out mod 2 ^ 32 /\
                 (len out < 2 ^ 32 -> avc.RecordSize r = len out)) /\
  (forall r w w',
     hevc.RecordWrite r w = (Ok tt, w') ->
     exists out, io.written w' = io.written w ++ out /\
                 hevc.RecordSize r = len out mod 2 ^ 32 /\
                 (len out < 2 ^ 32 -> hevc.RecordSize r = len out)) /\
  (forall r w w',
     dovi.RecordWrite r w = (Ok tt, w') ->
     exists out, io.written w' = io.written w ++ out /\
                 dovi.RecordSize r = len out).
Proof.
  split; [ | split].
  - intros r w w' E.
    destruct (written_with_room _ _ w w' (avc_RecordWrite_emits r) E) as (out & Hw & ->).
    exists (avc_wire r). split; [exact Hw | ].
    rewrite avc_RecordSize_exact. split; [reflexivity | ].
    intros H. apply u32_small. pose proof (len_nonneg (avc_wire r)).
    change (2 ^ 32) with 4294967296 in H. lia.
  - intros r w w' E.
    destruct (written_with_room _ _ w w' (hevc_RecordWrite_emits r) E) as (out & Hw & ->).
    exists (hevc_wire r). split; [exact Hw | ].
    rewrite hevc_RecordSize_exact. split; [reflexivity | ].
    intros H. apply u32_small. pose proof (len_nonneg (hevc_wire r)).
    change (2 ^ 32) with 4294967296 in H. lia.
  - intros r w w' E.
    destruct (written_with_room _ _ w w' (dovi_RecordWrite_emits r) E) as (out & Hw & ->).
    exists (dovi_wire r). split; [exact Hw | apply dovi_RecordSize_exact].
Qed.

Lemma C3_size_is_written_length_mod_2_32_witness :
  (exists out, io.written (io.mkWriter (avc_wire avc_high) 0)
               = io.written (sink 21) ++ out /\
               avc.RecordSize avc_high = len out mod 2 ^ 32 /\
               (len out < 2 ^ 32 -> avc.RecordSize avc_high = len out)) /\
  (exists out, io.written (io.mkWriter (hevc_wire hevc_high_tier) 0)
               = io.written (sink 23) ++ out /\
               hevc.RecordSize hevc_high_tier = len out mod 2 ^ 32 /\
               (len out < 2 ^ 32 -> hevc.RecordSize hevc_high_tier = len out)) /\
  (exists out, io.written (io.mkWriter (dovi_wire dovi_scenario_B) 0)
               = io.written (sink 24) ++ out /\
               dovi.RecordSize dovi_scenario_B = len out).
Proof.
  split; [ | split].
  - apply (proj1 C3_size_is_written_length_mod_2_32 avc_high (sink 21)). vm_compute. reflexivity.
  - apply (proj1 (proj2 C3_size_is_written_length_mod_2_32) hevc_high_tier (sink 23)).
    vm_compute. reflexivity.
  - apply (proj2 (proj2 C3_size_is_written_length_mod_2_32) dovi_scenario_B (sink 24)).
    vm_compute. reflexivity.
Defined.

(** Claim C3, as the spec states it, fails.  The HEVC record [hevc_huge]
    has every field within its width (17 NAL arrays of 4095 NAL units
    of 65535 bytes).  On a sink with room for [2^33] bytes [RecordWrite]
    succeeds and writes 4562358329 bytes, and [RecordSize] returns
    267391033. *)
Lemma C3_size_wraps_counterexample :
  hevc_in_range hevc_huge /\
  exists w',
    hevc.RecordWrite hevc_huge (sink 8589934592) = (Ok tt, w') /\
    len (io.written w') = 4562358329 /\
    hevc.RecordSize hevc_huge = 267391033 /\
    hevc.RecordSize hevc_huge <> len (io.written w').
Proof.
  split; [apply hevc_in_range_huge | ].
  pose proof len_hevc_wire_huge as Hlen.
  eexists. split.
  - apply (emits_enough_room _ _ (sink 8589934592) (hevc_RecordWrite_emits hevc_huge)).
    cbn [sink io.room]. unfold len in Hlen. lia.
  - cbn [sink io.written app].
    rewrite hevc_RecordSize_exact, Hlen.
    split; [reflexivity | ]. split; [reflexivity | ]. discriminate.
Qed.

(** ** Values wider than their field *)

Lemma hevc_in_range_one_nalu (nalu : list byte) :
  len nalu < 65536 -> hevc_in_range (hevc_one_nalu nalu).
Proof.
  intros H. unfold hevc_in_range, hevc_one_nalu, hevc_high_tier. hevc_fields.
  repeat split; try lia; try reflexivity.
  repeat constructor; hevc_fields; try lia; try reflexivity.
Qed.

(** Claim C4, as the code has it.  The spec asks encode to fail with
    [FieldOverflow] when a value exceeds its bit width.  The encoders
    check no width: the only error of [RecordWrite], for HEVC and for
    AVC, is the write error of a sink without enough room, and on a sink
    with enough room [RecordWrite] succeeds for every record.  The NAL
    units of an HEVC record with in-range fields, which may be up to
    65535 bytes long, are decoded back exactly. *)
Theorem C4_encode_fails_only_on_the_sink :
  (forall b w e w',
     hevc.RecordWrite b w = (Err e, w') ->
     e = ErrShortWrite /\ (io.room w < N.of_nat (length (hevc_wire b)))%N) /\
  (forall b w,
     (N.of_nat (length (hevc_wire b)) <= io.room w)%N ->
     exists w', hevc.RecordWrite b w = (Ok tt, w') /\
                io.written w' = io.written w ++ hevc_wire b) /\
  (forall b w e w',
     avc.RecordWrite b w = (Err e, w') ->
     e = ErrShortWrite /\ (io.room w < N.of_nat (length (avc_wire b)))%N) /\
  (forall b w,
     (N.of_nat (length (avc_wire b)) <= io.room w)%N ->
     exists w', avc.RecordWrite b w = (Ok tt, w') /\
                io.written w' = io.written w ++ avc_wire b) /\
  (forall b b0 rest,
     hevc_in_range b ->
     exists b', hevc.RecordRead (b0, hevc_wire b ++ rest) = (Ok tt, (b', rest)) /\
                hevc.NaluArrays b' = hevc.NaluArrays b).
Proof.
  split; [ | split; [ | split; [ | split]]].
  - intros b w e w' E. exact (emits_failure _ _ w w' e (hevc_RecordWrite_emits b) E).
  - intros b w H. eexists. split.
    + apply (emits_enough_room _ _ w (hevc_RecordWrite_emits b) H).
    + reflexivity.
  - intros b w e w' E. exact (emits_failure _ _ w w' e (avc_RecordWrite_emits b) E).
  - intros b w H. eexists. split.
    + apply (emits_enough_room _ _ w (avc_RecordWrite_emits b) H).
    + reflexivity.
  - intros b b0 rest H. exists (hevc_decoded b). split.
    + apply (hevc_reads_wire b0 b H).
    + reflexivity.
Qed.

Lemma C4_encode_fails_only_on_the_sink_witness :
  (ErrShortWrite = ErrShortWrite /\
   (io.room (sink 10) < N.of_nat (length (hevc_wire hevc_high_tier)))%N) /\
  (exists w', hevc.RecordWrite hevc_high_tier (sink 23) = (Ok tt, w') /\
              io.written w' = io.written (sink 23) ++ hevc_wire hevc_high_tier) /\
  (ErrShortWrite = ErrShortWrite /\
   (io.room (sink 10) < N.of_nat (length (avc_wire avc_high)))%N) /\
  (exists w', avc.RecordWrite avc_high (sink 21) = (Ok tt, w') /\
              io.written w' = io.written (sink 21) ++ avc_wire avc_high) /\
  (exists b', hevc.RecordRead
                (hevc.zero, hevc_wire (hevc_one_nalu (repeat xab (Z.to_nat 65535))) ++ [])
              = (Ok tt, (b', [])) /\
              hevc.NaluArrays b' = hevc.NaluArrays (hevc_one_nalu (repeat xab (Z.to_nat 65535)))).
Proof.
  destruct C4_encode_fails_only_on_the_sink as (H1 & H2 & H3 & H4 & H5).
  split; [ | split; [ | split; [ | split]]].
  - apply (H1 hevc_high_tier (sink 10) ErrShortWrite
              (io.mkWriter (firstn 10 (hevc_wire hevc_high_tier)) 0)).
    vm_compute. reflexivity.
  - apply (H2 hevc_high_tier (sink 23)). vm_compute. discriminate.
  - apply (H3 avc_high (sink 10) ErrShortWrite
              (io.mkWriter (firstn 10 (avc_wire avc_high)) 0)).
    vm_compute. reflexivity.
  - apply (H4 avc_high (sink 21)). vm_compute. discriminate.
  - apply (H5 (hevc_one_nalu (repeat xab (Z.to_nat 65535))) hevc.zero []).
    apply hevc_in_range_one_nalu. rewrite len_repeat, Z2Nat.id by lia. lia.
Defined.

(** Claim C4, as the spec states it, fails.  On a sink with enough room
    [RecordWrite] succeeds for an HEVC record with a NAL unit of 65536
    bytes: it writes the header, the array byte A1, the NAL unit count
    00 01, the length 00 00 and then the 65536 bytes.  It also succeeds
    for an AVC record with 32 sequence parameter sets, whose count byte
    is written as E0. *)
Lemma C4_oversize_is_written_counterexample :
  (exists w',
     hevc.RecordWrite (hevc_one_nalu (repeat xab (Z.to_nat 65536))) (sink 100000)
     = (Ok tt, w') /\
     len (repeat xab (Z.to_nat 65536)) = 65536 /\
     io.written w'
     = hevc_wire_header (hevc_one_nalu (repeat xab (Z.to_nat 65536)))
       ++ [xa1; x00; x01; x00; x00] ++ repeat xab (Z.to_nat 65536)) /\
  (len (avc.SequenceParameterSets (avc_many_sps 32)) = 32 /\
   avc.RecordWrite (avc_many_sps 32) (sink 71)
   = (Ok tt, io.mkWriter ([x00; x00; x00; x00; xfc; xe0] ++ repeat x00 65) 0)).
Proof.
  split.
  - assert (Hlen : len (repeat xab (Z.to_nat 65536)) = 65536)
      by (rewrite len_repeat, Z2Nat.id by lia; reflexivity).
    set (nalu := repeat xab (Z.to_nat 65536)) in *.
    assert (Hwire : hevc_wire (hevc_one_nalu nalu)
                    = hevc_wire_header (hevc_one_nalu nalu)
                      ++ [xa1; x00; x01; x00; x00] ++ nalu).
    { unfold hevc_wire. apply f_equal.
      unfold hevc_one_nalu, hevc_wire_arrays, hevc_wire_array, wire_unit.
      hevc_fields. cbn [map concat]. hevc_fields. cbn [map concat].
      rewrite Hlen, len_cons, len_nil, !app_nil_r. reflexivity. }
    eexists. split; [ | split; [exact Hlen | ]].
    + apply (emits_enough_room _ _ (sink 100000) (hevc_RecordWrite_emits (hevc_one_nalu nalu))).
      rewrite Hwire, !length_app. unfold len in Hlen.
      change (length (hevc_wire_header (hevc_one_nalu nalu))) with 23%nat.
      cbn [sink io.room length]. lia.
    + cbn [sink io.written app]. exact Hwire.
  - split; vm_compute; reflexivity.
Qed.

(** ** Sources that end early *)

Ltac avc_fields :=
  cbn [avc.ConfigurationVersion avc.AVCProfileIndication avc.ProfileCompatibility
       avc.AVCLevelIndication avc.LengthSizeMinusOne avc.SequenceParameterSets
       avc.PictureParameterSets avc.ChromaFormat avc.BitDepthLumaMinus8
       avc.BitDepthChromaMinus8 avc.SequenceParameterSetExts avc.NALUnit
       avc.set_SequenceParameterSets avc.set_PictureParameterSets
       avc.set_SequenceParameterSetExts avc.set_NALUnit].

Lemma at_firstn (n i : nat) (r : list byte) : (i < n)%nat -> (firstn n r)@i = r@i.
Proof.
  intros H. unfold at_. rewrite nth_firstn.
  destruct (Nat.ltb_spec i n); [reflexivity | lia].
Qed.

Lemma Read_enough {B : Type} (n : nat) (b : B) (r : io.Reader) :
  (n <= length r)%nat ->
  binary.Read n (b, r) = (Ok (firstn n r), (b, skipn n r)).
Proof.
  intros H. unfold binary.Read.
  rewrite ReadFull_enough by (now rewrite repeat_length).
  now rewrite repeat_length.
Qed.

Lemma avc_RecordRead_keeps_header (b : avc.AVCDecoderConfigurationRecord) (r : io.Reader) :
  (6 <= length r)%nat ->
  avc_header_kept r (fst (snd (avc.RecordRead (b, r)))).
Proof.
  intros Hr. unfold avc.RecordRead. unfold bind at 1.
  rewrite Read_enough by exact Hr.
  match goal with
  | |- avc_header_kept r (fst (snd (?m ?s))) =>
      enough (Hh : hoare (fun _ => True) m (avc_header_kept r)) by exact (Hh b (skipn 6 r) I)
  end.
  cbv zeta.
  eapply hoare_bind; [ | | intros b1 Hb1; exact Hb1].
  { apply (hoare_assign _ (fun _ => True) (avc_header_kept r)). intros b1 _.
    unfold avc_header_kept. avc_fields.
    rewrite !at_firstn by lia.
    rewrite len_make by (apply Z.land_nonneg; pose proof (at_range r 5); lia).
    repeat split. }
  intros _.
  eapply hoare_bind; [ | | intros b1 Hb1; exact Hb1].
  { apply hoare_read_entries. intros b1 j f (H1 & H2 & H3 & H4 & H5 & H6).
    unfold avc_header_kept. avc_fields. rewrite len_upd. repeat split; assumption. }
  intros _.
  eapply hoare_bind; [apply hoare_Read_uint8 | | auto]. intros n.
  eapply hoare_bind; [ | | intros b1 Hb1; exact Hb1].
  { apply (hoare_assign _ (avc_header_kept r) (avc_header_kept r)). intros b1 Hb1. exact Hb1. }
  intros _.
  eapply hoare_bind; [ | | intros b1 Hb1; exact Hb1].
  { apply hoare_read_entries. intros b1 j f Hb1. exact Hb1. }
  intros _.
  eapply hoare_bind; [apply hoare_load | | auto]. intros profile.
  destruct (avc.has_ext profile).
  - eapply hoare_bind; [apply hoare_Read | | auto]. intros tmp4. cbv zeta.
    eapply hoare_bind; [ | | intros b1 Hb1; exact Hb1].
    { apply (hoare_assign _ (avc_header_kept r) (avc_header_kept r)).
      intros b1 Hb1. exact Hb1. }
    intros _. apply hoare_read_entries. intros b1 j f Hb1. exact Hb1.
  - apply hoare_ret.
Qed.

Lemma hevc_RecordRead_keeps_header (b : hevc.HEVCDecoderConfigurationRecord) (r : io.Reader) :
  (23 <= length r)%nat ->
  hevc_header_kept r (fst (snd (hevc.RecordRead (b, r)))).
Proof.
  intros Hr. unfold hevc.RecordRead. unfold bind at 1.
  rewrite Read_enough by exact Hr.
  match goal with
  | |- hevc_header_kept r (fst (snd (?m ?s))) =>
      enough (Hh : hoare (fun _ => True) m (hevc_header_kept r)) by exact (Hh b (skipn 23 r) I)
  end.
  cbv zeta.
  eapply hoare_bind; [ | | intros b1 Hb1; exact Hb1].
  { apply (hoare_assign _ (fun _ => True) (hevc_header_kept r)). intros b1 _.
    unfold hevc_header_kept. hevc_fields.
    rewrite !at_firstn by lia.
    rewrite len_make by (pose proof (at_range r 22); lia).
    repeat split. }
  intros _. apply hoare_for_range. intros i. unfold hevc.read_array.
  eapply hoare_bind; [apply hoare_Read | | auto]. intros tmp. cbv zeta.
  eapply hoare_bind; [ | | intros b1 Hb1; exact Hb1].
  { apply (hoare_assign _ (hevc_header_kept r) (hevc_header_kept r)).
    intros b1 (H1 & H2 & H3 & H4). unfold hevc_header_kept. hevc_fields.
    rewrite len_upd. repeat split; assumption. }
  intros _. apply hoare_read_entries. intros b1 j f (H1 & H2 & H3 & H4).
  unfold hevc_header_kept. hevc_fields. rewrite len_upd. repeat split; assumption.
Qed.




(** ** AVC: the extension section *)

Lemma avc_has_ext_iff (p : Z) :
  avc.has_ext p = true <-> (p = 100 \/ p = 110 \/ p = 122 \/ p = 144).
Proof.
  unfold avc.has_ext. rewrite !orb_true_iff, !Z.eqb_eq. tauto.
Qed.

Lemma avc_in_range_baseline : avc_in_range avc_baseline.
Proof.
  unfold avc_in_range, avc_baseline, avc_units_ok. avc_fields.
  repeat split; try lia; try reflexivity; try discriminate;
    repeat constructor; avc_fields; reflexivity.
Qed.

Lemma avc_in_range_high : avc_in_range avc_high.
Proof.
  unfold avc_in_range, avc_high, avc_units_ok. avc_fields.
  repeat split; try lia; try reflexivity;
    repeat constructor; avc_fields; reflexivity.
Qed.

(** Claim C7.  The extension section of the AVC record is on the wire
    exactly when the profile indication is 100, 110, 122 or 144, and
    [RecordWrite], [RecordSize] and [RecordRead] agree on it:
    [RecordWrite] writes the base part followed by the section for these
    profiles and by nothing for the others; [RecordSize] counts the
    section under the same test; the section has at least its four
    fixed bytes, and exactly these when there is no SPS extension; and
    [RecordRead], on the encoding of a record with in-range fields,
    reads the section under the same test and gives the record back,
    with the chroma format, the bit depths and the SPS extensions left
    as they were in the receiver, so zero and empty in a fresh one, when
    the profile (66 for instance) does not carry the section. *)
Theorem C7_avc_extension_section :
  (forall p, avc.has_ext p = true <-> (p = 100 \/ p = 110 \/ p = 122 \/ p = 144)) /\
  (forall b w,
     avc.RecordWrite b w
     = io.Write (avc_wire_base b
                 ++ (if avc.has_ext (avc.AVCProfileIndication b)
                     then avc_wire_ext b else [])) w) /\
  (forall b,
     avc.RecordSize b
     = u32 (len (avc_wire_base b)
            + (if avc.has_ext (avc.AVCProfileIndication b)
               then len (avc_wire_ext b) else 0))) /\
  (forall b,
     4 <= len (avc_wire_ext b) /\
     (avc.SequenceParameterSetExts b = [] ->
      avc_wire_ext b = [z2b (Z.lor (avc.ChromaFormat b) 252);
                        z2b (Z.lor (avc.BitDepthLumaMinus8 b) 248);
                        z2b (Z.lor (avc.BitDepthChromaMinus8 b) 248);
                        x00])) /\
  (forall b b0 rest,
     avc_in_range b ->
     avc.RecordRead
       (b0, avc_wire_base b
            ++ (if avc.has_ext (avc.AVCProfileIndication b) then avc_wire_ext b else [])
            ++ rest)
     = (Ok tt, (avc_decoded_into b0 b, rest))) /\
  (forall b rest,
     avc_in_range b -> avc.has_ext (avc.AVCProfileIndication b) = false ->
     exists decoded,
       avc.RecordRead (avc.zero, avc_wire_base b ++ rest) = (Ok tt, (decoded, rest)) /\
       avc.ChromaFormat decoded = 0 /\
       avc.BitDepthLumaMinus8 decoded = 0 /\
       avc.BitDepthChromaMinus8 decoded = 0 /\
       avc.SequenceParameterSetExts decoded = []) /\
  avc.has_ext 66 = false /\ avc.has_ext 100 = true.
Proof.
  split; [exact avc_has_ext_iff | ].
  split; [intros b w; exact (avc_RecordWrite_emits b w) | ].
  split.
  { intros b. rewrite avc_RecordSize_exact. unfold avc_wire. rewrite len_app.
    destruct (avc.has_ext (avc.AVCProfileIndication b)); reflexivity. }
  split.
  { intros b. split.
    - unfold avc_wire_ext. rewrite len_app, !len_cons, len_nil.
      pose proof (len_nonneg (avc_wire_sets (avc.SequenceParameterSetExts b))). lia.
    - intros E. unfold avc_wire_ext. rewrite E. reflexivity. }
  split.
  { intros b b0 rest H. rewrite app_assoc. exact (avc_reads_wire b0 b H rest). }
  split; [ | split; reflexivity].
  intros b rest H E.
  exists (avc_decoded_into avc.zero b).
  pose proof (avc_reads_wire avc.zero b H rest) as R.
  unfold avc_wire in R. unfold avc_decoded_into in *. rewrite E in *.
  rewrite app_nil_r in R.
  split; [exact R | repeat split].
Qed.

Lemma C7_avc_extension_section_witness :
  avc.RecordRead
    (avc.zero, avc_wire_base avc_high
               ++ (if avc.has_ext (avc.AVCProfileIndication avc_high)
                   then avc_wire_ext avc_high else [])
               ++ [])
  = (Ok tt, (avc_decoded_into avc.zero avc_high, [])) /\
  (exists decoded,
     avc.RecordRead (avc.zero, avc_wire_base avc_baseline ++ []) = (Ok tt, (decoded, [])) /\
     avc.ChromaFormat decoded = 0 /\
     avc.BitDepthLumaMinus8 decoded = 0 /\
     avc.BitDepthChromaMinus8 decoded = 0 /\
     avc.SequenceParameterSetExts decoded = []) /\
  avc_wire_ext avc_high = [z2b (Z.lor (avc.ChromaFormat avc_high) 252);
                           z2b (Z.lor (avc.BitDepthLumaMinus8 avc_high) 248);
                           z2b (Z.lor (avc.BitDepthChromaMinus8 avc_high) 248);
                           x00].
Proof.
  destruct C7_avc_extension_section as (_ & _ & _ & H4 & H5 & H6 & _).
  split; [ | split].
  - apply (H5 avc_high avc.zero []). exact avc_in_range_high.
  - apply (H6 avc_baseline []); [exact avc_in_range_baseline | reflexivity].
  - apply (proj2 (H4 avc_high)). reflexivity.
Defined.

(** ** Widths of the fields of a decoded record *)

Lemma hevc_widths_zero : hevc_widths hevc.zero.
Proof.
  unfold hevc_widths, hevc.zero. hevc_fields.
  repeat split; try lia; try reflexivity. constructor.
Qed.

Lemma avc_widths_zero : avc_widths avc.zero.
Proof.
  unfold avc_widths, avc.zero. avc_fields. rewrite len_nil. lia.
Qed.



(** * Further properties of the codecs *)

(** ** Closed forms of the sizes *)

(** X1.  [hevc.RecordSize] in closed form: 23 bytes of header, 3 bytes
    per NAL array, 2 bytes per NAL unit and the bytes of the NAL units,
    the sum taken modulo [2^32]; so 23 for a record without arrays. *)
Theorem X1_hevc_RecordSize_closed_form :
  forall b,
    hevc.RecordSize b
    = (23 + 3 * len (hevc.NaluArrays b)
       + 2 * hevc_nalu_total (hevc.NaluArrays b)
       + hevc_payload_total (hevc.NaluArrays b)) mod 2 ^ 32.
Proof.
  intros b. rewrite hevc_RecordSize_exact. unfold hevc_wire.
  rewrite len_app, len_hevc_wire_header, len_hevc_wire_arrays.
  unfold u32, hevc_nalu_total, hevc_payload_total. f_equal. lia.
Qed.

(** X2.  [avc.RecordSize] in closed form: 7 bytes for the header and
    the PPS count, 2 bytes and its length for every SPS and PPS, and,
    only for the profiles 100, 110, 122 and 144, 4 bytes and 2 bytes and
    its length for every SPS extension; the sum taken modulo [2^32].
    The SPS extensions of a record of another profile are not counted. *)
Theorem X2_avc_RecordSize_closed_form :
  forall b,
    avc.RecordSize b
    = (7 + units_len (map avc.NALUnit (avc.SequenceParameterSets b))
       + units_len (map avc.NALUnit (avc.PictureParameterSets b))
       + (if avc.has_ext (avc.AVCProfileIndication b)
          then 4 + units_len (map avc.NALUnit (avc.SequenceParameterSetExts b))
          else 0)) mod 2 ^ 32.
Proof.
  intros b. rewrite avc_RecordSize_exact.
  unfold avc_wire, avc_wire_base, avc_wire_ext, u32. f_equal.
  destruct (avc.has_ext (avc.AVCProfileIndication b));
    rewrite !len_app, !len_cons, !len_nil, !len_avc_wire_sets; lia.
Qed.

(** ** Sources shorter than the fixed part *)

Lemma Read_short {B : Type} (n : nat) (b : B) (r : io.Reader) :
  (length r < n)%nat ->
  binary.Read n (b, r)
  = (Err (match r with [] => EOF | _ :: _ => ErrUnexpectedEOF end), (b, [])).
Proof.
  intros H. unfold binary.Read, io.ReadFull. rewrite repeat_length.
  destruct (Nat.leb_spec n (length r)); [lia | reflexivity].
Qed.

(** X3.  A source that ends inside the fixed part of a record (6 bytes
    for AVC, 23 for HEVC, 24 for Dolby Vision) makes [RecordRead] fail
    before it stores anything: the receiver is left exactly as it was,
    the source is used up, and the error is [io.EOF] for an empty source
    and [io.ErrUnexpectedEOF] otherwise. *)
Theorem X3_short_fixed_part :
  (forall b r, (length r < 6)%nat ->
     avc.RecordRead (b, r)
     = (Err (match r with [] => EOF | _ :: _ => ErrUnexpectedEOF end), (b, []))) /\
  (forall b r, (length r < 23)%nat ->
     hevc.RecordRead (b, r)
     = (Err (match r with [] => EOF | _ :: _ => ErrUnexpectedEOF end), (b, []))) /\
  (forall b r, (length r < 24)%nat ->
     dovi.RecordRead (b, r)
     = (Err (match r with [] => EOF | _ :: _ => ErrUnexpectedEOF end), (b, []))).
Proof.
  split; [ | split]; intros b r H.
  - unfold avc.RecordRead. unfold bind at 1. now rewrite Read_short.
  - unfold hevc.RecordRead. unfold bind at 1. now rewrite Read_short.
  - unfold dovi.RecordRead. unfold bind at 1. now rewrite Read_short.
Qed.

Lemma X3_short_fixed_part_witness :
  avc.RecordRead (avc_baseline, [x01; x42; x00])
  = (Err ErrUnexpectedEOF, (avc_baseline, [])) /\
  hevc.RecordRead (hevc_high_tier, []) = (Err EOF, (hevc_high_tier, [])) /\
  dovi.RecordRead (dovi_scenario_B, repeat xff 23)
  = (Err ErrUnexpectedEOF, (dovi_scenario_B, [])).
Proof.
  split; [ | split].
  - apply (proj1 X3_short_fixed_part avc_baseline [x01; x42; x00]). cbn. lia.
  - apply (proj1 (proj2 X3_short_fixed_part) hevc_high_tier []). cbn. lia.
  - apply (proj2 (proj2 X3_short_fixed_part) dovi_scenario_B (repeat xff 23)). cbn. lia.
Defined.

(** ** What follows a record in the source *)

Lemma dovi_RecordRead_consumes : consumes dovi.RecordRead.
Proof.
  unfold dovi.RecordRead.
  apply consumes_bind; [apply consumes_Read | intros tmp; apply consumes_assign].
Qed.

Lemma consumes_frame {B : Type} (m : M (B * io.Reader) unit) :
  consumes m ->
  forall b r b' r', m (b, r) = (Ok tt, (b', r')) ->
  exists c, r = c ++ r' /\ forall t, m (b, c ++ t) = (Ok tt, (b', t)).
Proof.
  intros Hm b r b' r' E. specialize (Hm b r). rewrite E in Hm.
  destruct Hm as (c & Hc & Hf & _). exists c. split; assumption.
Qed.

(** X4.  A successful [RecordRead] reads a front part of the source and
    nothing of what follows it: what it leaves is the rest of the
    source, and on any other source that starts with the same front
    part it stores the same record and leaves what follows.  This holds
    for the three codecs and for every receiver. *)
Theorem X4_decode_ignores_what_follows :
  (forall b r b' r',
     avc.RecordRead (b, r) = (Ok tt, (b', r')) ->
     exists c, r = c ++ r' /\ forall t, avc.RecordRead (b, c ++ t) = (Ok tt, (b', t))) /\
  (forall b r b' r',
     hevc.RecordRead (b, r) = (Ok tt, (b', r')) ->
     exists c, r = c ++ r' /\ forall t, hevc.RecordRead (b, c ++ t) = (Ok tt, (b', t))) /\
  (forall b r b' r',
     dovi.RecordRead (b, r) = (Ok tt, (b', r')) ->
     exists c, r = c ++ r' /\ forall t, dovi.RecordRead (b, c ++ t) = (Ok tt, (b', t))).
Proof.
  split; [ | split].
  - exact (consumes_frame avc.RecordRead avc_RecordRead_consumes).
  - exact (consumes_frame hevc.RecordRead hevc_RecordRead_consumes).
  - exact (consumes_frame dovi.RecordRead dovi_RecordRead_consumes).
Qed.

Lemma X4_decode_ignores_what_follows_witness :
  (exists c, avc_wire avc_high ++ [xde; xad] = c ++ [xde; xad] /\
             forall t, avc.RecordRead (avc.zero, c ++ t) = (Ok tt, (avc_high, t))) /\
  (exists c, hevc_wire hevc_high_tier ++ [xbe] = c ++ [xbe] /\
             forall t, hevc.RecordRead (hevc.zero, c ++ t)
                       = (Ok tt, (hevc_decoded hevc_high_tier, t))) /\
  (exists c, dovi_wire dovi_scenario_B ++ [xef] = c ++ [xef] /\
             forall t, dovi.RecordRead (dovi.zero, c ++ t)
                       = (Ok tt, (dovi_scenario_B, t))).
Proof.
  split; [ | split].
  - apply (proj1 X4_decode_ignores_what_follows avc.zero). vm_compute. reflexivity.
  - apply (proj1 (proj2 X4_decode_ignores_what_follows) hevc.zero). vm_compute. reflexivity.
  - apply (proj2 (proj2 X4_decode_ignores_what_follows) dovi.zero). vm_compute. reflexivity.
Defined.

(** ** HEVC records without NAL arrays *)

(** X5.  The empty case of the NAL arrays.  [hevc.RecordWrite] of a
    record without NAL arrays writes 23 bytes, the last of which, the
    array count, is 0.  [hevc.RecordRead] on a source whose 23rd byte is
    0 succeeds after these 23 bytes, leaves everything after them in the
    source and stores a record without NAL arrays. *)
Theorem X5_hevc_no_arrays :
  (forall b w w',
     hevc.NaluArrays b = [] ->
     hevc.RecordWrite b w = (Ok tt, w') ->
     exists out, io.written w' = io.written w ++ out /\
                 length out = 23%nat /\ out@22 = 0) /\
  (forall b0 hdr rest,
     length hdr = 23%nat -> hdr@22 = 0 ->
     exists d, hevc.RecordRead (b0, hdr ++ rest) = (Ok tt, (d, rest)) /\
               hevc.NaluArrays d = []).
Proof.
  split.
  - intros b w w' Hb E.
    destruct (written_with_room _ _ w w' (hevc_RecordWrite_emits b) E) as (out & Hw & ->).
    exists (hevc_wire b). split; [exact Hw | ].
    unfold hevc_wire. rewrite Hb. unfold hevc_wire_arrays. cbn [map concat].
    rewrite app_nil_r. split; [reflexivity | ].
    unfold hevc_wire_header, binary.PutUint32, binary.PutUint16. cbn [app].
    rewrite ?at_S, ?at_0, b2z_z2b. rewrite Hb. reflexivity.
  - intros b0 hdr rest Hlen H0.
    eexists. split.
    + refine ((_ : reads hevc.RecordRead b0 hdr tt _) rest).
      unfold hevc.RecordRead.
      rewrite <- (app_nil_r hdr) at 1.
      eapply (reads_bind (binary.Read 23) _ b0 hdr hdr b0 []).
      * apply reads_Read. exact Hlen.
      * cbv zeta. rewrite H0. cbn [Z.to_nat for_range].
        eapply reads_bind_nil; [apply reads_assign | apply reads_ret].
    + reflexivity.
Qed.

Lemma X5_hevc_no_arrays_witness :
  (exists out, io.written (io.mkWriter (hevc_wire hevc_high_tier) 0)
               = io.written (sink 23) ++ out /\
               length out = 23%nat /\ out@22 = 0) /\
  (exists d, hevc.RecordRead (hevc.zero, (repeat xff 22 ++ [x00]) ++ [x01; x02])
             = (Ok tt, (d, [x01; x02])) /\
             hevc.NaluArrays d = []).
Proof.
  split.
  - apply (proj1 X5_hevc_no_arrays hevc_high_tier (sink 23)
                 (io.mkWriter (hevc_wire hevc_high_tier) 0)).
    + reflexivity.
    + vm_compute. reflexivity.
  - apply (proj2 X5_hevc_no_arrays hevc.zero (repeat xff 22 ++ [x00]) [x01; x02]);
      reflexivity.
Defined.

(** ** HEVC: what a round trip gives, for every record *)

Lemma hevc_in_range_decoded (b : hevc.HEVCDecoderConfigurationRecord) :
  hevc_in_range b -> hevc_in_range (hevc_decoded b).
Proof.
  intros (Hv & Hsp & Hpi & Hcf & Hci & Hli & Hms & Hpt & Hch & Hbl & Hbc & Hfr
          & Hcr & Hnt & Htn & Hls & Hna & Hok).
  unfold hevc_in_range, hevc_decoded. hevc_fields.
  repeat split; try lia; try assumption;
    destruct (hevc.GeneralTierFlag b); try lia;
    apply (lor_range 5); change (2 ^ 5) with 32; lia.
Qed.

Lemma hevc_decoded_idempotent (b : hevc.HEVCDecoderConfigurationRecord) :
  hevc_decoded (hevc_decoded b) = hevc_decoded b.
Proof. reflexivity. Qed.

Lemma hevc_decoded_fixed_iff (b : hevc.HEVCDecoderConfigurationRecord) :
  hevc_decoded b = b <->
  hevc.GeneralTierFlag b = false /\
  hevc.ParallelismType b = 3 /\
  hevc.ChromaFormatIndicator b = 3 /\
  hevc.BitDepthLumaMinus8 b = 7 /\
  hevc.BitDepthChromaMinus8 b = 7.
Proof.
  split.
  - intros H.
    repeat split;
      [ apply (f_equal hevc.GeneralTierFlag) in H
      | apply (f_equal hevc.ParallelismType) in H
      | apply (f_equal hevc.ChromaFormatIndicator) in H
      | apply (f_equal hevc.BitDepthLumaMinus8) in H
      | apply (f_equal hevc.BitDepthChromaMinus8) in H ];
      symmetry; exact H.
  - intros (H1 & H2 & H3 & H4 & H5). destruct b. cbn in *. subst. reflexivity.
Qed.

(** X6.  What decoding the encoding of an HEVC record gives, for every
    record with in-range fields [b]: [RecordRead] succeeds on what
    [RecordWrite] wrote, leaves what follows it, and stores
    [hevc_decoded b], which is [b] with the tier flag false, bit 4 of
    the profile indicator set when the tier flag of [b] is set, and the
    parallelism type, the chroma format and the two bit depths replaced
    by 3, 3, 7 and 7; all other fields, and the NAL arrays, are those of
    [b].  So the round trip is exact exactly for the records with tier
    flag false, parallelism type 3, chroma format 3 and bit depths 7.
    What is stored has in-range fields again and is a fixed point: a
    second round trip gives it back unchanged. *)
Theorem X6_hevc_decode_of_encode :
  forall b, hevc_in_range b ->
    (forall w w' b0 rest,
       hevc.RecordWrite b w = (Ok tt, w') ->
       exists out, io.written w' = io.written w ++ out /\
                   hevc.RecordRead (b0, out ++ rest) = (Ok tt, (hevc_decoded b, rest))) /\
    (hevc_decoded b = b <->
     hevc.GeneralTierFlag b = false /\
     hevc.ParallelismType b = 3 /\
     hevc.ChromaFormatIndicator b = 3 /\
     hevc.BitDepthLumaMinus8 b = 7 /\
     hevc.BitDepthChromaMinus8 b = 7) /\
    hevc_in_range (hevc_decoded b) /\
    (forall w w' b0 rest,
       hevc.RecordWrite (hevc_decoded b) w = (Ok tt, w') ->
       exists out, io.written w' = io.written w ++ out /\
                   hevc.RecordRead (b0, out ++ rest) = (Ok tt, (hevc_decoded b, rest))).
Proof.
  intros b Hb.
  split; [ | split; [apply hevc_decoded_fixed_iff | split; [apply hevc_in_range_decoded, Hb | ]]].
  - intros w w' b0 rest E.
    destruct (written_with_room _ _ w w' (hevc_RecordWrite_emits b) E) as (out & Hw & ->).
    exists (hevc_wire b). split; [exact Hw | apply (hevc_reads_wire b0 b Hb)].
  - intros w w' b0 rest E.
    destruct (written_with_room _ _ w w' (hevc_RecordWrite_emits (hevc_decoded b)) E)
      as (out & Hw & ->).
    exists (hevc_wire (hevc_decoded b)). split; [exact Hw | ].
    pose proof (hevc_reads_wire b0 (hevc_decoded b) (hevc_in_range_decoded b Hb) rest) as H.
    rewrite hevc_decoded_idempotent in H. exact H.
Qed.

Lemma X6_hevc_decode_of_encode_witness :
  (exists out, io.written (io.mkWriter (hevc_wire hevc_high_tier) 0)
               = io.written (sink 23) ++ out /\
               hevc.RecordRead (hevc.zero, out ++ [x00])
               = (Ok tt, (hevc_decoded hevc_high_tier, [x00]))) /\
  hevc_in_range (hevc_decoded hevc_high_tier).
Proof.
  destruct (X6_hevc_decode_of_encode hevc_high_tier hevc_in_range_high_tier)
    as (H1 & _ & H3 & _).
  split; [ | exact H3].
  apply (H1 (sink 23) (io.mkWriter (hevc_wire hevc_high_tier) 0) hevc.zero [x00]).
  vm_compute. reflexivity.
Defined.

(** ** Dolby Vision: round trips and reserved bits *)

Lemma dovi_byte2_mod (profile level : Z) :
  0 <= profile < 256 -> 0 <= level < 256 ->
  dovi_byte2 profile level = dovi_byte2 (profile mod 128) (level mod 64).
Proof.
  intros Hp Hl. apply Z.eqb_eq.
  exact (all_below_2 256 256
           (fun p l => dovi_byte2 p l =? dovi_byte2 (p mod 128) (l mod 64))
           ltac:(vm_compute; reflexivity) profile level Hp Hl).
Qed.

Lemma dovi_byte3_mod (level : Z) (rpu el bl : bool) :
  0 <= level < 256 ->
  dovi_byte3 level rpu el bl = dovi_byte3 (level mod 64) rpu el bl.
Proof.
  intros Hl.
  assert (E : Z.land (u8 (Z.shiftl level 3)) 248
              = Z.land (u8 (Z.shiftl (level mod 64) 3)) 248).
  { apply Z.eqb_eq.
    apply (all_below_spec 256
             (fun l => Z.land (u8 (Z.shiftl l 3)) 248
                       =? Z.land (u8 (Z.shiftl (l mod 64) 3)) 248));
      [vm_compute; reflexivity | exact Hl]. }
  unfold dovi_byte3. cbv zeta. rewrite E. reflexivity.
Qed.

Lemma dovi_id_decode_mod (x : Z) :
  0 <= x < 256 -> Z.shiftr (u8 (u8 (Z.shiftl x 4))) 4 = x mod 16.
Proof.
  intros H. apply Z.eqb_eq.
  apply (all_below_spec 256 (fun x => Z.shiftr (u8 (u8 (Z.shiftl x 4))) 4 =? x mod 16));
    [vm_compute; reflexivity | exact H].
Qed.

Lemma dovi_reads_wire_bytes (b0 b : dovi.DOVIDecoderConfigurationRecord) :
  dovi_bytes b ->
  reads dovi.RecordRead b0 (dovi_wire b) tt (dovi_decoded b).
Proof.
  intros (Hma & Hmi & Hp & Hl & Hid).
  unfold dovi.RecordRead.
  rewrite <- (app_nil_r (dovi_wire b)).
  eapply reads_bind; [apply reads_Read; reflexivity | ].
  eapply reads_final; [apply reads_assign | ].
  unfold dovi_wire. cbn [app]. rewrite ?at_S, ?at_0, !b2z_z2b.
  assert (Hp' : 0 <= dovi.Profile b mod 128 < 128) by (apply Z.mod_pos_bound; lia).
  assert (Hl' : 0 <= dovi.Level b mod 64 < 64) by (apply Z.mod_pos_bound; lia).
  destruct (dovi_bytes_decode (dovi.Profile b mod 128) (dovi.Level b mod 64)
                              (dovi.RPUPresent b) (dovi.ELPresent b) (dovi.BLPresent b)
                              Hp' Hl')
    as (E1 & E2 & E3 & E4 & E5).
  cbv zeta in E1, E2, E3, E4, E5.
  rewrite <- (dovi_byte2_mod _ _ Hp Hl) in E1, E2.
  rewrite <- (dovi_byte3_mod _ _ _ _ Hl) in E2, E3, E4, E5.
  unfold dovi_byte2, dovi_byte3 in E1, E2, E3, E4, E5.
  rewrite E1, E2, E3, E4, E5.
  rewrite dovi_id_decode_mod by exact Hid.
  rewrite !u8_small by lia.
  reflexivity.
Qed.

Lemma dovi_decoded_in_range (b : dovi.DOVIDecoderConfigurationRecord) :
  dovi_in_range b -> dovi_decoded b = b.
Proof.
  intros (Hma & Hmi & Hp & Hl & Hid). destruct b. unfold dovi_decoded. cbn in *.
  rewrite !Z.mod_small by lia. reflexivity.
Qed.

(** X7.  What decoding the encoding of a Dolby Vision record gives, for
    every record whose fields are [uint8] values: [RecordWrite] writes
    24 bytes, and [RecordRead] on them, into any receiver, leaves what
    follows them and stores the record with the profile reduced modulo
    128, the level modulo 64 and the compatibility id modulo 16.  A
    field wider than its place on the wire is cut without an error; a
    record whose profile, level and id fit in 7, 6 and 4 bits comes
    back exactly. *)
Theorem X7_dovi_decode_of_encode :
  forall b, dovi_bytes b ->
    (forall w w' b0 rest,
       dovi.RecordWrite b w = (Ok tt, w') ->
       exists out, io.written w' = io.written w ++ out /\ length out = 24%nat /\
                   dovi.RecordRead (b0, out ++ rest) = (Ok tt, (dovi_decoded b, rest))) /\
    (dovi_in_range b -> dovi_decoded b = b).
Proof.
  intros b Hb. split; [ | apply dovi_decoded_in_range].
  intros w w' b0 rest E.
  destruct (written_with_room _ _ w w' (dovi_RecordWrite_emits b) E) as (out & Hw & ->).
  exists (dovi_wire b). split; [exact Hw | ]. split; [reflexivity | ].
  apply (dovi_reads_wire_bytes b0 b Hb).
Qed.

Lemma X7_dovi_decode_of_encode_witness :
  (exists out, io.written (io.mkWriter (dovi_wire dovi_scenario_B) 0)
               = io.written (sink 24) ++ out /\ length out = 24%nat /\
               dovi.RecordRead (dovi.zero, out ++ [])
               = (Ok tt, (dovi_decoded dovi_scenario_B, []))) /\
  dovi_decoded dovi_scenario_B = dovi_scenario_B.
Proof.
  assert (Hb : dovi_bytes dovi_scenario_B) by (unfold dovi_bytes; cbn; lia).
  destruct (X7_dovi_decode_of_encode dovi_scenario_B Hb) as (H1 & H2).
  split.
  - apply (H1 (sink 24) (io.mkWriter (dovi_wire dovi_scenario_B) 0) dovi.zero []).
    vm_compute. reflexivity.
  - apply H2. unfold dovi_in_range. cbn. lia.
Defined.

(** X8.  [dovi.RecordRead] looks at the first four bytes and at the
    high nibble of the fifth only: two sources of at least 24 bytes
    that agree on these give the same record, whatever the low nibble
    of the fifth byte, the 19 bytes after it and the receivers are. *)
Theorem X8_dovi_reserved_bits_ignored :
  forall b0 b0' hd b4 b4' pad pad' rest rest',
    length hd = 4%nat -> length pad = 19%nat -> length pad' = 19%nat ->
    Z.shiftr (b2z b4) 4 = Z.shiftr (b2z b4') 4 ->
    exists d,
      dovi.RecordRead (b0, hd ++ [b4] ++ pad ++ rest) = (Ok tt, (d, rest)) /\
      dovi.RecordRead (b0', hd ++ [b4'] ++ pad' ++ rest') = (Ok tt, (d, rest')).
Proof.
  intros b0 b0' hd b4 b4' pad pad' rest rest' Hhd Hpad Hpad' H4.
  destruct hd as [|x0 [|x1 [|x2 [|x3 [|]]]]]; try discriminate.
  assert (R : forall b1 y p rs, length p = 19%nat ->
            dovi.RecordRead (b1, [x0; x1; x2; x3] ++ [y] ++ p ++ rs)
            = (Ok tt, ({| dovi.VersionMajor := b2z x0;
                          dovi.VersionMinor := b2z x1;
                          dovi.Profile := Z.shiftr (b2z x2) 1;
                          dovi.Level := Z.lor (u8 (Z.shiftl (Z.land (b2z x2) 1) 5))
                                              (Z.shiftr (Z.land (b2z x3) 248) 3);
                          dovi.RPUPresent := 0 <? Z.land (b2z x3) 4;
                          dovi.ELPresent := 0 <? Z.land (b2z x3) 2;
                          dovi.BLPresent := 0 <? Z.land (b2z x3) 1;
                          dovi.BLSignalCompatibilityID := Z.shiftr (b2z y) 4 |}, rs))).
  { intros b1 y p rs Hp.
    replace ([x0; x1; x2; x3] ++ [y] ++ p ++ rs) with (([x0; x1; x2; x3; y] ++ p) ++ rs)
      by (now rewrite <- app_assoc).
    refine ((_ : reads dovi.RecordRead b1 ([x0; x1; x2; x3; y] ++ p) tt _) rs).
    unfold dovi.RecordRead.
    rewrite <- (app_nil_r ([x0; x1; x2; x3; y] ++ p)).
    eapply reads_bind.
    - apply reads_Read. rewrite length_app, Hp. reflexivity.
    - eapply reads_final; [apply reads_assign | reflexivity]. }
  eexists. split.
  - apply R. exact Hpad.
  - rewrite H4. apply R. exact Hpad'.
Qed.

Lemma X8_dovi_reserved_bits_ignored_witness :
  exists d,
    dovi.RecordRead (dovi.zero, [x01; x00; x0a; x1d] ++ [x20] ++ repeat x00 19 ++ [])
    = (Ok tt, (d, [])) /\
    dovi.RecordRead (dovi_scenario_B, [x01; x00; x0a; x1d] ++ [x2f] ++ repeat xff 19 ++ [xaa])
    = (Ok tt, (d, [xaa])).
Proof.
  apply (X8_dovi_reserved_bits_ignored dovi.zero dovi_scenario_B [x01; x00; x0a; x1d]
           x20 x2f (repeat x00 19) (repeat xff 19) [] [xaa]); reflexivity.
Defined.

Lemma dovi_level_range (x y : Z) :
  0 <= x < 256 -> 0 <= y < 256 ->
  0 <= Z.lor (u8 (Z.shiftl (Z.land x 1) 5)) (Z.shiftr (Z.land y 248) 3) < 64.
Proof.
  intros Hx Hy. apply (lor_range 6); [lia | | ].
  - exact (byte_bounded (fun x => u8 (Z.shiftl (Z.land x 1) 5)) 0 (2 ^ 6) x
             ltac:(vm_compute; reflexivity) Hx).
  - exact (byte_bounded (fun y => Z.shiftr (Z.land y 248) 3) 0 (2 ^ 6) y
             ltac:(vm_compute; reflexivity) Hy).
Qed.

Lemma dovi_RecordRead_in_range (b0 d : dovi.DOVIDecoderConfigurationRecord)
      (r r' : io.Reader) :
  dovi.RecordRead (b0, r) = (Ok tt, (d, r')) -> dovi_in_range d.
Proof.
  unfold dovi.RecordRead. unfold bind at 1.
  destruct (Nat.le_gt_cases 24 (length r)) as [H|H].
  - rewrite Read_enough by exact H. unfold assign. cbn [fst snd].
    intros E. injection E as <- _.
    unfold dovi_in_range. cbn [dovi.VersionMajor dovi.VersionMinor dovi.Profile
                               dovi.Level dovi.BLSignalCompatibilityID].
    split; [apply at_range | ]. split; [apply at_range | ].
    split; [byte_bound (fun x => Z.shiftr x 1) 0 128 | ].
    split; [apply dovi_level_range; apply at_range | ].
    byte_bound (fun x => Z.shiftr x 4) 0 16.
  - rewrite Read_short by exact H. discriminate.
Qed.

(** X9.  Every record that a successful [dovi.RecordRead] stores,
    whatever the source and the receiver, has a profile below 128, a
    level below 64, a compatibility id below 16 and version bytes below
    256; and it is kept by a round trip: what [RecordWrite] writes for
    it is decoded back to the same record. *)
Theorem X9_dovi_decoded_record_round_trips :
  forall b0 r d r',
    dovi.RecordRead (b0, r) = (Ok tt, (d, r')) ->
    dovi_in_range d /\
    forall w w' b1 rest,
      dovi.RecordWrite d w = (Ok tt, w') ->
      exists out, io.written w' = io.written w ++ out /\
                  dovi.RecordRead (b1, out ++ rest) = (Ok tt, (d, rest)).
Proof.
  intros b0 r d r' E.
  pose proof (dovi_RecordRead_in_range b0 d r r' E) as Hd.
  split; [exact Hd | ].
  intros w w' b1 rest Ew.
  destruct (written_with_room _ _ w w' (dovi_RecordWrite_emits d) Ew) as (out & Hw & ->).
  exists (dovi_wire d). split; [exact Hw | apply (dovi_reads_wire b1 d Hd)].
Qed.

Lemma X9_dovi_decoded_record_round_trips_witness :
  let d := fst (snd (dovi.RecordRead (dovi.zero, repeat xff 24))) in
  dovi_in_range d /\
  exists out, io.written (io.mkWriter (dovi_wire d) 0) = io.written (sink 24) ++ out /\
              dovi.RecordRead (dovi.zero, out ++ []) = (Ok tt, (d, [])).
Proof.
  intros d.
  destruct (X9_dovi_decoded_record_round_trips dovi.zero (repeat xff 24) d [])
    as [H1 H2].
  - vm_compute. reflexivity.
  - split; [exact H1 | ].
    apply (H2 (sink 24) (io.mkWriter (dovi_wire d) 0) dovi.zero []).
    vm_compute. reflexivity.
Defined.

(** ** The HEVC record builder *)

(** X10.  [CreateHEVCDecoderConfigurationRecord] stops with a run-time
    panic exactly when it is given no SPS.  Given at least one SPS it
    returns, and only the first SPS is handed to the parser: two
    parsers that agree on the first SPS give the same result.  When the
    parser reports an error the builder returns that error with the zero
    record; otherwise it returns no error and a record with version 1,
    length size 3, and the three NAL arrays VPS, SPS, PPS, in this
    order, holding the given NAL units and completeness flags. *)
Theorem X10_builder_contract :
  forall (parse_error : Type)
         (ParseSPSNALUnit : list byte -> hevc.SPS * option parse_error)
         (NALU_VPS NALU_SPS NALU_PPS : hevc.NaluType)
         (vpsNalus spsNalus ppsNalus : list (list byte))
         (vpsComplete spsComplete ppsComplete : bool),
    let create parse :=
      hevc.CreateHEVCDecoderConfigurationRecord
        parse_error parse NALU_VPS NALU_SPS NALU_PPS
        vpsNalus spsNalus ppsNalus vpsComplete spsComplete ppsComplete in
    ((exists i n, create ParseSPSNALUnit = Panics_index_out_of_range i n)
     <-> spsNalus = []) /\
    (forall first more, spsNalus = first :: more ->
       (forall parse', parse' first = ParseSPSNALUnit first ->
          create parse' = create ParseSPSNALUnit) /\
       (forall e, snd (ParseSPSNALUnit first) = Some e ->
          create ParseSPSNALUnit = Returns (hevc.zero, Some e)) /\
       (snd (ParseSPSNALUnit first) = None ->
          exists r, create ParseSPSNALUnit = Returns (r, None) /\
                    hevc.ConfigurationVersion r = 1 /\
                    hevc.LengthSizeMinusOne r = 3 /\
                    hevc.NaluArrays r
                    = [ {| hevc.ArrayCompleteness := vpsComplete;
                           hevc.NALUnitType := NALU_VPS; hevc.NALUs := vpsNalus |};
                        {| hevc.ArrayCompleteness := spsComplete;
                           hevc.NALUnitType := NALU_SPS; hevc.NALUs := spsNalus |};
                        {| hevc.ArrayCompleteness := ppsComplete;
                           hevc.NALUnitType := NALU_PPS; hevc.NALUs := ppsNalus |} ])).
Proof.
  intros parse_error P tv ts tp vps sps pps fv fs fp create. split.
  - unfold create, hevc.CreateHEVCDecoderConfigurationRecord, index. split.
    + intros (i & n & H). destruct sps as [|first more]; [reflexivity | ].
      cbn [nth_error] in H. destruct (P first) as [parsed [e|]]; discriminate H.
    + intros ->. exists 0, 0. reflexivity.
  - intros first more ->.
    unfold create, hevc.CreateHEVCDecoderConfigurationRecord, index. cbn [nth_error].
    split; [ | split].
    + intros parse' H. rewrite H. reflexivity.
    + intros e He. destruct (P first) as [parsed err]. cbn in He. subst err. reflexivity.
    + intros He. destruct (P first) as [parsed err]. cbn in He. subst err.
      eexists. split; [reflexivity | ]. repeat split.
Qed.

Lemma hevc_nalu_total_3 (a1 a2 a3 : hevc.NaluArray) :
  hevc_nalu_total [a1; a2; a3]
  = len (hevc.NALUs a1) + len (hevc.NALUs a2) + len (hevc.NALUs a3).
Proof. unfold hevc_nalu_total. cbn [fold_right]. lia. Qed.

Lemma hevc_payload_total_3 (a1 a2 a3 : hevc.NaluArray) :
  hevc_payload_total [a1; a2; a3]
  = payload_len (hevc.NALUs a1) + payload_len (hevc.NALUs a2) + payload_len (hevc.NALUs a3).
Proof. unfold hevc_payload_total. cbn [fold_right]. lia. Qed.

Lemma hevc_RecordSize_closed (b : hevc.HEVCDecoderConfigurationRecord) :
  hevc.RecordSize b
  = (23 + 3 * len (hevc.NaluArrays b)
     + 2 * hevc_nalu_total (hevc.NaluArrays b)
     + hevc_payload_total (hevc.NaluArrays b)) mod 2 ^ 32.
Proof.
  rewrite hevc_RecordSize_exact. unfold hevc_wire.
  rewrite len_app, len_hevc_wire_header, len_hevc_wire_arrays.
  unfold u32, hevc_nalu_total, hevc_payload_total. f_equal. lia.
Qed.

Lemma payload_len_nonneg (units : list (list byte)) : 0 <= payload_len units.
Proof.
  induction units as [|u units IH].
  - reflexivity.
  - rewrite payload_len_cons. pose proof (len_nonneg u). lia.
Qed.

(** X11.  The size of what the builder builds.  For every record that
    the builder returns without error, [RecordSize] is 32 bytes (the
    header and three array heads) plus 2 bytes for each VPS, SPS and PPS
    plus their bytes, modulo [2^32]; [RecordWrite], when it succeeds,
    writes exactly that many bytes, not reduced. *)
Theorem X11_builder_record_size :
  forall (parse_error : Type)
         (ParseSPSNALUnit : list byte -> hevc.SPS * option parse_error)
         (NALU_VPS NALU_SPS NALU_PPS : hevc.NaluType)
         (vpsNalus spsNalus ppsNalus : list (list byte))
         (vpsComplete spsComplete ppsComplete : bool) r,
    hevc.CreateHEVCDecoderConfigurationRecord
      parse_error ParseSPSNALUnit NALU_VPS NALU_SPS NALU_PPS
      vpsNalus spsNalus ppsNalus vpsComplete spsComplete ppsComplete
    = Returns (r, None) ->
    let total := 32 + 2 * (len vpsNalus + len spsNalus + len ppsNalus)
                 + payload_len vpsNalus + payload_len spsNalus + payload_len ppsNalus in
    hevc.RecordSize r = total mod 2 ^ 32 /\
    forall w w', hevc.RecordWrite r w = (Ok tt, w') ->
      exists out, io.written w' = io.written w ++ out /\ len out = total.
Proof.
  intros parse_error P tv ts tp vps sps pps fv fs fp r E total.
  assert (Hr : hevc.NaluArrays r
               = [ {| hevc.ArrayCompleteness := fv; hevc.NALUnitType := tv; hevc.NALUs := vps |};
                   {| hevc.ArrayCompleteness := fs; hevc.NALUnitType := ts; hevc.NALUs := sps |};
                   {| hevc.ArrayCompleteness := fp; hevc.NALUnitType := tp; hevc.NALUs := pps |} ]).
  { unfold hevc.CreateHEVCDecoderConfigurationRecord, index in E.
    destruct sps as [|first more]; [discriminate E | ]. cbn [nth_error] in E.
    destruct (P first) as [parsed [e|]]; [discriminate E | ].
    injection E as <-. reflexivity. }
  assert (Hlen : len (hevc_wire r) = total).
  { unfold hevc_wire. rewrite len_app, len_hevc_wire_header, len_hevc_wire_arrays, Hr.
    fold (hevc_nalu_total [ {| hevc.ArrayCompleteness := fv; hevc.NALUnitType := tv; hevc.NALUs := vps |};
                            {| hevc.ArrayCompleteness := fs; hevc.NALUnitType := ts; hevc.NALUs := sps |};
                            {| hevc.ArrayCompleteness := fp; hevc.NALUnitType := tp; hevc.NALUs := pps |} ]).
    fold (hevc_payload_total [ {| hevc.ArrayCompleteness := fv; hevc.NALUnitType := tv; hevc.NALUs := vps |};
                               {| hevc.ArrayCompleteness := fs; hevc.NALUnitType := ts; hevc.NALUs := sps |};
                               {| hevc.ArrayCompleteness := fp; hevc.NALUnitType := tp; hevc.NALUs := pps |} ]).
    rewrite hevc_nalu_total_3, hevc_payload_total_3. hevc_fields.
    rewrite !len_cons, len_nil. unfold total. lia. }
  split.
  - rewrite hevc_RecordSize_exact, Hlen. reflexivity.
  - intros w w' Ew.
    destruct (written_with_room _ _ w w' (hevc_RecordWrite_emits r) Ew) as (out & Hw & ->).
    exists (hevc_wire r). split; [exact Hw | exact Hlen].
Qed.

Lemma X11_builder_record_size_witness :
  let r := hevc_scenario_A 32 33 34 [x40; x01] [x42; x01] [x44; x01] in
  hevc.RecordSize r = 44 mod 2 ^ 32.
Proof.
  intros r.
  assert (E : hevc.CreateHEVCDecoderConfigurationRecord
                unit example_parser 32 33 34
                [[x40; x01]] [[x42; x01]] [[x44; x01]] true true true
              = Returns ({| hevc.ConfigurationVersion := 1;
                            hevc.GeneralProfileSpace := 0;
                            hevc.GeneralTierFlag := false;
                            hevc.GenertalProfileIndicator := 1;
                            hevc.GeneralProfileCompatibilityFlags := 0x60000000;
                            hevc.GeneralConstraintIndicatorFlags := 0xB00050F00000;
                            hevc.GeneralLevelIndicator := 93;
                            hevc.MinSpatialSegmentationIndicator := 0;
                            hevc.ParallelismType := 0;
                            hevc.ChromaFormatIndicator := 1;
                            hevc.BitDepthLumaMinus8 := 0;
                            hevc.BitDepthChromaMinus8 := 0;
                            hevc.AvgFrameRate := 0;
                            hevc.ConstantFrameRate := 0;
                            hevc.NumTemporalLayers := 0;
                            hevc.TemporalIDNested := 0;
                            hevc.LengthSizeMinusOne := 3;
                            hevc.NaluArrays := hevc.NaluArrays r |}, None))
    by reflexivity.
  pose proof (proj1 (X11_builder_record_size unit example_parser 32 33 34
                       [[x40; x01]] [[x42; x01]] [[x44; x01]] true true true _ E)) as H.
  rewrite hevc_RecordSize_closed in H. rewrite hevc_RecordSize_closed. exact H.
Defined.

Lemma X10_builder_contract_witness :
  (hevc.CreateHEVCDecoderConfigurationRecord
     unit (fun _ => example_parser [x42; x01]) 32 33 34 [] [[x42; x01]] [] true true true
   = hevc.CreateHEVCDecoderConfigurationRecord
       unit example_parser 32 33 34 [] [[x42; x01]] [] true true true) /\
  (hevc.CreateHEVCDecoderConfigurationRecord
     unit example_parser 32 33 34 [] [[]; [x42; x01]] [] true true true
   = Returns (hevc.zero, Some tt)) /\
  (exists r,
     hevc.CreateHEVCDecoderConfigurationRecord
       unit example_parser 32 33 34 [] [[x42; x01]] [] true true true
     = Returns (r, None) /\
     hevc.ConfigurationVersion r = 1 /\
     hevc.LengthSizeMinusOne r = 3 /\
     hevc.NaluArrays r
     = [ {| hevc.ArrayCompleteness := true; hevc.NALUnitType := 32; hevc.NALUs := [] |};
         {| hevc.ArrayCompleteness := true; hevc.NALUnitType := 33;
            hevc.NALUs := [[x42; x01]] |};
         {| hevc.ArrayCompleteness := true; hevc.NALUnitType := 34; hevc.NALUs := [] |} ]).
Proof.
  split; [ | split].
  - apply (proj1 (proj2 (X10_builder_contract unit example_parser 32 33 34
                           [] [[x42; x01]] [] true true true) [x42; x01] [] eq_refl)).
    reflexivity.
  - apply (proj1 (proj2 (proj2 (X10_builder_contract unit example_parser 32 33 34
                                  [] [[]; [x42; x01]] [] true true true)
                               [] [[x42; x01]] eq_refl))).
    reflexivity.
  - apply (proj2 (proj2 (proj2 (X10_builder_contract unit example_parser 32 33 34
                                  [] [[x42; x01]] [] true true true)
                               [x42; x01] [] eq_refl))).
    reflexivity.
Defined.

(** ** The builder followed by the codec *)

Lemma builder_in_range (parse_error : Type)
      (ParseSPSNALUnit : list byte -> hevc.SPS * option parse_error)
      (tv ts tp : hevc.NaluType) (vps sps pps : list (list byte))
      (cv cs cp : bool) (first : list byte) (more : list (list byte)) (parsed : hevc.SPS) :
  sps = first :: more ->
  ParseSPSNALUnit first = (parsed, None) ->
  sps_in_range parsed ->
  0 <= tv < 64 -> 0 <= ts < 64 -> 0 <= tp < 64 ->
  units_in_range vps -> units_in_range sps -> units_in_range pps ->
  exists r,
    hevc.CreateHEVCDecoderConfigurationRecord parse_error ParseSPSNALUnit tv ts tp
      vps sps pps cv cs cp = Returns (r, None) /\
    hevc_in_range r /\
    hevc.GeneralTierFlag (hevc_decoded r)
    = false /\
    hevc.GenertalProfileIndicator r
    = hevc.PTL_GeneralProfileIndicator (hevc.SPS_ProfileTierLevel parsed) /\
    hevc.GeneralTierFlag r
    = hevc.PTL_GeneralTierFlag (hevc.SPS_ProfileTierLevel parsed) /\
    hevc.GeneralProfileSpace r
    = hevc.PTL_GeneralProfileSpace (hevc.SPS_ProfileTierLevel parsed) /\
    hevc.GeneralProfileCompatibilityFlags r
    = hevc.PTL_GeneralProfileCompatibilityFlags (hevc.SPS_ProfileTierLevel parsed) /\
    hevc.GeneralConstraintIndicatorFlags r
    = hevc.PTL_GeneralConstraintIndicatorFlags (hevc.SPS_ProfileTierLevel parsed) /\
    hevc.GeneralLevelIndicator r
    = hevc.PTL_GeneralLevelIndicator (hevc.SPS_ProfileTierLevel parsed) /\
    hevc.ConfigurationVersion r = 1 /\
    hevc.LengthSizeMinusOne r = 3 /\
    hevc.NaluArrays r
    = [hevc.Build_NaluArray cv tv vps; hevc.Build_NaluArray cs ts sps;
       hevc.Build_NaluArray cp tp pps].
Proof.
  intros -> EP (R1 & R2 & R3 & R4 & R5 & R6 & R7 & R8) Hv Hs Hp (Lv & Fv) (Ls & Fs) (Lp & Fp).
  unfold hevc.CreateHEVCDecoderConfigurationRecord, index.
  cbn [nth_error Z.to_nat Z.ltb Z.compare length Nat.ltb Nat.leb].
  rewrite EP. cbn [app].
  eexists. split; [reflexivity | ].
  split; [ | repeat split ].
  unfold hevc_in_range. hevc_fields.
  repeat split; try lia; try assumption.
  repeat (apply Forall_cons;
          [unfold hevc_array_ok; hevc_fields; repeat split; try lia; assumption | ]).
  apply Forall_nil.
Qed.

(** X12.  The builder followed by the codec.  When the first SPS NAL
    unit parses to fields that fit their widths, the three type tags are
    below 64, and each list has fewer than 4096 NAL units of fewer than
    65536 bytes, the record the builder returns has in-range fields, and
    decoding what [RecordWrite] wrote for it gives back the three NAL
    arrays as they were passed (tags, completeness flags and NAL units),
    version 1, length size 3, and the profile space, compatibility
    flags, constraint flags and level of the parsed SPS; but the chroma
    format and the two bit depths of the SPS do not come back: they are
    read as 3, 7 and 7 whatever the SPS says, the parallelism type as 3,
    and the tier flag as false, with bit 4 of the profile indicator set
    in its place when the SPS has the tier flag. *)
Theorem X12_builder_then_codec :
  forall (parse_error : Type) (ParseSPSNALUnit : list byte -> hevc.SPS * option parse_error)
         (tv ts tp : hevc.NaluType) (vps sps pps : list (list byte)) (cv cs cp : bool)
         (first : list byte) (more : list (list byte)) (parsed : hevc.SPS),
    sps = first :: more ->
    ParseSPSNALUnit first = (parsed, None) ->
    sps_in_range parsed ->
    0 <= tv < 64 -> 0 <= ts < 64 -> 0 <= tp < 64 ->
    units_in_range vps -> units_in_range sps -> units_in_range pps ->
    exists r,
      hevc.CreateHEVCDecoderConfigurationRecord parse_error ParseSPSNALUnit tv ts tp
        vps sps pps cv cs cp = Returns (r, None) /\
      hevc_in_range r /\
      forall w w' b0 rest,
        hevc.RecordWrite r w = (Ok tt, w') ->
        exists out d,
          io.written w' = io.written w ++ out /\
          hevc.RecordRead (b0, out ++ rest) = (Ok tt, (d, rest)) /\
          hevc.NaluArrays d
          = [hevc.Build_NaluArray cv tv vps; hevc.Build_NaluArray cs ts sps;
             hevc.Build_NaluArray cp tp pps] /\
          hevc.ConfigurationVersion d = 1 /\
          hevc.LengthSizeMinusOne d = 3 /\
          hevc.GeneralProfileSpace d
          = hevc.PTL_GeneralProfileSpace (hevc.SPS_ProfileTierLevel parsed) /\
          hevc.GeneralProfileCompatibilityFlags d
          = hevc.PTL_GeneralProfileCompatibilityFlags (hevc.SPS_ProfileTierLevel parsed) /\
          hevc.GeneralConstraintIndicatorFlags d
          = hevc.PTL_GeneralConstraintIndicatorFlags (hevc.SPS_ProfileTierLevel parsed) /\
          hevc.GeneralLevelIndicator d
          = hevc.PTL_GeneralLevelIndicator (hevc.SPS_ProfileTierLevel parsed) /\
          hevc.GeneralTierFlag d = false /\
          hevc.GenertalProfileIndicator d
          = (if hevc.PTL_GeneralTierFlag (hevc.SPS_ProfileTierLevel parsed)
             then Z.lor (hevc.PTL_GeneralProfileIndicator (hevc.SPS_ProfileTierLevel parsed)) 16
             else hevc.PTL_GeneralProfileIndicator (hevc.SPS_ProfileTierLevel parsed)) /\
          hevc.ParallelismType d = 3 /\
          hevc.ChromaFormatIndicator d = 3 /\
          hevc.BitDepthLumaMinus8 d = 7 /\
          hevc.BitDepthChromaMinus8 d = 7.
Proof.
  intros parse_error P tv ts tp vps sps pps cv cs cp first more parsed
         Es EP Hsps Hv Hs Hp Uv Us Up.
  destruct (builder_in_range parse_error P tv ts tp vps sps pps cv cs cp first more parsed
              Es EP Hsps Hv Hs Hp Uv Us Up)
    as (r & Er & Hr & _ & Ei & Et & Esp & Ec & Ek & El & Ev & Els & Ea).
  exists r. split; [exact Er | split; [exact Hr | ]].
  intros w w' b0 rest E.
  destruct (written_with_room _ _ w w' (hevc_RecordWrite_emits r) E) as (out & Hw & ->).
  exists (hevc_wire r), (hevc_decoded r).
  split; [exact Hw | ].
  split; [apply (hevc_reads_wire b0 r Hr) | ].
  unfold hevc_decoded. hevc_fields.
  rewrite Ea, Ev, Els, Esp, Ec, Ek, El, Et, Ei.
  repeat split.
Qed.

Lemma X12_builder_then_codec_witness :
  exists r,
    hevc.CreateHEVCDecoderConfigurationRecord unit example_parser 32 33 34
      [[x40; x01]] [[x42; x01]] [[x44; x01]] true true true = Returns (r, None) /\
    hevc_in_range r /\
    exists out d,
      io.written (io.mkWriter (hevc_wire r) 0) = io.written (sink 44) ++ out /\
      hevc.RecordRead (hevc.zero, out ++ [x00]) = (Ok tt, (d, [x00])) /\
      hevc.ChromaFormatIndicator d = 3.
Proof.
  assert (U : forall a b : byte, units_in_range [[a; b]]).
  { intros a b. split; [vm_compute; reflexivity | ].
    apply Forall_cons; [vm_compute; reflexivity | apply Forall_nil]. }
  assert (S0 : sps_in_range example_sps).
  { unfold sps_in_range, example_sps. cbn. lia. }
  destruct (X12_builder_then_codec unit example_parser 32 33 34
              [[x40; x01]] [[x42; x01]] [[x44; x01]] true true true
              [x42; x01] [] example_sps eq_refl eq_refl S0
              ltac:(lia) ltac:(lia) ltac:(lia) (U _ _) (U _ _) (U _ _))
    as (r & Er & Hr & H).
  exists r. split; [exact Er | split; [exact Hr | ]].
  injection Er as Er. subst r.
  destruct (H (sink 44) _ hevc.zero [x00] ltac:(vm_compute; reflexivity))
    as (out & d & Hw & Hd & _ & _ & _ & _ & _ & _ & _ & _ & _ & _ & Hc & _).
  exists out, d. split; [exact Hw | split; [exact Hd | exact Hc]].
Defined.

(** ** What a successful decode has read and stored *)

Lemma bind_Ok {St A A' : Type} (m : M St A) (k : A -> M St A') (s s' : St) (a' : A') :
  bind m k s = (Ok a', s') -> exists a s1, m s = (Ok a, s1) /\ k a s1 = (Ok a', s').
Proof.
  unfold bind. destruct (m s) as [[a|e] s1]; [ | discriminate].
  intros E. exists a, s1. split; [reflexivity | exact E].
Qed.

Lemma Read_Ok {B : Type} (n : nat) (b b' : B) (r r' : io.Reader) (bs : list byte) :
  binary.Read n (b, r) = (Ok bs, (b', r')) ->
  b' = b /\ r = bs ++ r' /\ length bs = n.
Proof.
  unfold binary.Read, io.ReadFull. rewrite repeat_length.
  destruct (n <=? length r)%nat eqn:En; [ | discriminate].
  apply Nat.leb_le in En. intros E. injection E as <- <- <-.
  split; [reflexivity | split].
  - symmetry. apply firstn_skipn.
  - apply firstn_length_le, En.
Qed.

Lemma Uint16_range (bs : list byte) : 0 <= binary.Uint16 bs < 65536.
Proof.
  unfold binary.Uint16. change 65536 with (2 ^ 16).
  apply lor_range; [lia | | unfold u16; apply Z.mod_pos_bound; reflexivity].
  pose proof (at_range bs 1). change (2 ^ 16) with 65536. lia.
Qed.

Lemma Read_uint16_Ok {B : Type} (b b' : B) (r r' : io.Reader) (v : Z) :
  binary.Read_uint16 (b, r) = (Ok v, (b', r')) ->
  b' = b /\ 0 <= v < 65536 /\ exists bs, r = bs ++ r' /\ len bs = 2.
Proof.
  unfold binary.Read_uint16. intros E.
  apply bind_Ok in E. destruct E as (bs & [b1 r1] & E1 & E2).
  apply Read_Ok in E1. destruct E1 as (-> & -> & Hl).
  unfold ret in E2. injection E2 as <- <- <-.
  split; [reflexivity | split; [apply Uint16_range | ]].
  exists bs. split; [reflexivity | unfold len; rewrite Hl; reflexivity].
Qed.

Lemma Read_uint8_Ok {B : Type} (b b' : B) (r r' : io.Reader) (v : Z) :
  binary.Read_uint8 (b, r) = (Ok v, (b', r')) ->
  b' = b /\ 0 <= v < 256 /\ exists bs, r = bs ++ r' /\ len bs = 1.
Proof.
  unfold binary.Read_uint8. intros E.
  apply bind_Ok in E. destruct E as (bs & [b1 r1] & E1 & E2).
  apply Read_Ok in E1. destruct E1 as (-> & -> & Hl).
  unfold ret in E2. injection E2 as <- <- <-.
  split; [reflexivity | split; [apply at_range | ]].
  exists bs. split; [reflexivity | unfold len; rewrite Hl; reflexivity].
Qed.

Lemma ReadFull_into_Ok {B : Type} (get : B -> list byte) (set : list byte -> B -> B)
      (b b' : B) (r r' : io.Reader) :
  ReadFull_into get set (b, r) = (Ok tt, (b', r')) ->
  exists buf, b' = set buf b /\ r = buf ++ r' /\ length buf = length (get b).
Proof.
  unfold ReadFull_into, io.ReadFull.
  destruct (length (get b) <=? length r)%nat eqn:En; [ | discriminate].
  apply Nat.leb_le in En. intros E. injection E as <- <-.
  exists (firstn (length (get b)) r).
  split; [reflexivity | split].
  - symmetry. apply firstn_skipn.
  - apply firstn_length_le, En.
Qed.

Lemma units_len_nil : units_len [] = 0.
Proof. reflexivity. Qed.

Lemma units_len_cons (u : list byte) (units : list (list byte)) :
  units_len (u :: units) = 2 + len u + units_len units.
Proof. unfold units_len. rewrite len_cons, payload_len_cons. lia. Qed.

Lemma units_len_bound (units : list (list byte)) :
  Forall (fun u => len u < 65536) units ->
  0 <= units_len units <= 65537 * len units.
Proof.
  induction 1 as [|u units Hu Hunits IH].
  - rewrite units_len_nil, len_nil. lia.
  - rewrite units_len_cons, len_cons. pose proof (len_nonneg u). lia.
Qed.

Section EntriesRead.
Context {B T : Type}.
Variable get : B -> list T.
Variable set : list T -> B -> B.
Variable unit_of : T -> list byte.
Variable with_unit : list byte -> T -> T.
Variable zeroT : T.
(** [Inv] holds of the receivers in which the slice exists. *)
Variable Inv : B -> Prop.
Hypothesis Inv_set : forall v b, Inv b -> Inv (set v b).
Hypothesis get_set : forall v b, Inv b -> get (set v b) = v.
Hypothesis set_set : forall v v' b, set v (set v' b) = set v b.
Hypothesis set_get : forall b, set (get b) b = b.
Hypothesis unit_with : forall v t, unit_of (with_unit v t) = v.

Lemma read_entry_Ok (b b' : B) (r r' : io.Reader) (done todo : list T) (t0 : T) :
  Inv b ->
  get b = done ++ t0 :: todo ->
  read_entry get set unit_of with_unit zeroT (length done) (b, r) = (Ok tt, (b', r')) ->
  exists t c,
    b' = set (done ++ t :: todo) b /\ len (unit_of t) < 65536 /\
    r = c ++ r' /\ len c = 2 + len (unit_of t).
Proof.
  intros HI Hget E. unfold read_entry in E.
  apply bind_Ok in E. destruct E as (n & [b1 r1] & E1 & E).
  apply Read_uint16_Ok in E1. destruct E1 as (-> & Hn & bs & -> & Hbs).
  apply bind_Ok in E. destruct E as ([] & [b2 r2] & E2 & E).
  unfold assign in E2. cbn [fst snd] in E2. injection E2 as <- <-.
  apply ReadFull_into_Ok in E. destruct E as (buf & -> & -> & Hbuf).
  rewrite Hget, upd_app in *.
  rewrite get_set, nth_middle, unit_with in Hbuf by exact HI.
  rewrite get_set, upd_app, set_set by exact HI.
  exists (with_unit buf (with_unit (make x00 n) t0)), (bs ++ buf).
  rewrite unit_with.
  assert (Hl : len buf = n).
  { unfold len. rewrite Hbuf. unfold make. rewrite repeat_length. lia. }
  split; [reflexivity | split; [lia | split]].
  - now rewrite <- app_assoc.
  - rewrite len_app. lia.
Qed.

Lemma for_range_entries_Ok (n : nat) :
  forall (b b' : B) (r r' : io.Reader) (done todo tail : list T),
  Inv b ->
  get b = done ++ todo ++ tail ->
  length todo = n ->
  for_range (length done) n (read_entry get set unit_of with_unit zeroT) (b, r)
  = (Ok tt, (b', r')) ->
  exists ts c,
    b' = set (done ++ ts ++ tail) b /\ length ts = n /\
    Forall (fun t => len (unit_of t) < 65536) ts /\
    r = c ++ r' /\ len c = units_len (map unit_of ts).
Proof.
  induction n as [|n IH]; intros b b' r r' done todo tail HI Hget Hlen E.
  - destruct todo; [ | discriminate]. cbn [for_range] in E.
    unfold ret in E. injection E as <- <-.
    exists [], []. cbn [app] in *. rewrite <- Hget, set_get.
    repeat split; constructor.
  - destruct todo as [|t0 todo]; [discriminate | ].
    cbn [for_range] in E. apply bind_Ok in E. destruct E as ([] & [b1 r1] & E1 & E).
    apply (read_entry_Ok b b1 r r1 done (todo ++ tail) t0 HI Hget) in E1.
    destruct E1 as (t & c1 & -> & Ht & -> & Hc1).
    specialize (IH (set (done ++ t :: todo ++ tail) b) b' r1 r' (done ++ [t]) todo tail).
    rewrite length_app in IH. cbn [length] in IH.
    replace (length done + 1)%nat with (S (length done)) in IH by lia.
    destruct IH as (ts & c2 & -> & Hts & Fts & -> & Hc2).
    + apply Inv_set, HI.
    + rewrite get_set, <- app_assoc by exact HI. reflexivity.
    + cbn [length] in Hlen. lia.
    + exact E.
    + exists (t :: ts), (c1 ++ c2). rewrite set_set, <- !app_assoc.
      split; [reflexivity | ].
      split; [cbn [length]; lia | ].
      split; [constructor; assumption | ].
      split; [reflexivity | ].
      cbn [map]. rewrite len_app, units_len_cons. lia.
Qed.

Lemma read_entries_Ok (count : Z) (b b' : B) (r r' : io.Reader) :
  0 <= count ->
  Inv b ->
  get b = make zeroT count ->
  read_entries get set unit_of with_unit zeroT count (b, r) = (Ok tt, (b', r')) ->
  exists ts c,
    b' = set ts b /\ len ts = count /\
    Forall (fun t => len (unit_of t) < 65536) ts /\
    r = c ++ r' /\ len c = units_len (map unit_of ts).
Proof.
  intros Hc HI Hget E. unfold read_entries in E.
  destruct (for_range_entries_Ok (Z.to_nat count) b b' r r' [] (make zeroT count) [] HI)
    as (ts & c & -> & Hts & Fts & -> & Hlen).
  - cbn [app]. rewrite app_nil_r. exact Hget.
  - unfold make. apply repeat_length.
  - exact E.
  - exists ts, c. cbn [app]. rewrite app_nil_r.
    split; [reflexivity | ]. split; [unfold len; lia | ].
    split; [exact Fts | split; [reflexivity | exact Hlen]].
Qed.

End EntriesRead.

(** *** AVC *)

Lemma avc_units_len_bound (s : list avc.AVCParameterSet) :
  avc_units_ok s -> 0 <= units_len (map avc.NALUnit s) <= 65537 * len s.
Proof.
  intros H. pose proof (units_len_bound (map avc.NALUnit s)) as Hb.
  unfold len in Hb at 2. rewrite length_map in Hb. apply Hb.
  apply Forall_map, H.
Qed.

Lemma avc_set_set_SPS (v v' : list avc.AVCParameterSet) (b : avc.AVCDecoderConfigurationRecord) :
  avc.set_SequenceParameterSets v (avc.set_SequenceParameterSets v' b)
  = avc.set_SequenceParameterSets v b.
Proof. reflexivity. Qed.

Lemma avc_set_set_PPS (v v' : list avc.AVCParameterSet) (b : avc.AVCDecoderConfigurationRecord) :
  avc.set_PictureParameterSets v (avc.set_PictureParameterSets v' b)
  = avc.set_PictureParameterSets v b.
Proof. reflexivity. Qed.

Lemma avc_set_set_Exts (v v' : list avc.AVCParameterSet) (b : avc.AVCDecoderConfigurationRecord) :
  avc.set_SequenceParameterSetExts v (avc.set_SequenceParameterSetExts v' b)
  = avc.set_SequenceParameterSetExts v b.
Proof. reflexivity. Qed.

Ltac avc_fields_in H :=
  cbn [avc.ConfigurationVersion avc.AVCProfileIndication avc.ProfileCompatibility
       avc.AVCLevelIndication avc.LengthSizeMinusOne avc.SequenceParameterSets
       avc.PictureParameterSets avc.ChromaFormat avc.BitDepthLumaMinus8
       avc.BitDepthChromaMinus8 avc.SequenceParameterSetExts avc.NALUnit
       avc.set_SequenceParameterSets avc.set_PictureParameterSets
       avc.set_SequenceParameterSetExts avc.set_NALUnit] in H.

Lemma avc_RecordRead_Ok (b0 d : avc.AVCDecoderConfigurationRecord) (r r' : io.Reader) :
  avc.RecordRead (b0, r) = (Ok tt, (d, r')) ->
  exists c,
    r = c ++ r' /\
    avc_in_range d /\
    len c = 7 + units_len (map avc.NALUnit (avc.SequenceParameterSets d))
            + units_len (map avc.NALUnit (avc.PictureParameterSets d))
            + (if avc.has_ext (avc.AVCProfileIndication d)
               then 4 + units_len (map avc.NALUnit (avc.SequenceParameterSetExts d))
               else 0) /\
    (avc.has_ext (avc.AVCProfileIndication d) = false ->
     avc.ChromaFormat d = avc.ChromaFormat b0 /\
     avc.BitDepthLumaMinus8 d = avc.BitDepthLumaMinus8 b0 /\
     avc.BitDepthChromaMinus8 d = avc.BitDepthChromaMinus8 b0 /\
     avc.SequenceParameterSetExts d = avc.SequenceParameterSetExts b0).
Proof.
  intros E. unfold avc.RecordRead in E.
  apply bind_Ok in E. destruct E as (tmp & [b1 r1] & E1 & E).
  apply Read_Ok in E1. destruct E1 as (-> & -> & Htmp).
  cbv zeta in E.
  apply bind_Ok in E. destruct E as ([] & [b2 r2] & E2 & E).
  unfold assign in E2. cbn [fst snd] in E2. injection E2 as <- <-.
  assert (Hn : 0 <= Z.land tmp@5 31 < 32) by byte_bound (fun x => Z.land x 31) 0 32.
  assert (Hl : 0 <= Z.land tmp@4 3 < 4) by byte_bound (fun x => Z.land x 3) 0 4.
  apply bind_Ok in E. destruct E as ([] & [b3 r3] & E3 & E).
  apply (read_entries_Ok avc.SequenceParameterSets avc.set_SequenceParameterSets
           avc.NALUnit avc.set_NALUnit avc.zero_set (fun _ => True)
           (fun _ _ _ => I) (fun _ _ _ => eq_refl) (fun _ _ _ => eq_refl)
           avc_set_get_SPS (fun _ _ => eq_refl) _ _ _ _ _
           (proj1 Hn) I) in E3; [ | reflexivity].
  destruct E3 as (sps & c1 & -> & Hsps & Fsps & -> & Hc1).
  apply bind_Ok in E. destruct E as (np & [b4 r4] & E4 & E).
  apply Read_uint8_Ok in E4. destruct E4 as (-> & Hnp & bs & -> & Hbs).
  apply bind_Ok in E. destruct E as ([] & [b5 r5] & E5 & E).
  unfold assign in E5. cbn [fst snd] in E5. injection E5 as <- <-.
  apply bind_Ok in E. destruct E as ([] & [b6 r6] & E6 & E).
  apply (read_entries_Ok avc.PictureParameterSets avc.set_PictureParameterSets
           avc.NALUnit avc.set_NALUnit avc.zero_set (fun _ => True)
           (fun _ _ _ => I) (fun _ _ _ => eq_refl) (fun _ _ _ => eq_refl)
           avc_set_get_PPS (fun _ _ => eq_refl) _ _ _ _ _
           (proj1 Hnp) I) in E6; [ | reflexivity].
  destruct E6 as (pps & c2 & -> & Hpps & Fpps & -> & Hc2).
  apply bind_Ok in E. destruct E as (profile & [b7 r7] & E7 & E).
  unfold load in E7. cbn [fst snd] in E7. injection E7 as <- <- <-.
  avc_fields. avc_fields_in E.
  pose proof (at_range tmp 0) as H0. pose proof (at_range tmp 1) as H1.
  pose proof (at_range tmp 2) as H2. pose proof (at_range tmp 3) as H3.
  destruct (avc.has_ext tmp@1) eqn:Eext.
  - apply bind_Ok in E. destruct E as (tmp4 & [b8 r8] & E8 & E).
    apply Read_Ok in E8. destruct E8 as (-> & -> & Htmp4).
    cbv zeta in E.
    apply bind_Ok in E. destruct E as ([] & [b9 r9] & E9 & E).
    unfold assign in E9. cbn [fst snd] in E9. injection E9 as <- <-.
    avc_fields_in E.
    apply (read_entries_Ok avc.SequenceParameterSetExts avc.set_SequenceParameterSetExts
             avc.NALUnit avc.set_NALUnit avc.zero_set (fun _ => True)
             (fun _ _ _ => I) (fun _ _ _ => eq_refl) (fun _ _ _ => eq_refl)
             avc_set_get_Exts (fun _ _ => eq_refl) _ _ _ _ _
             (proj1 (at_range tmp4 3)) I) in E; [ | reflexivity].
    destruct E as (exts & c3 & -> & Hexts & Fexts & -> & Hc3).
    exists (tmp ++ c1 ++ bs ++ c2 ++ tmp4 ++ c3).
    split; [now rewrite <- !app_assoc | ].
    avc_fields. rewrite Eext.
    split; [ | split; [ | discriminate]].
    + unfold avc_in_range. avc_fields.
      pose proof (at_range tmp4 3).
      repeat split; try lia; try assumption;
        first [ byte_bound (fun x => Z.land x 3) 0 4
              | byte_bound (fun x => Z.land x 7) 0 8 ].
    + rewrite !len_app, Hc1, Hc2, Hc3, Hbs. unfold len at 1 2.
      rewrite Htmp, Htmp4.
      unfold avc.AVCSequenceParameterSet, avc.AVCPictureParameterSet,
        avc.AVCSequenceParameterSetExt in *. lia.
  - unfold ret in E. injection E as <- <-.
    exists (tmp ++ c1 ++ bs ++ c2).
    split; [now rewrite <- !app_assoc | ].
    avc_fields. rewrite Eext.
    split; [ | split; [ | repeat split]].
    + unfold avc_in_range. avc_fields. rewrite Eext.
      repeat split; try lia; try assumption; discriminate.
    + rewrite !len_app, Hc1, Hc2, Hbs. unfold len at 1. rewrite Htmp.
      unfold avc.AVCSequenceParameterSet, avc.AVCPictureParameterSet,
        avc.AVCSequenceParameterSetExt in *. lia.
Qed.

Lemma len_avc_wire (b : avc.AVCDecoderConfigurationRecord) :
  len (avc_wire b)
  = 7 + units_len (map avc.NALUnit (avc.SequenceParameterSets b))
    + units_len (map avc.NALUnit (avc.PictureParameterSets b))
    + (if avc.has_ext (avc.AVCProfileIndication b)
       then 4 + units_len (map avc.NALUnit (avc.SequenceParameterSetExts b))
       else 0).
Proof.
  unfold avc_wire, avc_wire_base, avc_wire_ext.
  destruct (avc.has_ext (avc.AVCProfileIndication b));
    rewrite !len_app, !len_cons, !len_nil, !len_avc_wire_sets; lia.
Qed.

Lemma avc_RecordSize_in_range (b : avc.AVCDecoderConfigurationRecord) :
  avc_in_range b -> avc.RecordSize b = len (avc_wire b).
Proof.
  intros (_ & _ & _ & _ & _ & Hns & Hus & Hnp & Hup & Hext).
  rewrite avc_RecordSize_exact. unfold u32. apply Z.mod_small.
  rewrite len_avc_wire.
  pose proof (avc_units_len_bound _ Hus) as B1.
  pose proof (avc_units_len_bound _ Hup) as B2.
  change (2 ^ 32) with 4294967296.
  unfold avc.AVCSequenceParameterSet, avc.AVCPictureParameterSet,
    avc.AVCSequenceParameterSetExt in *.
  destruct (avc.has_ext (avc.AVCProfileIndication b)).
  - destruct (Hext eq_refl) as (_ & _ & _ & Hne & Hue).
    pose proof (avc_units_len_bound _ Hue) as B3. lia.
  - lia.
Qed.

Lemma avc_decoded_into_kept (b0 d : avc.AVCDecoderConfigurationRecord) :
  (avc.has_ext (avc.AVCProfileIndication d) = false ->
   avc.ChromaFormat d = avc.ChromaFormat b0 /\
   avc.BitDepthLumaMinus8 d = avc.BitDepthLumaMinus8 b0 /\
   avc.BitDepthChromaMinus8 d = avc.BitDepthChromaMinus8 b0 /\
   avc.SequenceParameterSetExts d = avc.SequenceParameterSetExts b0) ->
  avc_decoded_into b0 d = d.
Proof.
  intros H. unfold avc_decoded_into.
  destruct (avc.has_ext (avc.AVCProfileIndication d)); [reflexivity | ].
  destruct (H eq_refl) as (<- & <- & <- & <-). destruct d. reflexivity.
Qed.



(** X14.  Encoding a decoded AVC record and decoding it again.  When
    [RecordRead] has succeeded and stored [d], what [RecordWrite]
    writes for [d] is as long as what [RecordRead] took from the
    source, and decoding it, into the receiver as it was before the
    first call or into [d] itself, succeeds and gives [d] again: no
    field that [RecordRead] stores is lost by [RecordWrite]. *)
Theorem X14_avc_decode_encode_decode :
  forall b0 r d r',
    avc.RecordRead (b0, r) = (Ok tt, (d, r')) ->
    forall w w' rest,
      avc.RecordWrite d w = (Ok tt, w') ->
      exists out,
        io.written w' = io.written w ++ out /\
        len out = len r - len r' /\
        avc.RecordRead (b0, out ++ rest) = (Ok tt, (d, rest)) /\
        avc.RecordRead (d, out ++ rest) = (Ok tt, (d, rest)).
Proof.
  intros b0 r d r' E w w' rest Ew.
  destruct (avc_RecordRead_Ok b0 d r r' E) as (c & -> & Hd & Hc & Hk).
  destruct (written_with_room _ _ w w' (avc_RecordWrite_emits d) Ew) as (out & Hw & ->).
  exists (avc_wire d). split; [exact Hw | ].
  split; [rewrite len_avc_wire, len_app; lia | ].
  split.
  - pose proof (avc_reads_wire b0 d Hd rest) as H.
    rewrite (avc_decoded_into_kept b0 d Hk) in H. exact H.
  - pose proof (avc_reads_wire d d Hd rest) as H.
    rewrite (avc_decoded_into_kept d d) in H; [exact H | ].
    intros _. repeat split.
Qed.

Lemma X14_avc_decode_encode_decode_witness :
  exists out,
    io.written (io.mkWriter (avc_wire avc_high) 0) = io.written (sink 21) ++ out /\
    len out = len (avc_wire avc_high ++ [x2a]) - len [x2a] /\
    avc.RecordRead (avc.zero, out ++ [x00]) = (Ok tt, (avc_high, [x00])) /\
    avc.RecordRead (avc_high, out ++ [x00]) = (Ok tt, (avc_high, [x00])).
Proof.
  apply (X14_avc_decode_encode_decode avc.zero (avc_wire avc_high ++ [x2a]) avc_high [x2a]);
    vm_compute; reflexivity.
Defined.

(** *** HEVC *)

Ltac hevc_fields_in H :=
  cbn [hevc.ConfigurationVersion hevc.GeneralProfileSpace hevc.GeneralTierFlag
       hevc.GenertalProfileIndicator hevc.GeneralProfileCompatibilityFlags
       hevc.GeneralConstraintIndicatorFlags hevc.GeneralLevelIndicator
       hevc.MinSpatialSegmentationIndicator hevc.ParallelismType
       hevc.ChromaFormatIndicator hevc.BitDepthLumaMinus8 hevc.BitDepthChromaMinus8
       hevc.AvgFrameRate hevc.ConstantFrameRate hevc.NumTemporalLayers
       hevc.TemporalIDNested hevc.LengthSizeMinusOne hevc.NaluArrays
       hevc.NALUs hevc.ArrayCompleteness hevc.NALUnitType
       hevc.set_NaluArrays hevc.set_NALUs hevc.get_NALUs] in H.

Lemma hevc_read_array_Ok (b b' : hevc.HEVCDecoderConfigurationRecord) (r r' : io.Reader)
      (done todo : list hevc.NaluArray) (t0 : hevc.NaluArray) :
  hevc.NaluArrays b = done ++ t0 :: todo ->
  hevc.read_array (length done) (b, r) = (Ok tt, (b', r')) ->
  exists a c,
    b' = hevc.set_NaluArrays (done ++ a :: todo) b /\ hevc_array_ok a /\
    r = c ++ r' /\ len c = 3 + units_len (hevc.NALUs a).
Proof.
  intros Hget E. unfold hevc.read_array in E.
  apply bind_Ok in E. destruct E as (tmp & [b1 r1] & E1 & E).
  apply Read_Ok in E1. destruct E1 as (-> & -> & Htmp).
  cbv zeta in E.
  apply bind_Ok in E. destruct E as ([] & [b2 r2] & E2 & E).
  unfold assign in E2. cbn [fst snd] in E2. injection E2 as <- <-.
  rewrite Hget, upd_app in E.
  pose proof (hevc_count12_range tmp) as Hcnt.
  apply (read_entries_Ok (hevc.get_NALUs (length done)) (hevc.set_NALUs (length done))
           (fun nalu => nalu) (fun buf _ => buf) []
           (fun b => (length done < length (hevc.NaluArrays b))%nat)) in E.
  - destruct E as (ts & c & -> & Hts & Fts & -> & Hc).
    exists {| hevc.ArrayCompleteness := 0 <? Z.shiftr tmp@0 7;
              hevc.NALUnitType := Z.land tmp@0 63;
              hevc.NALUs := ts |}, (tmp ++ c).
    split; [ | split; [ | split]].
    + unfold hevc.set_NALUs. hevc_fields. rewrite upd_app. reflexivity.
    + unfold hevc_array_ok. hevc_fields.
      split; [byte_bound (fun x => Z.land x 63) 0 64 | ].
      split; [change (2 ^ 12) with 4096 in Hcnt; lia | exact Fts].
    + now rewrite <- app_assoc.
    + hevc_fields. rewrite map_id in Hc. rewrite len_app, Hc. unfold len at 1.
      rewrite Htmp. lia.
  - intros v b0 Hb0. unfold hevc.set_NALUs. hevc_fields. now rewrite upd_length.
  - intros v b0 Hb0. apply hevc_get_set_NALUs, Hb0.
  - apply hevc_set_set_NALUs.
  - apply hevc_set_get_NALUs.
  - reflexivity.
  - lia.
  - hevc_fields. rewrite length_app. cbn [length]. lia.
  - unfold hevc.get_NALUs. hevc_fields. rewrite nth_middle. reflexivity.
Qed.

Lemma hevc_nalu_total_cons (a : hevc.NaluArray) (s : list hevc.NaluArray) :
  hevc_nalu_total (a :: s) = len (hevc.NALUs a) + hevc_nalu_total s.
Proof. reflexivity. Qed.

Lemma hevc_payload_total_cons (a : hevc.NaluArray) (s : list hevc.NaluArray) :
  hevc_payload_total (a :: s) = payload_len (hevc.NALUs a) + hevc_payload_total s.
Proof. reflexivity. Qed.

Lemma hevc_for_range_arrays_Ok (n : nat) :
  forall (b b' : hevc.HEVCDecoderConfigurationRecord) (r r' : io.Reader)
         (done todo : list hevc.NaluArray),
  hevc.NaluArrays b = done ++ todo ->
  length todo = n ->
  for_range (length done) n hevc.read_array (b, r) = (Ok tt, (b', r')) ->
  exists ts c,
    b' = hevc.set_NaluArrays (done ++ ts) b /\ length ts = n /\
    Forall hevc_array_ok ts /\
    r = c ++ r' /\
    len c = 3 * Z.of_nat n + 2 * hevc_nalu_total ts + hevc_payload_total ts.
Proof.
  induction n as [|n IH]; intros b b' r r' done todo Hget Hlen E.
  - destruct todo; [ | discriminate]. cbn [for_range] in E.
    unfold ret in E. injection E as <- <-.
    exists [], []. rewrite <- Hget, hevc_set_get_NaluArrays.
    repeat split; constructor.
  - destruct todo as [|t0 todo]; [discriminate | ].
    cbn [for_range] in E. apply bind_Ok in E. destruct E as ([] & [b1 r1] & E1 & E).
    apply (hevc_read_array_Ok b b1 r r1 done todo t0 Hget) in E1.
    destruct E1 as (a & c1 & -> & Ha & -> & Hc1).
    specialize (IH (hevc.set_NaluArrays (done ++ a :: todo) b) b' r1 r' (done ++ [a]) todo).
    rewrite length_app in IH. cbn [length] in IH.
    replace (length done + 1)%nat with (S (length done)) in IH by lia.
    destruct IH as (ts & c2 & -> & Hts & Fts & -> & Hc2).
    + hevc_fields. rewrite <- app_assoc. reflexivity.
    + cbn [length] in Hlen. lia.
    + exact E.
    + exists (a :: ts), (c1 ++ c2). rewrite <- !app_assoc.
      split; [reflexivity | ].
      split; [cbn [length]; lia | ].
      split; [constructor; assumption | ].
      split; [reflexivity | ].
      rewrite len_app, hevc_nalu_total_cons, hevc_payload_total_cons, Hc1, Hc2.
      unfold units_len. lia.
Qed.

Lemma hevc_compat32_range (t : list byte) :
  0 <= Z.lor (Z.lor (Z.lor (u32 (Z.shiftl t@2 24)) (u32 (Z.shiftl t@3 16)))
                    (u32 (Z.shiftl t@4 8)))
             t@5 < 2 ^ 32.
Proof.
  assert (H : forall z, 0 <= u32 z < 2 ^ 32)
    by (intros z; unfold u32; apply Z.mod_pos_bound; reflexivity).
  repeat (apply lor_range; [lia | | ]); try apply H.
  pose proof (at_range t 5). change (2 ^ 32) with 4294967296. lia.
Qed.

Lemma hevc_RecordRead_Ok (b0 d : hevc.HEVCDecoderConfigurationRecord) (r r' : io.Reader) :
  hevc.RecordRead (b0, r) = (Ok tt, (d, r')) ->
  exists c,
    r = c ++ r' /\
    hevc_in_range d /\
    len c = 23 + 3 * len (hevc.NaluArrays d)
            + 2 * hevc_nalu_total (hevc.NaluArrays d)
            + hevc_payload_total (hevc.NaluArrays d).
Proof.
  intros E. unfold hevc.RecordRead in E.
  apply bind_Ok in E. destruct E as (tmp & [b1 r1] & E1 & E).
  apply Read_Ok in E1. destruct E1 as (-> & -> & Htmp).
  cbv zeta in E.
  apply bind_Ok in E. destruct E as ([] & [b2 r2] & E2 & E).
  unfold assign in E2. cbn [fst snd] in E2. injection E2 as <- <-.
  pose proof (at_range tmp 22) as Hcount.
  apply (hevc_for_range_arrays_Ok (Z.to_nat tmp@22) _ _ _ _ [] (make hevc.zero_array tmp@22))
    in E; [ | reflexivity | unfold make; apply repeat_length].
  destruct E as (ts & c & -> & Hts & Fts & -> & Hc).
  exists (tmp ++ c).
  split; [now rewrite <- app_assoc | ].
  cbn [app]. hevc_fields.
  split.
  - unfold hevc_in_range. hevc_fields.
    split; [apply at_range | ].
    split; [byte_bound (fun x => Z.shiftr x 6) 0 4 | ].
    split; [byte_bound (fun x => Z.land x 31) 0 32 | ].
    split; [apply hevc_compat32_range | ].
    split; [apply hevc_flags48_range | ].
    split; [apply at_range | ].
    split.
    { assert (H1 : 0 <= u16 (Z.shiftl (Z.land tmp@13 15) 8) < 2 ^ 12)
        by byte_bound (fun x => u16 (Z.shiftl (Z.land x 15) 8)) 0 (2 ^ 12).
      pose proof (at_range tmp 14) as H2.
      change 4096 with (2 ^ 12).
      apply lor_range; [lia | exact H1 | ]. change (2 ^ 12) with 4096. lia. }
    split; [byte_bound (fun x => Z.land x 3) 0 4 | ].
    split; [byte_bound (fun x => Z.land x 3) 0 4 | ].
    split; [byte_bound (fun x => Z.land x 7) 0 8 | ].
    split; [byte_bound (fun x => Z.land x 7) 0 8 | ].
    split.
    { assert (H1 : 0 <= u16 (Z.shiftl tmp@19 8) < 2 ^ 16)
        by (unfold u16; apply Z.mod_pos_bound; reflexivity).
      pose proof (at_range tmp 20) as H2.
      change 65536 with (2 ^ 16).
      apply lor_range; [lia | exact H1 | ]. change (2 ^ 16) with 65536. lia. }
    split; [byte_bound (fun x => Z.shiftr x 6) 0 4 | ].
    split; [byte_bound (fun x => Z.land (Z.shiftr x 3) 7) 0 8 | ].
    split; [byte_bound (fun x => Z.land (Z.shiftr x 2) 1) 0 2 | ].
    split; [byte_bound (fun x => Z.land x 3) 0 4 | ].
    split; [unfold len; lia | exact Fts].
  - rewrite len_app, Hc. unfold len. rewrite Htmp, Hts. lia.
Qed.

Lemma len_hevc_wire (b : hevc.HEVCDecoderConfigurationRecord) :
  len (hevc_wire b)
  = 23 + 3 * len (hevc.NaluArrays b)
    + 2 * hevc_nalu_total (hevc.NaluArrays b)
    + hevc_payload_total (hevc.NaluArrays b).
Proof.
  unfold hevc_wire. rewrite len_app, len_hevc_wire_header, len_hevc_wire_arrays.
  unfold hevc_nalu_total, hevc_payload_total. lia.
Qed.

(** X15.  What a successful HEVC decode leaves in the receiver.  When
    [RecordRead] succeeds, every field of the record it stored, and
    every NAL array of it, is within the width it has on the wire
    (fewer than 256 arrays with 6-bit tags, fewer than 4096 NAL units
    each, every NAL unit shorter than 65536 bytes), and the
    [RecordSize] of that record is the number of bytes taken from the
    source, reduced modulo [2^32]. *)
Theorem X15_hevc_decoded_record :
  forall b0 r d r',
    hevc.RecordRead (b0, r) = (Ok tt, (d, r')) ->
    exists c,
      r = c ++ r' /\
      hevc_in_range d /\
      hevc.RecordSize d = len c mod 2 ^ 32.
Proof.
  intros b0 r d r' E.
  destruct (hevc_RecordRead_Ok b0 d r r' E) as (c & Hr & Hd & Hc).
  exists c. split; [exact Hr | split; [exact Hd | ]].
  rewrite hevc_RecordSize_exact, len_hevc_wire, Hc. reflexivity.
Qed.

Lemma X15_hevc_decoded_record_witness :
  exists c,
    hevc_wire hevc_high_tier ++ [x2a] = c ++ [x2a] /\
    hevc_in_range (hevc_decoded hevc_high_tier) /\
    hevc.RecordSize (hevc_decoded hevc_high_tier) = len c mod 2 ^ 32.
Proof.
  apply (X15_hevc_decoded_record hevc.zero (hevc_wire hevc_high_tier ++ [x2a])
           (hevc_decoded hevc_high_tier) [x2a]).
  vm_compute. reflexivity.
Defined.

(** X16.  The HEVC and Dolby Vision decoders overwrite the whole
    receiver.  On a source that has the fixed part (23 bytes for HEVC,
    24 for Dolby Vision) the outcome of [RecordRead], the record left in
    the receiver and what is left of the source do not depend on what
    the receiver held before the call, whether the call succeeds or
    stops with an error inside the NAL arrays. *)
Theorem X16_receiver_is_overwritten :
  (forall b0 b1 r, 23 <= len r -> hevc.RecordRead (b0, r) = hevc.RecordRead (b1, r)) /\
  (forall b0 b1 r, 24 <= len r -> dovi.RecordRead (b0, r) = dovi.RecordRead (b1, r)).
Proof.
  split; intros b0 b1 r Hr.
  - unfold hevc.RecordRead, bind.
    rewrite !Read_enough by (unfold len in Hr; lia).
    reflexivity.
  - unfold dovi.RecordRead, bind.
    rewrite !Read_enough by (unfold len in Hr; lia).
    reflexivity.
Qed.

Lemma X16_receiver_is_overwritten_witness :
  hevc.RecordRead (hevc.zero, hevc_wire hevc_high_tier)
  = hevc.RecordRead (hevc_high_tier, hevc_wire hevc_high_tier) /\
  dovi.RecordRead (dovi.zero, dovi_wire dovi_scenario_B)
  = dovi.RecordRead (dovi_scenario_B, dovi_wire dovi_scenario_B).
Proof.
  split.
  - apply (proj1 X16_receiver_is_overwritten). vm_compute. discriminate.
  - apply (proj2 X16_receiver_is_overwritten). vm_compute. discriminate.
Defined.

(** X17.  Encoding a decoded HEVC record and decoding it again.  When
    [RecordRead] has succeeded and stored [d], what [RecordWrite]
    writes for [d] is as long as what [RecordRead] took from the
    source, and decoding it succeeds, but gives [d] back only when [d]
    has the tier flag false, parallelism type 3, chroma format 3 and
    both bit depths 7: in general it gives [hevc_decoded d], in which
    these five fields are replaced. *)
Theorem X17_hevc_decode_encode_decode :
  forall b0 r d r',
    hevc.RecordRead (b0, r) = (Ok tt, (d, r')) ->
    (forall w w' b1 rest,
       hevc.RecordWrite d w = (Ok tt, w') ->
       exists out,
         io.written w' = io.written w ++ out /\
         len out = len r - len r' /\
         hevc.RecordRead (b1, out ++ rest) = (Ok tt, (hevc_decoded d, rest))) /\
    (hevc_decoded d = d <->
     hevc.GeneralTierFlag d = false /\
     hevc.ParallelismType d = 3 /\
     hevc.ChromaFormatIndicator d = 3 /\
     hevc.BitDepthLumaMinus8 d = 7 /\
     hevc.BitDepthChromaMinus8 d = 7).
Proof.
  intros b0 r d r' E.
  destruct (hevc_RecordRead_Ok b0 d r r' E) as (c & -> & Hd & Hc).
  split; [ | apply hevc_decoded_fixed_iff].
  intros w w' b1 rest Ew.
  destruct (written_with_room _ _ w w' (hevc_RecordWrite_emits d) Ew) as (out & Hw & ->).
  exists (hevc_wire d). split; [exact Hw | ].
  split; [rewrite len_hevc_wire, len_app; lia | ].
  apply (hevc_reads_wire b1 d Hd).
Qed.

Lemma X17_hevc_decode_encode_decode_witness :
  exists out,
    io.written (io.mkWriter (hevc_wire (hevc_decoded hevc_high_tier)) 0)
    = io.written (sink 23) ++ out /\
    len out = len (hevc_wire hevc_high_tier ++ [x2a]) - len [x2a] /\
    hevc.RecordRead (hevc.zero, out ++ [x00])
    = (Ok tt, (hevc_decoded (hevc_decoded hevc_high_tier), [x00])).
Proof.
  apply (proj1 (X17_hevc_decode_encode_decode hevc.zero (hevc_wire hevc_high_tier ++ [x2a])
                  (hevc_decoded hevc_high_tier) [x2a] ltac:(vm_compute; reflexivity))).
  vm_compute. reflexivity.
Defined.
